(** * adp: document downloader and processor

    A shallow embedding of [cmd/process.go] and [cmd/download.go] and the
    properties of the classification pass, the filename allocator, the
    cookie bridge, the link discovery, the bulk downloader and the
    readiness waits.

    Go strings are byte sequences; they are modelled by [string], whose
    literals hold the UTF-8 bytes of this file exactly as a Go source
    literal does. *)

From Stdlib Require Import String Ascii List ZArith NArith Lia Bool.
From Stdlib Require Import DecimalString DecimalNat DecimalFacts.
From stdpp Require Import gmap strings list sorting.

Open Scope string_scope.

(** ** Go library functions used by the commands *)

(** Package [strings]. *)
Module GoStrings.

Definition HasPrefix (s pre : string) : bool := String.prefix pre s.

Fixpoint Contains (s substr : string) : bool :=
  String.prefix substr s
  || match s with
     | EmptyString => false
     | String _ s' => Contains s' substr
     end.

Definition HasSuffix (s suf : string) : bool :=
  (String.length suf <=? String.length s)%nat
  && String.eqb (substring (String.length s - String.length suf) (String.length suf) s) suf.

End GoStrings.

(** [s[n:]] and [s[:n]], the whole string when it is shorter. *)
Fixpoint string_drop (n : nat) (s : string) : string :=
  match n, s with
  | O, _ => s
  | S k, String _ s' => string_drop k s'
  | S _, EmptyString => ""
  end.

Fixpoint string_take (n : nat) (s : string) : string :=
  match n, s with
  | O, _ => ""
  | S k, String c s' => String c (string_take k s')
  | S _, EmptyString => ""
  end.

(** Package [path/filepath], Unix flavour: the separator is the slash and
    there are no volume names. *)
Module filepath.

Definition IsPathSeparator (c : ascii) : bool := Ascii.eqb c "/"%char.

(** [for i := len(path)-1; i >= 0 && !IsPathSeparator(path[i]); i-- {
       if path[i] == '.' { return path[i:] } }
     return ""]; the counter [n] is [i+1]. *)
Fixpoint Ext_loop (path : string) (n : nat) : string :=
  match n with
  | O => ""
  | S i =>
      match get i path with
      | Some c =>
          if IsPathSeparator c then ""
          else if Ascii.eqb c "."%char
               then substring i (String.length path - i) path
               else Ext_loop path i
      | None => ""
      end
  end.

Definition Ext (path : string) : string := Ext_loop path (String.length path).

(** [for len(path) > 0 && IsPathSeparator(path[len(path)-1]) {
       path = path[0:len(path)-1] }] *)
Fixpoint strip_trailing (path : string) (n : nat) : string :=
  match n with
  | O => ""
  | S i =>
      match get i path with
      | Some c => if IsPathSeparator c then strip_trailing path i
                  else substring 0 n path
      | None => substring 0 n path
      end
  end.

(** [i := len(path)-1; for i >= 0 && !IsPathSeparator(path[i]) { i-- };
     if i >= 0 { path = path[i+1:] }]; the counter [n] is [i+1]. *)
Fixpoint last_element (path : string) (n : nat) : string :=
  match n with
  | O => path
  | S i =>
      match get i path with
      | Some c => if IsPathSeparator c
                  then substring n (String.length path - n) path
                  else last_element path i
      | None => path
      end
  end.

Definition Base (path : string) : string :=
  if String.eqb path "" then "."
  else
    let path := strip_trailing path (String.length path) in
    let path := last_element path (String.length path) in
    if String.eqb path "" then "/" else path.

(** [hasMeta(path)]: the path holds one of [magicChars], the characters
    [*?[\] that make [Glob] read it as a pattern. *)
Fixpoint hasMeta (path : string) : bool :=
  match path with
  | EmptyString => false
  | String c rest =>
      Ascii.eqb c "*" || Ascii.eqb c "?" || Ascii.eqb c "[" || Ascii.eqb c "\"
      || hasMeta rest
  end.

(** [Clean(path)], the shortest path equivalent to [path] by purely lexical
    processing: [path] is read from [r], here its rest from there, and
    written to a buffer of length [w], here the string [out]; [dotdot] is
    the index in the buffer where [..] must stop. *)

(** [for ; r < n && !IsPathSeparator(path[r]); r++ { out.append(path[r]) }]:
    the element copied and the rest of the path. *)
Fixpoint element (path : string) : string * string :=
  match path with
  | EmptyString => ("", "")
  | String c rest =>
      if IsPathSeparator c then ("", path)
      else let '(copied, rest') := element rest in (String c copied, rest')
  end.

(** [for out.w > dotdot && !IsPathSeparator(out.index(out.w)) { out.w-- }],
    from [w]. *)
Fixpoint backtrack (out : string) (dotdot w : nat) : nat :=
  match w with
  | O => O
  | S w' =>
      if (dotdot <? w)%nat
         && negb (match get w out with
                  | Some c => IsPathSeparator c
                  | None => false
                  end)
      then backtrack out dotdot w'
      else w
  end.

(** [r == n || IsPathSeparator(path[r])] *)
Definition ends_element (rest : string) : bool :=
  match rest with
  | EmptyString => true
  | String c _ => IsPathSeparator c
  end.

(** The loop [for r < n { switch { ... } }]; a turn of it reads one byte at
    least, so that [fuel] from the length of the path on is enough. *)
Fixpoint Clean_loop (fuel : nat) (rooted : bool) (path out : string) (dotdot : nat)
    : string :=
  match fuel with
  | O => out
  | S fuel' =>
      match path with
      | EmptyString => out
      | String c rest =>
          if IsPathSeparator c then
            (* empty path element *)
            Clean_loop fuel' rooted rest out dotdot
          else if Ascii.eqb c "." && ends_element rest then
            (* . element *)
            Clean_loop fuel' rooted rest out dotdot
          else if Ascii.eqb c "."
                  && match rest with
                     | String d rest2 => Ascii.eqb d "." && ends_element rest2
                     | EmptyString => false
                     end
          then
            (* .. element: remove to last separator *)
            let rest2 := string_drop 1 rest in
            if (dotdot <? String.length out)%nat then
              let w := backtrack out dotdot (String.length out - 1) in
              Clean_loop fuel' rooted rest2 (substring 0 w out) dotdot
            else if negb rooted then
              let out := (if (0 <? String.length out)%nat then out +:+ "/" else out)
                         +:+ ".." in
              Clean_loop fuel' rooted rest2 out (String.length out)
            else Clean_loop fuel' rooted rest2 out dotdot
          else
            (* real path element: add slash if needed, copy element *)
            let out :=
              if rooted && negb (String.length out =? 1)%nat
                 || negb rooted && negb (String.length out =? 0)%nat
              then out +:+ "/" else out in
            let '(copied, rest') := element path in
            Clean_loop fuel' rooted rest' (out +:+ copied) dotdot
      end
  end.

Definition Clean (path : string) : string :=
  match path with
  | EmptyString => "."
  | String c rest =>
      let rooted := IsPathSeparator c in
      let out :=
        if rooted then Clean_loop (String.length path) true rest "/" 1
        else Clean_loop (String.length path) false path "" 0 in
      if String.eqb out "" then "." else out
  end.

(** [Join(dir, name)] is [Clean(dir + "/" + name)].  The directory is taken
    in the form [Clean] returns (no trailing separator except for the
    root) and the name is a plain file name, on which [Clean] is the
    identity.  The properties of a pass over a directory below are stated
    for such directories, by the hypothesis [plain_directory], under
    which this is what [Clean] gives ([Join_Clean]). *)
Definition Join (dir name : string) : string :=
  if String.eqb dir "" then name
  else if String.eqb dir "/" then "/" +:+ name
  else dir +:+ "/" +:+ name.

End filepath.

(** Package [unicode/utf8]. *)
Module utf8.

Definition rune := N.

Definition RuneError : rune := 65533%N.

Definition byte_at (i : nat) (s : string) : option N :=
  option_map N_of_ascii (get i s).

Definition in_range (lo hi b : N) : bool := ((lo <=? b) && (b <=? hi))%N.

(** The [first] table of the Go decoder: for a leading byte, the length of
    the sequence and the accepted range of the second byte; [None] for a
    byte that cannot start a multi-byte sequence. *)
Definition first (s0 : N) : option (nat * (N * N)) :=
  if in_range 194 223 s0 then Some (2%nat, (128, 191)%N)
  else if (s0 =? 224)%N then Some (3%nat, (160, 191)%N)
  else if in_range 225 236 s0 then Some (3%nat, (128, 191)%N)
  else if (s0 =? 237)%N then Some (3%nat, (128, 159)%N)
  else if in_range 238 239 s0 then Some (3%nat, (128, 191)%N)
  else if (s0 =? 240)%N then Some (4%nat, (144, 191)%N)
  else if in_range 241 243 s0 then Some (4%nat, (128, 191)%N)
  else if (s0 =? 244)%N then Some (4%nat, (128, 143)%N)
  else None.

Definition maskx : N := 63.
Definition locb : N := 128.
Definition hicb : N := 191.

(** [DecodeRuneInString]: the first rune of [s] and its width in bytes;
    width 0 only for the empty string, [(RuneError, 1)] for an invalid or
    truncated encoding. *)
Definition DecodeRuneInString (s : string) : rune * nat :=
  match byte_at 0 s with
  | None => (RuneError, 0)
  | Some s0 =>
      if (s0 <? 128)%N then (s0, 1)
      else
        match first s0 with
        | None => (RuneError, 1)
        | Some (sz, (lo, hi)) =>
            if (String.length s <? sz)%nat then (RuneError, 1)
            else
              match byte_at 1 s with
              | None => (RuneError, 1)
              | Some s1 =>
                  if negb (in_range lo hi s1) then (RuneError, 1)
                  else if (sz <=? 2)%nat
                  then (N.lor (N.shiftl (N.land s0 31) 6) (N.land s1 maskx), 2)
                  else
                    match byte_at 2 s with
                    | None => (RuneError, 1)
                    | Some s2 =>
                        if negb (in_range locb hicb s2) then (RuneError, 1)
                        else if (sz <=? 3)%nat
                        then (N.lor (N.shiftl (N.land s0 15) 12)
                                (N.lor (N.shiftl (N.land s1 maskx) 6)
                                   (N.land s2 maskx)), 3)
                        else
                          match byte_at 3 s with
                          | None => (RuneError, 1)
                          | Some s3 =>
                              if negb (in_range locb hicb s3) then (RuneError, 1)
                              else (N.lor (N.shiftl (N.land s0 7) 18)
                                      (N.lor (N.shiftl (N.land s1 maskx) 12)
                                         (N.lor (N.shiftl (N.land s2 maskx) 6)
                                            (N.land s3 maskx))), 4)
                          end
                    end
              end
        end
  end.

(** The runes of a string with their widths, as a [for range] loop or the
    regexp engine reads them: decode at the current offset, advance by the
    width.  [skip] counts the bytes of the current rune still to pass. *)
Fixpoint runes_from (skip : nat) (s : string) : list (rune * nat) :=
  match s with
  | EmptyString => []
  | String _ s' =>
      match skip with
      | S k => runes_from k s'
      | O =>
          let rw := DecodeRuneInString s in
          rw :: runes_from (snd rw - 1) s'
      end
  end.

Definition runes (s : string) : list (rune * nat) := runes_from 0 s.

(** [EncodeRune]: the UTF-8 bytes of a rune. *)
Definition EncodeRune (r : rune) : string :=
  let tx := 128%N in
  let byte (n : N) := ascii_of_N n in
  if (r <=? 127)%N then String (byte r) ""
  else if (r <=? 2047)%N then
    String (byte (N.lor 192 (N.shiftr r 6)))
      (String (byte (N.lor tx (N.land r maskx))) "")
  else
    let r := if (1114111 <? r)%N || in_range 55296 57343 r then RuneError else r in
    if (r <=? 65535)%N then
      String (byte (N.lor 224 (N.shiftr r 12)))
        (String (byte (N.lor tx (N.land (N.shiftr r 6) maskx)))
           (String (byte (N.lor tx (N.land r maskx))) ""))
    else
      String (byte (N.lor 240 (N.shiftr r 18)))
        (String (byte (N.lor tx (N.land (N.shiftr r 12) maskx)))
           (String (byte (N.lor tx (N.land (N.shiftr r 6) maskx)))
              (String (byte (N.lor tx (N.land r maskx))) ""))).

(** A string that is empty or starts with an ASCII byte: no rune that
    starts before it reaches into it. *)
Definition ascii_start (s : string) : Prop :=
  match s with
  | EmptyString => True
  | String c _ => (N_of_ascii c < 128)%N
  end.

(** The checks behind the proofs by enumeration: a rune below [0x800]
    is encoded in one byte or in two bytes that decode to it; two bytes
    that decode to a rune are its encoding; the first two bytes of a longer
    sequence put the rune at [0x800] or above. *)
Definition rune2 (b0 b1 : N) : rune :=
  N.lor (N.shiftl (N.land b0 31) 6) (N.land b1 maskx).

Definition encodes_small (r : rune) : bool :=
  if (r <? 128)%N then String.eqb (EncodeRune r) (String (ascii_of_N r) "")
  else
    match EncodeRune r with
    | String b0 (String b1 EmptyString) =>
        match first (N_of_ascii b0) with
        | Some (2, (lo, hi)) =>
            in_range lo hi (N_of_ascii b1)
            && (rune2 (N_of_ascii b0) (N_of_ascii b1) =? r)%N
            && (128 <=? N_of_ascii b0)%N
        | _ => false
        end
    | _ => false
    end.

Definition decodes_two (b0 b1 : ascii) : bool :=
  match first (N_of_ascii b0) with
  | Some (2, (lo, hi)) =>
      if in_range lo hi (N_of_ascii b1) then
        let r := rune2 (N_of_ascii b0) (N_of_ascii b1) in
        (r <? 2048)%N && String.eqb (EncodeRune r) (String b0 (String b1 ""))
      else true
  | _ => true
  end.

Definition decodes_long (b0 b1 : ascii) : bool :=
  match first (N_of_ascii b0) with
  | Some (sz, (lo, hi)) =>
      if (3 <=? sz)%nat && in_range lo hi (N_of_ascii b1) then
        if (sz <=? 3)%nat
        then (2048 <=? N.lor (N.shiftl (N.land (N_of_ascii b0) 15) 12)
                         (N.shiftl (N.land (N_of_ascii b1) maskx) 6))%N
        else (2048 <=? N.lor (N.shiftl (N.land (N_of_ascii b0) 7) 18)
                         (N.shiftl (N.land (N_of_ascii b1) maskx) 12))%N
      else true
  | None => true
  end.

(** The bytes, for the proofs by enumeration. *)
Definition all_bytes : list ascii := map ascii_of_nat (seq 0 256).

End utf8.

(** Package [regexp]: a backtracking matcher with the leftmost-first
    (Perl-like) preference of Go's engine, over the fragment of the syntax
    the commands use: literals, character classes, [x?], [c*] and [c+] on
    a single-rune item, counted repetition, capture groups and
    concatenation. *)
Module regexp.

Import utf8.

Inductive item :=
| Lit (r : rune)
| Class (ranges : list (rune * rune)).

Inductive regex :=
| Empty
| Item (a : item)
| Cat (r1 r2 : regex)
| Quest (r : regex)
| Star (a : item)
| Plus (a : item)
| Capture (i : nat) (r : regex).

Definition item_matches (a : item) (c : rune) : bool :=
  match a with
  | Lit r => (c =? r)%N
  | Class ranges => existsb (fun lohi => in_range (fst lohi) (snd lohi) c) ranges
  end.

(** [x{n}], which the Go parser expands to [n] copies of [x]. *)
Fixpoint Repeat (n : nat) (a : item) : regex :=
  match n with
  | O => Empty
  | S k => Cat (Item a) (Repeat k a)
  end.

(** Perl classes: [\d] is [0-9], [\s] is [\t\n\f\r ]. *)
Definition perl_d : item := Class [(48, 57)]%N.
Definition perl_s : item := Class [(9, 10); (12, 13); (32, 32)]%N.

(** Capture registers: start and end byte offsets per group, group 0 being
    the whole match. *)
Definition captures := list (option (nat * nat)).

(** The rest of the match: remaining input, current byte offset, registers. *)
Definition cont := list (rune * nat) -> nat -> captures -> option captures.

(** Greedy repetition of a single-rune item: take one more rune first, fall
    back to the continuation at the current offset. *)
Fixpoint star (a : item) (k : cont) (inp : list (rune * nat)) (pos : nat)
    (caps : captures) {struct inp} : option captures :=
  match inp with
  | (c, w) :: rest =>
      if item_matches a c then
        match star a k rest (pos + w) caps with
        | Some res => Some res
        | None => k inp pos caps
        end
      else k inp pos caps
  | [] => k inp pos caps
  end.

Definition step (a : item) (k : cont) : cont :=
  fun inp pos caps =>
    match inp with
    | (c, w) :: rest => if item_matches a c then k rest (pos + w) caps else None
    | [] => None
    end.

Fixpoint run (r : regex) (k : cont) {struct r} : cont :=
  match r with
  | Empty => k
  | Item a => step a k
  | Cat r1 r2 => run r1 (run r2 k)
  | Quest r1 =>
      fun inp pos caps =>
        match run r1 k inp pos caps with
        | Some res => Some res
        | None => k inp pos caps
        end
  | Star a => star a k
  | Plus a => step a (star a k)
  | Capture i r1 =>
      fun inp pos caps =>
        run r1 (fun inp' pos' caps' => k inp' pos' (<[i := Some (pos, pos')]> caps'))
          inp pos caps
  end.

Fixpoint NumSubexp (r : regex) : nat :=
  match r with
  | Empty | Item _ | Star _ | Plus _ => 0
  | Cat r1 r2 => Nat.max (NumSubexp r1) (NumSubexp r2)
  | Quest r1 => NumSubexp r1
  | Capture i r1 => Nat.max i (NumSubexp r1)
  end.

(** One attempt anchored at the current offset. *)
Definition match_at (r : regex) (inp : list (rune * nat)) (pos : nat)
    : option captures :=
  run r (fun _ pos' caps => Some (<[0 := Some (pos, pos')]> caps))
    inp pos (replicate (S (NumSubexp r)) None).

(** The unanchored search: the attempts start at successive rune
    boundaries, the leftmost success wins. *)
Fixpoint search (r : regex) (inp : list (rune * nat)) (pos : nat)
    : option captures :=
  match match_at r inp pos with
  | Some res => Some res
  | None =>
      match inp with
      | [] => None
      | (_, w) :: rest => search r rest (pos + w)
      end
  end.

(** *** The pattern parser

    [Compile] reads the fragment of the RE2 syntax listed above.  A pattern
    is [Malformed] when Go's parser reports an error for it (an unclosed or
    unopened group, a repetition operator with nothing to repeat or stacked
    on another, a count above 1000, a trailing backslash, an unclosed
    class, a reversed range, invalid UTF-8) and [Beyond] when it uses
    syntax this model does not cover, braces that hold no count among it,
    or is longer than [longest] bytes: the limits of Go's parser on the
    nesting depth (1000) and on the size of the program are not reached
    by a pattern of the fragment of that length, and are not modelled. *)
Inductive parse (A : Type) :=
| POk (a : A)
| PMalformed
| PBeyond.
Arguments POk {A} a.
Arguments PMalformed {A}.
Arguments PBeyond {A}.

Definition rc (a : ascii) : rune := N_of_ascii a.

Definition is_rc (a : ascii) (c : rune) : bool := (c =? rc a)%N.

Definition is_digit (c : rune) : bool := in_range (rc "0") (rc "9") c.

(** ASCII punctuation, which a backslash turns into a literal. *)
Definition is_punct (c : rune) : bool :=
  in_range 33 47 c || in_range 58 64 c || in_range 91 96 c || in_range 123 126 c.

(** The members of a bracket class up to the closing bracket: single runes
    and [lo-hi] ranges. *)
Fixpoint parse_class (inp : list rune) (acc : list (rune * rune))
    : parse (list (rune * rune) * list rune) :=
  match inp with
  | [] => PMalformed
  | c :: rest =>
      if is_rc "]" c then
        match acc with [] => PBeyond | _ => POk (rev acc, rest) end
      else if is_rc "\" c || is_rc "[" c || is_rc "^" c then PBeyond
      else
        match rest with
        | d :: hi :: rest' =>
            if is_rc "-" d && negb (is_rc "]" hi) then
              if is_rc "\" hi || is_rc "[" hi then PBeyond
              else if (hi <? c)%N then PMalformed
              else parse_class rest' ((c, hi) :: acc)
            else parse_class rest ((c, c) :: acc)
        | _ => parse_class rest ((c, c) :: acc)
        end
  end.

(** The digits of the count of [x{n}] up to the closing brace. *)
Fixpoint parse_digits (inp : list rune) (acc : option nat) : option (nat * list rune) :=
  match inp with
  | [] => None
  | c :: rest =>
      if is_rc "}" c then option_map (fun n => (n, rest)) acc
      else if is_digit c then
        parse_digits rest
          (Some (10 * default 0%nat acc + N.to_nat (c - rc "0"))%nat)
      else None
  end.

(** The decimal count of [x{n}] after the opening brace.  Go's [parseInt]
    takes no number with a leading zero ([len(s) >= 2 && s[0] == '0' &&
    '0' <= s[1] && s[1] <= '9']); the brace is then no repetition. *)
Definition parse_count (inp : list rune) : option (nat * list rune) :=
  match inp with
  | c :: d :: _ =>
      if is_rc "0" c && is_digit d then None else parse_digits inp None
  | _ => parse_digits inp None
  end.

Definition is_repeat_op (c : rune) : bool :=
  is_rc "*" c || is_rc "+" c || is_rc "?" c.

(** After a repetition operator: a second one is an error, a question mark
    asks for the lazy variant. *)
Definition after_repeat (q : regex) (rest : list rune) : parse (regex * list rune) :=
  match rest with
  | c :: _ =>
      if is_rc "?" c then PBeyond
      else if is_rc "*" c || is_rc "+" c then PMalformed
      else if is_rc "{" c then PBeyond
      else POk (q, rest)
  | [] => POk (q, rest)
  end.

Definition parse_repeat (a : regex) (rest : list rune) : parse (regex * list rune) :=
  match rest with
  | c :: rest' =>
      if is_rc "?" c then after_repeat (Quest a) rest'
      else if is_rc "*" c then
        match a with Item i => after_repeat (Star i) rest' | _ => PBeyond end
      else if is_rc "+" c then
        match a with Item i => after_repeat (Plus i) rest' | _ => PBeyond end
      else if is_rc "{" c then
        match a, parse_count rest' with
        | Item i, Some (n, rest'') =>
            if (1000 <? n)%nat then PMalformed
            else after_repeat (Repeat n i) rest''
        | _, _ => PBeyond
        end
      else POk (a, rest)
  | [] => POk (a, rest)
  end.

Definition parse_escape (rest : list rune) : parse (regex * list rune) :=
  match rest with
  | [] => PMalformed
  | e :: rest' =>
      if is_rc "d" e then POk (Item perl_d, rest')
      else if is_rc "s" e then POk (Item perl_s, rest')
      else if is_punct e then POk (Item (Lit e), rest')
      else PBeyond
  end.

(** A concatenation up to the end of the pattern or to a closing
    parenthesis, which is left in the input; [n] is the number of groups
    opened so far. *)
Fixpoint parse_seq (fuel : nat) (inp : list rune) (n : nat)
    : parse (regex * list rune * nat) :=
  match fuel with
  | O => PBeyond
  | S fuel' =>
      match inp with
      | [] => POk (Empty, [], n)
      | c :: rest =>
          if is_rc ")" c then POk (Empty, inp, n)
          else
            let piece : parse (regex * list rune * nat) :=
              if is_rc "(" c then
                match rest with
                | [] => PMalformed
                | q :: _ =>
                    if is_rc "?" q then PBeyond
                    else
                      match parse_seq fuel' rest (S n) with
                      | POk (r, [], _) => PMalformed
                      | POk (r, _ :: rest', n') => POk (Capture (S n) r, rest', n')
                      | PMalformed => PMalformed
                      | PBeyond => PBeyond
                      end
                end
              else if is_rc "[" c then
                match parse_class rest [] with
                | POk (ranges, rest') => POk (Item (Class ranges), rest', n)
                | PMalformed => PMalformed
                | PBeyond => PBeyond
                end
              else if is_rc "\" c then
                match parse_escape rest with
                | POk (a, rest') => POk (a, rest', n)
                | PMalformed => PMalformed
                | PBeyond => PBeyond
                end
              else if is_repeat_op c then PMalformed
              else if is_rc "." c || is_rc "|" c || is_rc "^" c || is_rc "$" c
                      || is_rc "{" c || is_rc "}" c || is_rc "]" c
              then PBeyond
              else POk (Item (Lit c), rest, n)
            in
            match piece with
            | POk (a, rest1, n1) =>
                match parse_repeat a rest1 with
                | POk (q, rest2) =>
                    match parse_seq fuel' rest2 n1 with
                    | POk (r, rest3, n3) => POk (Cat q r, rest3, n3)
                    | PMalformed => PMalformed
                    | PBeyond => PBeyond
                    end
                | PMalformed => PMalformed
                | PBeyond => PBeyond
                end
            | PMalformed => PMalformed
            | PBeyond => PBeyond
            end
      end
  end.

Definition invalid_utf8 (rw : rune * nat) : bool :=
  (fst rw =? RuneError)%N && (snd rw =? 1)%nat.

Definition longest : nat := 500.

(** [regexp.Compile(pattern)]. *)
Definition Compile (pattern : string) : parse regex :=
  let rs := runes pattern in
  if (longest <? String.length pattern)%nat then PBeyond
  else if existsb invalid_utf8 rs then PMalformed
  else
    match parse_seq (S (List.length rs)) (map fst rs) 0 with
    | POk (r, [], _) => POk r
    | POk (_, _ :: _, _) => PMalformed
    | PMalformed => PMalformed
    | PBeyond => PBeyond
    end.

(** [regexp.MustCompile(pattern)] panics on an error; the patterns of the
    commands are constants that compile. *)
Definition MustCompile (pattern : string) : regex :=
  match Compile pattern with
  | POk r => r
  | _ => Empty
  end.

Definition slice (s : string) (c : option (nat * nat)) : string :=
  match c with
  | Some (a, b) => substring a (b - a) s
  | None => ""
  end.

(** [re.FindStringSubmatch(s)]: [None] for Go's nil slice. *)
Definition FindStringSubmatch (r : regex) (s : string) : option (list string) :=
  option_map (map (slice s)) (search r (runes s) 0).

Definition MatchString (r : regex) (s : string) : bool :=
  match search r (runes s) 0 with Some _ => true | None => false end.

(** *** The strings a pattern matches

    The words in which the properties of the matcher are stated: the runes
    and the encoded strings of an item, strings made of the strings of an
    alphabet, and a chain of literals in front of a pattern. *)
Definition range_runes (lohi : rune * rune) : list rune :=
  map N.of_nat (seq (N.to_nat (fst lohi)) (S (N.to_nat (snd lohi)) - N.to_nat (fst lohi))).

Definition runes_of (a : item) : list rune :=
  match a with
  | Lit r => [r]
  | Class ranges => flat_map range_runes ranges
  end.

Definition strings_of (a : item) : list string := map EncodeRune (runes_of a).

(** Every rune of the item is below [0x800]. *)
Definition small_item (a : item) : bool :=
  forallb (fun r => (r <? 2048)%N) (runes_of a).

(** No rune of [b] is a rune of [a]. *)
Definition apart (a b : item) : bool :=
  forallb (fun r => negb (item_matches a r)) (runes_of b).

(** Zero or more strings of the alphabet, one after the other. *)
Inductive made_of (alphabet : list string) : string -> Prop :=
| made_nil : made_of alphabet ""
| made_cons l s : In l alphabet -> made_of alphabet s -> made_of alphabet (l +:+ s).

(** Exactly [n] strings of the alphabet. *)
Fixpoint repeat_of (n : nat) (alphabet : list string) (s : string) : Prop :=
  match n with
  | O => s = ""
  | S k => exists l s', In l alphabet /\ s = l +:+ s' /\ repeat_of k alphabet s'
  end.

(** The string does not start with a string of the alphabet. *)
Definition not_starting (alphabet : list string) (s : string) : Prop :=
  forall l t, In l alphabet -> s <> l +:+ t.

Definition lit_chain (rs : list rune) (r : regex) : regex :=
  fold_right (fun c acc => Cat (Item (Lit c)) acc) r rs.

Definition encode_all (rs : list rune) : string :=
  fold_right (fun c acc => EncodeRune c +:+ acc) "" rs.

End regexp.

(** ** [cmd/process.go] *)
Module process.

Import regexp.

(** Regex to match tax certificate and extract year *)
Definition taxCertRegex : regex :=
  MustCompile "Ausdruck der elektronischen Lohnsteuerbescheinigung für (\d{4})".

(** Regex to match social insurance certificate *)
Definition socialInsuranceRegex : regex :=
  MustCompile "Meldebescheinigung zur Sozialversicherung".

(** Regex to match payslip *)
Definition payslipRegex : regex :=
  MustCompile "Verdienstabrechnung".

(** Regex to detect Rückrechnung in payslips *)
Definition rueckrechnungRegex : regex :=
  MustCompile "Rückrechnung:?\s*([A-Za-zäöüÄÖÜß]+)\s+(\d{4})".

(** Common regex for extracting month and year from Abrechnungsmonat *)
Definition abrechnungsmonatRegex : regex :=
  MustCompile "Abrechnungsmonat:?\s*([A-Za-zäöüÄÖÜß]+)\s+(\d{4})".

(** *** The patterns in words

    The phrases and alphabets of the five patterns, and the shapes of text
    they match. *)
Definition taxPhrase : string :=
  "Ausdruck der elektronischen Lohnsteuerbescheinigung für ".
Definition socialInsurancePhrase : string :=
  "Meldebescheinigung zur Sozialversicherung".
Definition payslipPhrase : string := "Verdienstabrechnung".
Definition rueckrechnungLabel : string := "Rückrechnung".
Definition abrechnungsmonatLabel : string := "Abrechnungsmonat".

Definition digit_strings : list string :=
  ["0"; "1"; "2"; "3"; "4"; "5"; "6"; "7"; "8"; "9"].

(** Tab, line feed, form feed, carriage return and space. *)
Definition blank_strings : list string :=
  [String "009" ""; String "010" ""; String "012" ""; String "013" ""; " "].

Definition letter_strings : list string :=
  ["A"; "B"; "C"; "D"; "E"; "F"; "G"; "H"; "I"; "J"; "K"; "L"; "M";
   "N"; "O"; "P"; "Q"; "R"; "S"; "T"; "U"; "V"; "W"; "X"; "Y"; "Z";
   "a"; "b"; "c"; "d"; "e"; "f"; "g"; "h"; "i"; "j"; "k"; "l"; "m";
   "n"; "o"; "p"; "q"; "r"; "s"; "t"; "u"; "v"; "w"; "x"; "y"; "z";
   "ä"; "ö"; "ü"; "Ä"; "Ö"; "Ü"; "ß"].

(** Four digits; a word of one or more letters; blanks. *)
Definition year (Y : string) : Prop := repeat_of 4 digit_strings Y.
Definition word (M : string) : Prop := M <> "" /\ made_of letter_strings M.
Definition blanks (ws : string) : Prop := made_of blank_strings ws.

(** The string starts with the phrase. *)
Definition phrase_here (phrase s : string) : Prop :=
  exists rest, s = phrase +:+ rest.

(** The string starts with the tax-certificate phrase and the year [Y]. *)
Definition tax_certificate_here (Y s : string) : Prop :=
  year Y /\ exists rest, s = taxPhrase +:+ Y +:+ rest.

(** The string starts with the label, an optional colon, blanks, the month
    [M], one or more blanks and the year [Y]. *)
Definition month_year_here (label M Y s : string) : Prop :=
  exists colon ws1 ws2 rest,
    s = label +:+ colon +:+ ws1 +:+ M +:+ ws2 +:+ Y +:+ rest
    /\ (colon = "" \/ colon = ":")
    /\ blanks ws1 /\ word M /\ blanks ws2 /\ ws2 <> "" /\ year Y.

(** The text has the shape somewhere; nowhere; and [here] at the first
    place where it has the shape [anywhere]. *)
Definition somewhere (here : string -> Prop) (text : string) : Prop :=
  exists pre s, text = pre +:+ s /\ here s.

Definition nowhere (anywhere : string -> Prop) (text : string) : Prop :=
  forall pre s, text = pre +:+ s -> ~ anywhere s.

Definition first_in (here anywhere : string -> Prop) (text : string) : Prop :=
  exists pre s,
    text = pre +:+ s /\ here s
    /\ forall pre' s', text = pre' +:+ s' -> anywhere s' ->
         String.length pre <= String.length pre'.

Definition any_tax_certificate (s : string) : Prop :=
  exists Y, tax_certificate_here Y s.

Definition any_month_year (label s : string) : Prop :=
  exists M Y, month_year_here label M Y s.

(** The patterns as the parser reads them: the runes of the phrase in
    front of what follows it. *)
Definition letters : item :=
  Class [(65, 90); (97, 122); (228, 228); (246, 246); (252, 252);
         (196, 196); (214, 214); (220, 220); (223, 223)]%N.

Definition colon : item := Lit 58%N.

Definition year_group (i : nat) : regex :=
  Cat (Capture i (Cat (Repeat 4 perl_d) Empty)) Empty.

Definition tax_tail : regex := year_group 1.

Definition after_month : regex := Cat (Plus perl_s) (year_group 2).

Definition from_month : regex :=
  Cat (Capture 1 (Cat (Plus letters) Empty)) after_month.

Definition from_blanks : regex := Cat (Star perl_s) from_month.

Definition month_year_tail : regex := Cat (Quest (Item colon)) from_blanks.

Definition phrase_runes (phrase : string) : list utf8.rune :=
  map fst (utf8.runes phrase).

(** A phrase whose runes are below [0x800] and encode to it again. *)
Definition plain (phrase : string) : bool :=
  forallb (fun c => (c <? 2048)%N) (phrase_runes phrase)
  && String.eqb (encode_all (phrase_runes phrase)) phrase.

(** No match of the pattern starts at an offset of the text below [n]. *)
Definition no_match_before (r : regex) (text : string) (n : nat) : bool :=
  forallb (fun i => match match_at r (utf8.runes (string_drop i text)) i with
                    | None => true
                    | Some _ => false
                    end) (seq 0 n).

(** What the if/else-if chain of [processPDFs] decides from the extracted
    text, before any file is looked at: the branch taken and, where the
    branch renames, the values it logs and the file name it formats. *)
Inductive decision :=
| TaxCertificate (year newFilename : string)
| SocialInsuranceCertificate (month year newFilename : string)
| SocialInsuranceNoMonthYear
| Payslip (month year newFilename : string)
| PayslipNoMonthYear
| NotRecognized.

Definition classify (text : string) : decision :=
  match FindStringSubmatch taxCertRegex text with
  | Some (_ :: year :: _) =>
      TaxCertificate year ("Lohnsteuerbescheinigung - " +:+ year +:+ ".pdf")
  | _ =>
      if MatchString socialInsuranceRegex text then
        match FindStringSubmatch abrechnungsmonatRegex text with
        | Some (_ :: month :: year :: _) =>
            SocialInsuranceCertificate month year
              ("Meldebescheinigung zur Sozialversicherung - "
                 +:+ month +:+ " " +:+ year +:+ ".pdf")
        | _ => SocialInsuranceNoMonthYear
        end
      else if MatchString payslipRegex text then
        match FindStringSubmatch abrechnungsmonatRegex text with
        | Some (_ :: month :: year :: _) =>
            let newFilename :=
              match FindStringSubmatch rueckrechnungRegex text with
              | Some (_ :: rueckMonth :: rueckYear :: _) =>
                  "Verdienstabrechnung - " +:+ rueckMonth +:+ " " +:+ rueckYear
                    +:+ " - Rückrechnung.pdf"
              | _ => "Verdienstabrechnung - " +:+ month +:+ " " +:+ year +:+ ".pdf"
              end in
            Payslip month year newFilename
        | _ => PayslipNoMonthYear
        end
      else NotRecognized
  end.

(** The category and the proposed name of a decision. *)
Inductive category := CatTaxCertificate | CatSocialInsurance | CatPayslip | CatUnrecognized.

Definition category_of (d : decision) : category :=
  match d with
  | TaxCertificate _ _ => CatTaxCertificate
  | SocialInsuranceCertificate _ _ _ | SocialInsuranceNoMonthYear => CatSocialInsurance
  | Payslip _ _ _ | PayslipNoMonthYear => CatPayslip
  | NotRecognized => CatUnrecognized
  end.

Definition proposedName (d : decision) : option string :=
  match d with
  | TaxCertificate _ n | SocialInsuranceCertificate _ _ n | Payslip _ _ n => Some n
  | _ => None
  end.

(** *** The directory

    A file is what the text extraction makes of it: the plain text of a
    PDF, or a failure.  The file system maps paths to files. *)
Inductive file :=
| PDF (text : string)
| Unreadable.

Abbreviation filesystem := (gmap string file).

(** [extractTextFromPDF(path)], [None] for an error. *)
Definition extractTextFromPDF (fs : filesystem) (path : string) : option string :=
  match fs !! path with
  | Some (PDF text) => Some text
  | _ => None
  end.

(** [_, err := os.Stat(path); os.IsNotExist(err)] *)
Definition notExist (fs : filesystem) (path : string) : bool :=
  match fs !! path with
  | None => true
  | Some _ => false
  end.

(** [os.Rename(oldpath, newpath)]: fails when the source is missing,
    replaces the destination when it exists. *)
Definition Rename (fs : filesystem) (oldpath newpath : string) : option filesystem :=
  match fs !! oldpath with
  | None => None
  | Some f => Some (<[newpath := f]> (delete oldpath fs))
  end.

(** [ensureUniqueFilename] *)
Definition ensureUniqueFilename (fs : filesystem) (path : string) : string :=
  if notExist fs path then path
  else
    let ext := filepath.Ext path in
    let basePath := substring 0 (String.length path - String.length ext) path in
    basePath +:+ "_2" +:+ ext.

(** The lines the pass logs. *)
Inductive event :=
| FoundPDFFiles (count : nat)
| ProcessingPDF (number total : nat) (filename : string)
| ExtractFailed (filename : string)
| FoundTaxCertificate (filename year new_filename : string)
| FoundSocialInsurance (filename month year new_filename : string)
| FoundPayslip (filename month year new_filename : string)
| WouldRename (filename new_filename : string)
| RenameFailed (filename : string)
| Renamed (old new : string)
| WarnSocialInsurance (filename : string)
| WarnPayslip (filename : string)
| NotRecognizedType (filename : string).

(** The rename a line announces: the old and the new file name. *)
Definition decision_of (e : event) : option (string * string) :=
  match e with
  | FoundTaxCertificate filename _ new_filename
  | FoundSocialInsurance filename _ _ new_filename
  | FoundPayslip filename _ _ new_filename => Some (filename, new_filename)
  | _ => None
  end.

Definition decisions (lines : list event) : list (string * string) :=
  omap decision_of lines.

Record state := mkState { files : filesystem; logged : list event }.

Definition log (e : event) (st : state) : state :=
  mkState (files st) (logged st ++ [e]).

(** The tail the three renaming branches share: allocate the name, log the
    finding, then rename or, in a dry run, only say so. *)
Definition rename_branch (pdfPath : string) (dryRun : bool) (pdfFile filename : string)
    (newFilename : string) (found : string -> event) (st : state) : state :=
  let newPath := filepath.Join pdfPath newFilename in
  let newPath := ensureUniqueFilename (files st) newPath in
  let newFilename := filepath.Base newPath in
  let st := log (found newFilename) st in
  if dryRun then log (WouldRename filename newFilename) st
  else
    match Rename (files st) pdfFile newPath with
    | None => log (RenameFailed filename) st
    | Some fs' => log (Renamed filename newFilename) (mkState fs' (logged st))
    end.

(** One turn of the loop over [pdfFiles]. *)
Definition process_file (pdfPath : string) (dryRun : bool) (total : nat)
    (i : nat) (pdfFile : string) (st : state) : state :=
  let filename := filepath.Base pdfFile in
  let st := log (ProcessingPDF (i + 1) total filename) st in
  match extractTextFromPDF (files st) pdfFile with
  | None => log (ExtractFailed filename) st
  | Some text =>
      match classify text with
      | TaxCertificate year newFilename =>
          rename_branch pdfPath dryRun pdfFile filename newFilename
            (FoundTaxCertificate filename year) st
      | SocialInsuranceCertificate month year newFilename =>
          rename_branch pdfPath dryRun pdfFile filename newFilename
            (FoundSocialInsurance filename month year) st
      | SocialInsuranceNoMonthYear => log (WarnSocialInsurance filename) st
      | Payslip month year newFilename =>
          rename_branch pdfPath dryRun pdfFile filename newFilename
            (FoundPayslip filename month year) st
      | PayslipNoMonthYear => log (WarnPayslip filename) st
      | NotRecognized => log (NotRecognizedType filename) st
      end
  end.

Fixpoint process_loop (pdfPath : string) (dryRun : bool) (total : nat)
    (i : nat) (pdfFiles : list string) (st : state) : state :=
  match pdfFiles with
  | [] => st
  | pdfFile :: rest =>
      process_loop pdfPath dryRun total (S i) rest
        (process_file pdfPath dryRun total i pdfFile st)
  end.

(** [filepath.Glob(filepath.Join(pdfPath, "*.pdf"))]: the paths of the
    directory whose last element ends in [.pdf], in lexical order. *)
Definition in_dir (pdfPath path : string) : bool :=
  String.eqb path (filepath.Join pdfPath (filepath.Base path)).

Definition Glob (fs : filesystem) (pdfPath : string) : list string :=
  merge_sort (fun a b => Is_true (String.leb a b))
    (filter (fun path => Is_true (in_dir pdfPath path
                                  && GoStrings.HasSuffix path ".pdf"))
       (map fst (map_to_list fs))).

(** [processPDFs(pdfPath, dryRun)]: the directory it leaves and the lines
    it logs. *)
Definition processPDFs (pdfPath : string) (dryRun : bool) (fs : filesystem) : state :=
  let pdfFiles := Glob fs pdfPath in
  process_loop pdfPath dryRun (List.length pdfFiles) 0 pdfFiles
    (mkState fs [FoundPDFFiles (List.length pdfFiles)]).

(** The decision for one file when the pass meets it in the directory
    [fs]: what a live run over that file alone logs. *)
Definition decision_alone (pdfPath : string) (fs : filesystem) (pdfFile : string)
    : list (string * string) :=
  decisions (logged (process_file pdfPath false 1 0 pdfFile (mkState fs []))).

(** The path the pass proposes for a file it meets in the directory [fs],
    before the allocation. *)
Definition proposedPath (pdfPath : string) (fs : filesystem) (pdfFile : string)
    : option string :=
  match extractTextFromPDF fs pdfFile with
  | Some text => option_map (filepath.Join pdfPath) (proposedName (classify text))
  | None => None
  end.

(** The renames of a live run over the files, as planned in the directory
    [fs], do not touch what a later file's decision reads: each file and
    its proposed path are none of the paths renamed or allocated before. *)
Fixpoint independent (pdfPath : string) (fs : filesystem) (touched : list string)
    (pdfFiles : list string) : Prop :=
  match pdfFiles with
  | [] => True
  | pdfFile :: rest =>
      ~ In pdfFile touched
      /\ match proposedPath pdfPath fs pdfFile with
         | Some p =>
             ~ In p touched
             /\ independent pdfPath fs
                  (pdfFile :: ensureUniqueFilename fs p :: touched) rest
         | None => independent pdfPath fs touched rest
         end
  end.

(** Two directories hold the same at every path outside [touched]. *)
Definition agree (touched : list string) (fs fs0 : filesystem) : Prop :=
  forall p, ~ In p touched -> fs !! p = fs0 !! p.

(** Three downloads of the tax certificate of one year, and two of them. *)
Definition certificate (note : string) : file :=
  PDF ("Ausdruck der elektronischen Lohnsteuerbescheinigung für 2022" +:+ note).

Definition three_certificates : filesystem :=
  {[ "adp/adp_1.pdf" := certificate " (1)";
     "adp/adp_2.pdf" := certificate " (2)";
     "adp/adp_3.pdf" := certificate " (3)" ]}.

Definition two_certificates : filesystem :=
  {[ "adp/adp_1.pdf" := certificate " (1)";
     "adp/adp_2.pdf" := certificate " (2)" ]}.

(** A tax certificate and a payslip. *)
Definition certificate_and_payslip : filesystem :=
  {[ "adp/adp_1.pdf" := certificate "";
     "adp/adp_2.pdf" := PDF "Verdienstabrechnung Abrechnungsmonat: Januar 2024" ]}.

(** Texts for the examples: the first three end-to-end scenarios, and
    certificates that name the payslip they belong to. *)
Definition scenario_1 : string :=
  "Ausdruck der elektronischen Lohnsteuerbescheinigung für 2022".

Definition scenario_2 : string :=
  "Meldebescheinigung zur Sozialversicherung Abrechnungsmonat: März 2023".

Definition scenario_3 : string :=
  "Verdienstabrechnung Abrechnungsmonat: Januar 2024 Rückrechnung: Dezember 2023".

Definition certificate_with_payslip : string :=
  "Ausdruck der elektronischen Lohnsteuerbescheinigung für 2022 zur Verdienstabrechnung Abrechnungsmonat: Januar 2024 Rückrechnung: Dezember 2023".

Definition social_with_payslip : string :=
  "Meldebescheinigung zur Sozialversicherung zur Verdienstabrechnung Abrechnungsmonat: Januar 2024 Rückrechnung: Dezember 2023".

Definition certificate_with_correction : string :=
  "Ausdruck der elektronischen Lohnsteuerbescheinigung für 2022 zur Verdienstabrechnung Rückrechnung: Dezember 2023".

Definition correction_without_month : string :=
  "Verdienstabrechnung Rückrechnung: Dezember 2023".

(** A directory with a tax certificate, a file that is no PDF and a PDF
    in a directory below it. *)
Definition mixed_directory : filesystem :=
  {[ "adp/adp_1.pdf" := certificate "";
     "adp/notes.txt" := Unreadable;
     "adp/2022/adp_1.pdf" := certificate " (copy)" ]}.

(** The name holds no path separator. *)
Definition no_separator (name : string) : bool :=
  forallb (fun c => negb (filepath.IsPathSeparator c)) (list_ascii_of_string name).

(** The path is a PDF of the directory: what [Glob] lists of it. *)
Definition pdf_of (pdfPath path : string) : bool :=
  in_dir pdfPath path && GoStrings.HasSuffix path ".pdf".

(** The elements of a path, between its separators; [element] is the part
    read of the current one. *)
Fixpoint elements (path element : string) : list string :=
  match path with
  | EmptyString => [element]
  | String c rest =>
      if filepath.IsPathSeparator c then element :: elements rest ""
      else elements rest (element +:+ String c "")
  end.

(** A name of a file or directory: not empty, not [.] and not [..]. *)
Definition real_element (element : string) : bool :=
  negb (String.eqb element "") && negb (String.eqb element ".")
  && negb (String.eqb element "..").

(** The directory is written as [filepath.Clean] returns it and goes
    through real names only: it is the root, or names with one separator
    between them and at most one in front.  ([adp] and [/home/me/adp] are,
    [adp/], [./adp], [.], [a//b], [../adp] and the empty path are not.)
    [Clean] has nothing to shorten in such a directory followed by a
    separator and a plain file name, so that [filepath.Join] above gives
    what Go's gives ([Join_Clean]). *)
Definition cleaned (dir : string) : bool :=
  match dir with
  | EmptyString => false
  | String c rest =>
      if filepath.IsPathSeparator c
      then String.eqb rest "" || forallb real_element (elements rest "")
      else forallb real_element (elements dir "")
  end.

(** A directory for which [Join], [in_dir] and [Glob] above are exact: it
    is written as [Clean] returns it, and it holds none of the characters
    that make [filepath.Glob] read the directory as a pattern, so that the
    pattern [*.pdf] is matched against the names of that one directory and
    [filepath.Glob] returns no [ErrBadPattern]. *)
Definition plain_directory (dir : string) : bool :=
  cleaned dir && negb (filepath.hasMeta dir).

End process.

(** Package [net/url].  A URL is absolute when it has a scheme, a letter
    followed by letters, digits, [+], [-] or [.] up to a colon. *)
Module url.

Definition is_alpha (c : ascii) : bool :=
  let n := N_of_ascii c in
  (utf8.in_range 65 90 n || utf8.in_range 97 122 n)%N.

Definition is_scheme_char (c : ascii) : bool :=
  let n := N_of_ascii c in
  is_alpha c || utf8.in_range 48 57 n
  || Ascii.eqb c "+" || Ascii.eqb c "-" || Ascii.eqb c ".".

Fixpoint scheme_rest (s : string) : bool :=
  match s with
  | EmptyString => false
  | String c s' =>
      if Ascii.eqb c ":" then true
      else if is_scheme_char c then scheme_rest s'
      else false
  end.

Definition IsAbs (rawURL : string) : bool :=
  match rawURL with
  | EmptyString => false
  | String c s' => is_alpha c && scheme_rest s'
  end.

(** [*url.URL], what [url.Parse] returns without an error: the fields that
    the cookie jar reads. *)
Record URL := mkURL { Scheme : string; Host : string; Path : string }.

End url.

(** ** [cmd/download.go] *)
Module download.

(** *** Readiness waits

    Time is counted in nanoseconds, as [time.Duration] does. *)
Definition Millisecond : Z := 1000000.
Definition Second : Z := 1000 * Millisecond.

(** What [chromedp.Run(timeoutCtx, chromedp.Evaluate(script, &v))] gives:
    the value, or an error with its message. *)
Inductive evaluation (A : Type) :=
| Evaluated (v : A)
| EvalError (msg : string).
Arguments Evaluated {A} v.
Arguments EvalError {A} msg.

(** The live page: the result of an evaluation started at a given time and
    the time it takes. *)
Definition browser (A : Type) := Z -> evaluation A * N.

(** The errors the waits return. *)
Inductive wait_error :=
| TimedOutAfter (timeout : Z) (target : string)
| TimedOutWaiting (target : string)
| InvalidRegexPattern.

Definition is_timeout (e : wait_error) : bool :=
  match e with
  | TimedOutAfter _ _ | TimedOutWaiting _ => true
  | InvalidRegexPattern => false
  end.

(** The result of a wait: [None] for a nil error, the time at the return
    and the times at which the evaluations were started. *)
Record waited := mkWaited {
  err : option wait_error;
  returned : Z;
  evaluations : list Z
}.

(** [context.WithTimeout(ctx, timeout)]: the deadline of the derived
    context, the parent's when that is earlier. *)
Definition WithTimeout (ctx : option Z) (now timeout : Z) : Z :=
  match ctx with
  | Some parent => Z.min parent (now + timeout)
  | None => now + timeout
  end.

(** The polling loop of [waitForElement] and [waitForText], which differ in
    the value evaluated and the test on it ([holds]).  One unit of [fuel]
    is one turn of the [for] loop. *)
Fixpoint poll {A : Type} (page : browser A) (holds : A -> bool)
    (timeout : Z) (target : string) (deadline : Z)
    (fuel : nat) (now : Z) (started : list Z) : option waited :=
  match fuel with
  | O => None
  | S fuel' =>
      (* case <-timeoutCtx.Done() *)
      if (deadline <=? now)%Z
      then Some (mkWaited (Some (TimedOutAfter timeout target)) now started)
      else
        let '(result, took) := page now in
        let now' := (now + Z.of_N took)%Z in
        let started := (started ++ [now])%list in
        match result with
        | EvalError msg =>
            if GoStrings.Contains msg "context deadline exceeded"
            then Some (mkWaited (Some (TimedOutWaiting target)) now' started)
            else poll page holds timeout target deadline fuel'
                   (now' + 500 * Millisecond)%Z started
        | Evaluated v =>
            if holds v then Some (mkWaited None now' started)
            else poll page holds timeout target deadline fuel'
                   (now' + 500 * Millisecond)%Z started
        end
  end.

(** [waitForElement(ctx, selector, timeout)], entered at time [start]; the
    page answers whether the selected element is visible. *)
Definition waitForElement (page : browser bool) (ctx : option Z)
    (selector : string) (timeout : Z) (fuel : nat) (start : Z) : option waited :=
  poll page (fun visible => visible) timeout selector
    (WithTimeout ctx start timeout) fuel start [].

(** The package [regexp] as [waitForText] uses it: [regexp.Compile(pattern)]
    returns an error ([None]) or a regex, of which the loop asks
    [regex.MatchString(pageText)] and nothing else.  The wait is defined
    for every such package, so for every pattern of Go's syntax and not
    only for those that [regexp.Compile] above reads. *)
Definition compiler := string -> option (string -> bool).

(** [waitForText(ctx, pattern, timeout)]; the page answers its inner
    text. *)
Definition waitForText (Compile : compiler) (page : browser string) (ctx : option Z)
    (pattern : string) (timeout : Z) (fuel : nat) (start : Z) : option waited :=
  match Compile pattern with
  | None => Some (mkWaited (Some InvalidRegexPattern) start [])
  | Some MatchString =>
      poll page (fun pageText => MatchString pageText) timeout pattern
        (WithTimeout ctx start timeout) fuel start []
  end.

(** Turns of the loop that are enough for a wait of [timeout]. *)
Definition enough (timeout : Z) : nat :=
  Z.to_nat (timeout / (500 * Millisecond)) + 2.

(** The words of the properties of a wait.  A turn is retried when its
    evaluation failed for another reason than the deadline or gave a value
    that does not pass the test; [after] is the time at which the
    evaluation started at [t] is over. *)
Definition retried {A : Type} (page : browser A) (holds : A -> bool) (t : Z) : bool :=
  match fst (page t) with
  | EvalError msg => negb (GoStrings.Contains msg "context deadline exceeded")
  | Evaluated v => negb (holds v)
  end.

Definition after {A : Type} (page : browser A) (t : Z) : Z :=
  (t + Z.of_N (snd (page t)))%Z.

(** The evaluations start at [now] and then 500ms after the end of the
    one before, which was retried. *)
Fixpoint spaced {A : Type} (page : browser A) (holds : A -> bool)
    (now : Z) (ts : list Z) : Prop :=
  match ts with
  | [] => True
  | t :: ts' =>
      t = now
      /\ match ts' with
         | [] => True
         | _ :: _ =>
             retried page holds t = true
             /\ spaced page holds (after page t + 500 * Millisecond)%Z ts'
         end
  end.

(** What the end of a wait says about its evaluations [ts]: success after
    an evaluation that passed the test; the deadline reached with every
    evaluation retried; or a last evaluation that failed with the
    deadline's message. *)
Definition ended {A : Type} (page : browser A) (holds : A -> bool)
    (timeout : Z) (target : string) (deadline : Z) (ts : list Z) (r : waited) : Prop :=
  match err r with
  | None =>
      exists t v, last ts = Some t /\ fst (page t) = Evaluated v
                  /\ holds v = true /\ returned r = after page t
  | Some (TimedOutAfter timeout' target') =>
      timeout' = timeout /\ target' = target
      /\ (deadline <= returned r)%Z
      /\ Forall (fun t => retried page holds t = true) ts
  | Some (TimedOutWaiting target') =>
      target' = target
      /\ exists t msg, last ts = Some t /\ fst (page t) = EvalError msg
           /\ GoStrings.Contains msg "context deadline exceeded" = true
           /\ returned r = after page t
  | Some InvalidRegexPattern => False
  end.

(** A wait that returned as the contract [success | TimedOut] has it. *)
Definition waited_as_specified {A : Type} (page : browser A) (holds : A -> bool)
    (ctx : option Z) (target : string) (timeout start : Z) (r : waited) : Prop :=
  match err r with None => True | Some e => is_timeout e = true end
  /\ spaced page holds start (evaluations r)
  /\ ended page holds timeout target (WithTimeout ctx start timeout) (evaluations r) r.

(** *** Session bridging *)
Module network.
Record Cookie := mkCookie {
  Name : string;
  Value : string;
  Domain : string;
  Path : string;
  HTTPOnly : bool;
  Secure : bool;
  Session : bool
}.
End network.

Module http.
Record Cookie := mkCookie {
  Name : string;
  Value : string;
  Domain : string
}.
End http.

Definition essentialCookieNames : list string :=
  [ "BIGipServer_DE1_world-v2";
    "SERVERSESSIONID";
    "JSESSIONIDSSO";
    "EMEASMSESSION" ].

(** [&http.Cookie{Name: c.Name, Value: c.Value, Domain: c.Domain}] *)
Definition http_cookie (c : network.Cookie) : http.Cookie :=
  http.mkCookie (network.Name c) (network.Value c) (network.Domain c).

(** The inner loop over the names, left at the first equal name. *)
Fixpoint append_if_essential (c : network.Cookie) (names : list string)
    (cookies : list http.Cookie) : list http.Cookie :=
  match names with
  | [] => cookies
  | name :: names' =>
      if String.eqb (network.Name c) name
      then cookies ++ [http_cookie c]
      else append_if_essential c names' cookies
  end.

(** The outer loop over the cookies of the browser. *)
Definition essentialCookies (allCookies : list network.Cookie) : list http.Cookie :=
  fold_left (fun cookies c => append_if_essential c essentialCookieNames cookies)
    allCookies [].

(** The name of the cookie is one of the essential names. *)
Definition essential (c : network.Cookie) : bool :=
  existsb (String.eqb (network.Name c)) essentialCookieNames.

(** The cookies of a browser session: two of the session, one of a
    tracker with another name. *)
Definition session_cookies : list network.Cookie :=
  [ network.mkCookie "SERVERSESSIONID" "s-1" "adpworld.adp.com" "/" true true true;
    network.mkCookie "_ga" "GA1.2" ".adp.com" "/" false false false;
    network.mkCookie "EMEASMSESSION" "e-7" ".adp.com" "/" true true true ].

(** Package [net/http/cookiejar]: the jar of the client, made by
    [cookiejar.New(nil)], which returns no error and a jar without
    entries and without a list of public suffixes. *)
Module cookiejar.

(** An entry of the jar with the fields that differ between the cookies
    of the bridge.  Those have a name, a value and a domain and nothing
    else: no path, so that the entry gets the default path of the URL, and
    neither [MaxAge] nor [Expires], so that the entry is not removed and
    does not expire. *)
Record entry := mkEntry {
  Name : string;
  Value : string;
  Domain : string;
  Path : string;
  HostOnly : bool
}.

(** [e.id()]: [fmt.Sprintf("%s;%s;%s", e.Domain, e.Path, e.Name)], the key
    of the entry. *)
Definition id (e : entry) : string :=
  Domain e +:+ ";" +:+ Path e +:+ ";" +:+ Name e.

(** [strings.LastIndex(s, "/")] below the index [n]. *)
Fixpoint LastIndex (s : string) (n : nat) : option nat :=
  match n with
  | O => None
  | S i =>
      match get i s with
      | Some c => if Ascii.eqb c "/" then Some i else LastIndex s i
      | None => LastIndex s i
      end
  end.

(** [defaultPath(path)]: [/] for an empty path, one that does not begin
    with a slash, or one with no other slash; the path up to its last
    slash otherwise. *)
Definition defaultPath (path : string) : string :=
  match path with
  | EmptyString => "/"
  | String c _ =>
      if negb (Ascii.eqb c "/") then "/"
      else
        match LastIndex path (String.length path) with
        | Some (S i) => substring 0 (S i) path
        | _ => "/"
        end
  end.

(** What the jar decides about hosts and domains, in code that is no part
    of the repository and is not modelled: [canonicalHost(u.Host)], the
    host without port and in lower case, and [j.domainAndType(host,
    c.Domain)], the domain under which a cookie with the domain attribute
    [c.Domain] is kept for that host and whether it is for that host
    only.  [None] is their error: the domain does not match the host, or
    one of them is malformed. *)
Record rules := mkRules {
  canonicalHost : string -> option string;
  domainAndType : string -> string -> option (string * bool)
}.

(** [j.newEntry(c, now, defPath, host)] for a cookie of the bridge; [None]
    when [domainAndType] returns an error. *)
Definition newEntry (rl : rules) (c : http.Cookie) (defPath host : string)
    : option entry :=
  match domainAndType rl host (http.Domain c) with
  | Some (domain, hostOnly) =>
      Some (mkEntry (http.Name c) (http.Value c) domain defPath hostOnly)
  | None => None
  end.

(** The entries of the jar under the key of one host, each under its id. *)
Abbreviation Jar := (gmap string entry).

(** The loop of [setCookies]: a cookie whose entry cannot be made is
    skipped ([continue]), the entry of another is stored under its id
    ([submap[id] = e]), in place of the entry that was there. *)
Definition store (rl : rules) (defPath host : string) (submap : Jar) (c : http.Cookie)
    : Jar :=
  match newEntry rl c defPath host with
  | Some e => <[id e := e]> submap
  | None => submap
  end.

(** [j.SetCookies(u, cookies)]: nothing for no cookies, for a URL whose
    scheme is neither [http] nor [https] and for a host that is not
    canonical. *)
Definition SetCookies (rl : rules) (u : url.URL) (cookies : list http.Cookie) (jar : Jar)
    : Jar :=
  match cookies with
  | [] => jar
  | _ :: _ =>
      if negb (String.eqb (url.Scheme u) "http")
         && negb (String.eqb (url.Scheme u) "https")
      then jar
      else
        match canonicalHost rl (url.Host u) with
        | None => jar
        | Some host => fold_left (store rl (defaultPath (url.Path u)) host) cookies jar
        end
  end.

End cookiejar.

(** The HTTP client with its jar. *)
Record Client := mkClient { Jar : cookiejar.Jar }.

(** The bridge of [downloadPDFs]: the jar and the client are made, the site
    URL is parsed, the essential cookies are collected and given to the
    jar for that URL.  [None] is the return with [failed to parse URL];
    [Parse] is [url.Parse], which is not modelled. *)
Definition bridge (Parse : string -> option url.URL) (rl : cookiejar.rules)
    (siteURL : string) (allCookies : list network.Cookie) : option Client :=
  match Parse siteURL with
  | None => None
  | Some u =>
      Some (mkClient (cookiejar.SetCookies rl u (essentialCookies allCookies) ∅))
  end.

(** The cookie of the browser is in the client: an entry of the jar has
    its name and its value. *)
Definition bridged (client : Client) (c : network.Cookie) : Prop :=
  exists k e, Jar client !! k = Some e
              /\ cookiejar.Name e = network.Name c
              /\ cookiejar.Value e = network.Value c.

(** For the examples: [url.Parse] at the default of the flag [--url], and
    the rules of the jar for a host that is a plain name in lower case:
    the host is canonical as it is; a cookie without domain is for the
    host only; the domain of another, without the dot it may begin with,
    has to be the host or what follows a dot in the host. *)
Definition default_site : string -> option url.URL :=
  fun siteURL =>
    if String.eqb siteURL "https://adpworld.adp.com"
    then Some (url.mkURL "https" "adpworld.adp.com" "")
    else None.

Definition plain_hosts : cookiejar.rules :=
  cookiejar.mkRules
    (fun host => Some host)
    (fun host domain =>
       match domain with
       | EmptyString => Some (host, true)
       | String c rest =>
           let domain := if Ascii.eqb c "." then rest else domain in
           if String.eqb host domain || GoStrings.HasSuffix host ("." +:+ domain)
           then Some (domain, false)
           else None
       end).

(** Two cookies of the session with one name, set for two paths of the
    site. *)
Definition same_name_cookies : list network.Cookie :=
  [ network.mkCookie "SERVERSESSIONID" "s-1" "adpworld.adp.com" "/" true true true;
    network.mkCookie "SERVERSESSIONID" "s-2" "adpworld.adp.com" "/portal" true true true ].

(** *** Bulk download *)

(** The answer to a GET: a transport error, or a status and a body; the
    body is what could be read of it, [complete] when it was read to its
    end. *)
Inductive response :=
| TransportError (msg : string)
| Response (StatusCode : nat) (Body : string) (complete : bool).

(** What lies outside the program: the server, which answers a URL given
    the requests made before, and whether a path can be created. *)
Record environment := mkEnv {
  Get : list string -> string -> response;
  Creatable : string -> bool
}.

(** The disk, each file with its bytes, and the URLs requested so far. *)
Record world := mkWorld {
  disk : gmap string string;
  requests : list string
}.

Inductive download_error :=
| CreateError
| GetError (msg : string)
| BadStatus (StatusCode : nat)
| CopyError.

Definition StatusOK : nat := 200.

(** [downloadFile(client, urlStr, filepath)] *)
Definition downloadFile (env : environment) (w : world) (urlStr path : string)
    : world * option download_error :=
  (* out, err := os.Create(filepath) *)
  if negb (Creatable env path) then (w, Some CreateError)
  else
    let w := mkWorld (<[path := ""]> (disk w)) (requests w) in
    (* resp, err := client.Get(urlStr) *)
    let resp := Get env (requests w) urlStr in
    let w := mkWorld (disk w) (requests w ++ [urlStr]) in
    match resp with
    | TransportError msg => (w, Some (GetError msg))
    | Response code body complete =>
        if negb (code =? StatusOK)%nat then (w, Some (BadStatus code))
        else
          (* _, err = io.Copy(out, resp.Body) *)
          let w := mkWorld (<[path := body]> (disk w)) (requests w) in
          if complete then (w, None) else (w, Some CopyError)
    end.

(** [if !strings.HasPrefix(link, "https") { link = siteURL + link }] *)
Definition absolute (siteURL link : string) : string :=
  if negb (GoStrings.HasPrefix link "https") then siteURL +:+ link else link.

(** [fmt.Sprintf("adp_%d.pdf", i+1)] *)
Definition ordinal_name (i : nat) : string :=
  "adp_" +:+ NilZero.string_of_uint (Nat.to_uint (i + 1)) +:+ ".pdf".

(** The loop of [downloadPDFs] over [pdfLinks]; the error carries the link
    its message names. *)
Fixpoint download_loop (env : environment) (siteURL downloadPath : string)
    (i : nat) (pdfLinks : list string) (w : world)
    : world * option (string * download_error) :=
  match pdfLinks with
  | [] => (w, None)
  | link :: rest =>
      let link := absolute siteURL link in
      let filename := ordinal_name i in
      match downloadFile env w link (filepath.Join downloadPath filename) with
      | (w', Some e) => (w', Some (link, e))
      | (w', None) => download_loop env siteURL downloadPath (S i) rest w'
      end
  end.

(** *** The wait for the dashboard

    [waitForText(ctx, "Alle Dokumente \\(\\d+\\)", 30*time.Second)]: the
    pattern of the call in [downloadPDFs], the phrase it begins with and
    what follows the phrase. *)
Definition dashboardPattern : string := "Alle Dokumente \(\d+\)".

Definition dashboardPhrase : string := "Alle Dokumente (".


Definition dashboard_tail : regexp.regex :=
  regexp.Cat (regexp.Plus regexp.perl_d)
    (regexp.Cat (regexp.Item (regexp.Lit 41%N)) regexp.Empty).

(** The string starts with the phrase, one or more digits and the closing
    parenthesis. *)
Definition document_count_here (s : string) : Prop :=
  exists count rest,
    s = dashboardPhrase +:+ count +:+ ")" +:+ rest
    /\ count <> "" /\ regexp.made_of process.digit_strings count.

(** *** Link discovery

    What [findPDFLinks] asks of the browser, for the page of the document
    list it shows as page [currentPage]: the HTML of the page once its
    table is visible, the [a] elements of the parsed HTML in document
    order, each with its [href] attribute if it has one, the answer of the
    script that tests the button for the next page, and whether the click
    on that button and the wait for the table went through.  [None] and
    [false] stand for the error of the step. *)
Record portal := mkPortal {
  OuterHTML : nat -> option string;
  Anchors : string -> option (list (option string));
  NextPageDisabled : nat -> option bool;
  ClickNextPage : nat -> bool
}.

Inductive find_error :=
| GetContentFailed
| ParseHTMLFailed
| CheckNextPageFailed
| NavigateNextPageFailed.

(** [doc.Find("a").Each(func(i, s) { if href, exists := s.Attr("href");
      exists && strings.Contains(href, "/AdpwAdpaWeb/DocDownload") {
        pageLinks = append(pageLinks, href) } })] *)
Fixpoint each_anchor (anchors : list (option string)) (pageLinks : list string)
    : list string :=
  match anchors with
  | [] => pageLinks
  | s :: rest =>
      each_anchor rest
        match s with
        | Some href =>
            if GoStrings.Contains href "/AdpwAdpaWeb/DocDownload"
            then (pageLinks ++ [href])%list
            else pageLinks
        | None => pageLinks
        end
  end.

(** The loop [for hasMorePages { ... }] of [findPDFLinks]; one unit of
    [fuel] is one turn.  An error returns no links. *)
Fixpoint findPDFLinks_loop (site : portal) (fuel : nat) (currentPage : nat)
    (pdfLinks : list string) : option (list string + find_error) :=
  match fuel with
  | O => None
  | S fuel' =>
      match OuterHTML site currentPage with
      | None => Some (inr GetContentFailed)
      | Some html =>
          match Anchors site html with
          | None => Some (inr ParseHTMLFailed)
          | Some anchors =>
              let pageLinks := each_anchor anchors [] in
              let pdfLinks := (pdfLinks ++ pageLinks)%list in
              match NextPageDisabled site currentPage with
              | None => Some (inr CheckNextPageFailed)
              | Some true => Some (inl pdfLinks)
              | Some false =>
                  if ClickNextPage site currentPage
                  then findPDFLinks_loop site fuel' (S currentPage) pdfLinks
                  else Some (inr NavigateNextPageFailed)
              end
          end
      end
  end.

(** [findPDFLinks(ctx)] *)
Definition findPDFLinks (site : portal) (fuel : nat) : option (list string + find_error) :=
  findPDFLinks_loop site fuel 1 [].

(** The links of a page in words: the [href] attributes that hold the
    download path. *)
Definition download_links (anchors : list (option string)) : list string :=
  List.filter (fun href => GoStrings.Contains href "/AdpwAdpaWeb/DocDownload")
    (omap id anchors).

(** The pages from [currentPage] on have the anchors [pages], one list a
    page; each but the last has a button for the next page that is not
    disabled and works, the last has none or a disabled one. *)
Fixpoint paged (site : portal) (currentPage : nat) (pages : list (list (option string)))
    : Prop :=
  match pages with
  | [] => False
  | anchors :: rest =>
      (exists html, OuterHTML site currentPage = Some html
                    /\ Anchors site html = Some anchors)
      /\ match rest with
         | [] => NextPageDisabled site currentPage = Some true
         | _ :: _ =>
             NextPageDisabled site currentPage = Some false
             /\ ClickNextPage site currentPage = true
             /\ paged site (S currentPage) rest
         end
  end.

(** [downloadPDFs] from "Find all PDF links" on: the links are looked
    for, then downloaded one after the other. *)
Inductive downloadPDFs_error :=
| FindPDFLinksFailed (e : find_error)
| DownloadFailed (link : string) (e : download_error).

Definition downloadPDFs_documents (site : portal) (fuel : nat) (env : environment)
    (siteURL downloadPath : string) (w : world)
    : option (world * option downloadPDFs_error) :=
  match findPDFLinks site fuel with
  | None => None
  | Some (inr e) => Some (w, Some (FindPDFLinksFailed e))
  | Some (inl pdfLinks) =>
      match download_loop env siteURL downloadPath 0 pdfLinks w with
      | (w', Some (link, e)) => Some (w', Some (DownloadFailed link e))
      | (w', None) => Some (w', None)
      end
  end.

(** A document list of two pages; the second has a link of the portal's
    menu and an anchor without [href]. *)
Definition two_pages : portal :=
  mkPortal
    (fun currentPage => Some (if (currentPage =? 1)%nat then "<html>1" else "<html>2"))
    (fun html =>
       Some (if String.eqb html "<html>1"
             then [Some "/AdpwAdpaWeb/DocDownload?id=1";
                   Some "/AdpwAdpaWeb/DocDownload?id=2"]
             else [Some "/AdpwAdpaWeb/DocDownload?id=3"; Some "/logout"; None]))
    (fun currentPage => Some (negb (currentPage =? 1)%nat))
    (fun _ => true).

End download.

(** A server that answers the second request with status 404 and every
    other with a document; every path can be created. *)
Definition second_missing : download.environment :=
  download.mkEnv
    (fun before _ => if (List.length before =? 1)%nat
                     then download.Response 404 "" true
                     else download.Response 200 "%PDF" true)
    (fun _ => true).

(** * Properties *)

(** ** Strings *)
Section StringFacts.

Implicit Types s t u : string.

Lemma append_cons c s t : String c s +:+ t = String c (s +:+ t).
Proof. reflexivity. Qed.

Lemma append_nil_l s : "" +:+ s = s.
Proof. reflexivity. Qed.

Lemma append_nil_r s : s +:+ "" = s.
Proof. induction s as [|c s IH]; [reflexivity|]. now rewrite append_cons, IH. Qed.

Lemma append_assoc s t u : (s +:+ t) +:+ u = s +:+ (t +:+ u).
Proof. induction s as [|c s IH]; [reflexivity|]. now rewrite !append_cons, IH. Qed.

Lemma length_append s t : String.length (s +:+ t) = String.length s + String.length t.
Proof.
  induction s as [|c s IH]; [reflexivity|].
  rewrite append_cons. cbn [String.length]. now rewrite IH.
Qed.

Lemma append_inv_tail s t u : s +:+ u = t +:+ u -> s = t.
Proof.
  revert t. induction s as [|c s IH]; intros [|d t] H.
  - reflexivity.
  - apply (f_equal String.length) in H. rewrite append_nil_l, length_append in H.
    cbn [String.length] in H. lia.
  - apply (f_equal String.length) in H. rewrite append_nil_l, length_append in H.
    cbn [String.length] in H. lia.
  - rewrite !append_cons in H. injection H as -> H. f_equal. now apply IH.
Qed.

Lemma substring_0_length s : substring 0 (String.length s) s = s.
Proof. induction s as [|c s IH]; [reflexivity|]. cbn. now rewrite IH. Qed.

Lemma substring_0_0 s : substring 0 0 s = "".
Proof. now destruct s. Qed.



Lemma get_lt s i c : get i s = Some c -> i < String.length s.
Proof.
  revert i. induction s as [|d s IH]; intros [|i] H; cbn in *; try discriminate; try lia.
  apply IH in H. lia.
Qed.

End StringFacts.

(** ** [filepath.Ext] *)
Section ExtFacts.

(** The loop returns the empty string or the tail of the path from some
    offset below its counter. *)
Lemma Ext_loop_tail path n :
  filepath.Ext_loop path n = ""
  \/ exists i, i < n /\ i < String.length path
       /\ get i path = Some "."%char
       /\ filepath.Ext_loop path n = substring i (String.length path - i) path.
Proof.
  induction n as [|n IH]; [now left|].
  cbn [filepath.Ext_loop].
  destruct (get n path) as [c|] eqn:Hget; [|now left].
  destruct (filepath.IsPathSeparator c); [now left|].
  destruct (Ascii.eqb c ".") eqn:Hdot.
  - right. exists n. apply Ascii.eqb_eq in Hdot. subst c.
    repeat split; [lia|now apply get_lt in Hget|assumption].
  - destruct IH as [IH|(i & Hi & Hlen & Hg & IH)]; [now left|].
    right. exists i. repeat split; [lia|assumption..].
Qed.


(** A non-empty extension starts with a dot. *)
Lemma Ext_dot path :
  filepath.Ext path = "" \/ exists e, filepath.Ext path = String "." e.
Proof.
  unfold filepath.Ext.
  destruct (Ext_loop_tail path (String.length path)) as [->|(i & _ & Hi & Hg & ->)];
    [now left|right].
  clear -Hi Hg. revert i Hi Hg.
  induction path as [|c s IH]; intros [|i] Hi Hg; cbn in Hi, Hg |- *; try lia.
  - injection Hg as ->. eexists. reflexivity.
  - apply IH; [lia|assumption].
Qed.

End ExtFacts.

(** ** UTF-8 decoding *)
Section Utf8Facts.

Import utf8.

Implicit Types (s t : string) (c : ascii).

Lemma drop_0 s : string_drop 0 s = s.
Proof. now destruct s. Qed.

Lemma drop_cons n c s : string_drop (S n) (String c s) = string_drop n s.
Proof. reflexivity. Qed.

Lemma drop_nil n : string_drop n "" = "".
Proof. now destruct n. Qed.

Lemma drop_append_length s t : string_drop (String.length s) (s +:+ t) = t.
Proof. induction s as [|c s IH]; [apply drop_0|]. now rewrite append_cons. Qed.

Lemma drop_append n s t :
  n <= String.length s -> string_drop n (s +:+ t) = string_drop n s +:+ t.
Proof.
  revert n. induction s as [|c s IH]; intros [|n] H; cbn in H; try lia;
    try reflexivity.
  rewrite append_cons, !drop_cons. apply IH. lia.
Qed.

Lemma length_drop n s : String.length (string_drop n s) = String.length s - n.
Proof.
  revert n. induction s as [|c s IH]; intros [|n]; try reflexivity.
  rewrite drop_cons. cbn [String.length]. now rewrite IH.
Qed.

Lemma take_drop n s : string_take n s +:+ string_drop n s = s.
Proof.
  revert n. induction s as [|c s IH]; intros [|n]; try reflexivity.
  cbn [string_take]. rewrite append_cons, drop_cons. now rewrite IH.
Qed.

Lemma length_take n s : n <= String.length s -> String.length (string_take n s) = n.
Proof.
  revert n. induction s as [|c s IH]; intros [|n] H; cbn in H |- *; try lia.
  rewrite IH; lia.
Qed.

(** The runes after a skip are the runes of the rest. *)
Lemma runes_from_drop k s : runes_from k s = runes (string_drop k s).
Proof.
  revert k. induction s as [|c s IH]; intros [|k]; try reflexivity.
  cbn [runes_from]. now rewrite IH, drop_cons.
Qed.

Lemma Decode_width s : s <> "" -> 1 <= snd (DecodeRuneInString s) <= 4.
Proof.
  destruct s as [|c s]; [congruence|intros _].
  unfold DecodeRuneInString, byte_at. cbn [get option_map].
  repeat match goal with
         | |- context [match ?x with _ => _ end] => destruct x
         end; cbn; lia.
Qed.

(** The loop over the runes: decode, then go on behind the rune. *)
Lemma runes_cons s :
  s <> "" ->
  runes s = DecodeRuneInString s
            :: runes (string_drop (snd (DecodeRuneInString s)) s).
Proof.
  intros Hs. pose proof (Decode_width s Hs) as Hw.
  destruct s as [|c s]; [congruence|].
  unfold runes at 1. cbn [runes_from]. rewrite runes_from_drop. f_equal.
  destruct (snd (DecodeRuneInString (String c s))) as [|w]; [lia|].
  rewrite drop_cons. now replace (S w - 1) with w by lia.
Qed.

Lemma runes_nil : runes "" = [].
Proof. reflexivity. Qed.

(** *** Enumeration of bytes and of small runes *)

Lemma all_bytes_complete c : In c all_bytes.
Proof.
  unfold all_bytes. rewrite <- (ascii_nat_embedding c).
  apply in_map, in_seq. pose proof (nat_ascii_bounded c). lia.
Qed.

Lemma forall_bytes (P : ascii -> bool) :
  forallb P all_bytes = true -> forall c, P c = true.
Proof. intros H c. rewrite forallb_forall in H. apply H, all_bytes_complete. Qed.

Lemma forall_bytes2 (P : ascii -> ascii -> bool) :
  forallb (fun a => forallb (P a) all_bytes) all_bytes = true ->
  forall a b, P a b = true.
Proof. intros H a b. apply forall_bytes. now apply (forall_bytes _ H a). Qed.

Lemma forall_below (n : nat) (P : N -> bool) :
  forallb P (map N.of_nat (seq 0 n)) = true ->
  forall r, (r < N.of_nat n)%N -> P r = true.
Proof.
  intros H r Hr. rewrite forallb_forall in H. apply H.
  rewrite <- (N2Nat.id r). apply in_map, in_seq. lia.
Qed.

(** *** Decoding at the head of a string *)

Lemma byte_at_0 c s : byte_at 0 (String c s) = Some (N_of_ascii c).
Proof. reflexivity. Qed.

Lemma byte_at_S i c s : byte_at (S i) (String c s) = byte_at i s.
Proof. reflexivity. Qed.

Lemma Decode_ascii c s :
  (N_of_ascii c < 128)%N -> DecodeRuneInString (String c s) = (N_of_ascii c, 1).
Proof.
  intros H. unfold DecodeRuneInString. rewrite byte_at_0.
  apply N.ltb_lt in H. now rewrite H.
Qed.

(** The accepted second bytes are continuation bytes, and the sequences
    have two to four bytes. *)
Lemma in_range_spec lo hi b : in_range lo hi b = true <-> (lo <= b <= hi)%N.
Proof. unfold in_range. rewrite andb_true_iff, !N.leb_le. tauto. Qed.

Lemma first_Some (b0 : N) sz lo hi :
  first b0 = Some (sz, (lo, hi)) ->
  (128 <= lo)%N /\ (hi <= 191)%N /\ 2 <= sz <= 4 /\ (194 <= b0 <= 244)%N.
Proof.
  unfold first.
  repeat match goal with
         | |- context [if ?b then _ else _] => destruct b eqn:?
         end;
    intros [= <- <- <-];
    repeat match goal with
           | H : in_range _ _ _ = true |- _ => apply in_range_spec in H
           | H : (_ =? _)%N = true |- _ => apply N.eqb_eq in H
           end; lia.
Qed.

(** The bytes of a rune behind its first are continuation bytes. *)
Lemma Decode_continuation s i :
  1 <= i < snd (DecodeRuneInString s) ->
  exists b, byte_at i s = Some b /\ (128 <= b)%N.
Proof.
  unfold DecodeRuneInString.
  destruct (byte_at 0 s) as [b0|]; [|cbn; lia].
  destruct (b0 <? 128)%N; [cbn; lia|].
  destruct (first b0) as [[sz [lo hi]]|] eqn:Hf; [|cbn; lia].
  apply first_Some in Hf as (Hlo & _ & _ & _).
  destruct (String.length s <? sz)%nat; [cbn; lia|].
  destruct (byte_at 1 s) as [b1|] eqn:E1; [|cbn; lia].
  destruct (in_range lo hi b1) eqn:H1; cbn [negb]; [|cbn; lia].
  apply in_range_spec in H1.
  destruct (sz <=? 2)%nat.
  { cbn. intros Hi. assert (i = 1) as -> by lia. exists b1. split; [assumption|lia]. }
  destruct (byte_at 2 s) as [b2|] eqn:E2; [|cbn; lia].
  destruct (in_range locb hicb b2) eqn:H2; cbn [negb]; [|cbn; lia].
  apply in_range_spec in H2. unfold locb in H2.
  destruct (sz <=? 3)%nat.
  { cbn. intros Hi. assert (i = 1 \/ i = 2) as [-> | ->] by lia;
      eexists; (split; [eassumption|lia]). }
  destruct (byte_at 3 s) as [b3|] eqn:E3; [|cbn; lia].
  destruct (in_range locb hicb b3) eqn:H3; cbn [negb]; [|cbn; lia].
  apply in_range_spec in H3. unfold locb in H3.
  cbn. intros Hi. assert (i = 1 \/ i = 2 \/ i = 3) as [-> | [-> | ->]] by lia;
    eexists; (split; [eassumption|lia]).
Qed.

Lemma byte_at_append_length s t :
  byte_at (String.length s) (s +:+ t) = byte_at 0 t.
Proof.
  unfold byte_at. f_equal.
  rewrite (append_correct2 s t 0). reflexivity.
Qed.

Lemma Decode_before_ascii pre s :
  pre <> "" -> ascii_start s ->
  snd (DecodeRuneInString (pre +:+ s)) <= String.length pre.
Proof.
  intros Hpre Hs.
  destruct (le_lt_dec (snd (DecodeRuneInString (pre +:+ s))) (String.length pre))
    as [|Hlt]; [assumption|exfalso].
  assert (Hlen : 1 <= String.length pre) by (destruct pre; [congruence|cbn; lia]).
  destruct (Decode_continuation (pre +:+ s) (String.length pre) ltac:(lia))
    as (b & Hb & Hge).
  rewrite byte_at_append_length in Hb.
  destruct s as [|c s]; [discriminate|].
  rewrite byte_at_0 in Hb. injection Hb as <-. cbn in Hs. lia.
Qed.

(** The runes of a string up to a part that starts with an ASCII byte. *)
Lemma runes_before_ascii pre s :
  pre <> "" -> ascii_start s ->
  exists w, 1 <= w <= String.length pre
    /\ runes (pre +:+ s)
       = DecodeRuneInString (pre +:+ s) :: runes (string_drop w pre +:+ s)
    /\ w = snd (DecodeRuneInString (pre +:+ s)).
Proof.
  intros Hpre Hs.
  assert (Hne : pre +:+ s <> "") by (destruct pre; [congruence|discriminate]).
  exists (snd (DecodeRuneInString (pre +:+ s))).
  pose proof (Decode_width _ Hne). pose proof (Decode_before_ascii pre s Hpre Hs).
  split; [lia|]. split; [|reflexivity].
  rewrite (runes_cons _ Hne) at 1. now rewrite drop_append.
Qed.

(** *** Runes below [0x800] *)

Lemma encodes_small_all r : (r < 2048)%N -> encodes_small r = true.
Proof. apply (forall_below 2048). vm_compute. reflexivity. Qed.

Lemma decodes_two_all b0 b1 : decodes_two b0 b1 = true.
Proof. apply forall_bytes2. vm_compute. reflexivity. Qed.

Lemma decodes_long_all b0 b1 : decodes_long b0 b1 = true.
Proof. apply forall_bytes2. vm_compute. reflexivity. Qed.

Lemma lor_ge_pow2 k x y : (2 ^ k <= x -> 2 ^ k <= N.lor x y)%N.
Proof.
  intros H.
  assert (0 < 2 ^ k)%N by (apply N.neq_0_lt_0, N.pow_nonzero; lia).
  assert (Hx : (0 < x)%N) by lia.
  assert (Hxy : (0 < N.lor x y)%N).
  { apply N.neq_0_lt_0. intros E. apply N.lor_eq_0_iff in E. lia. }
  apply N.log2_le_pow2; [assumption|].
  apply N.log2_le_pow2 in H; [|assumption].
  rewrite N.log2_lor. lia.
Qed.

Lemma Decode_two b0 b1 t lo hi :
  first (N_of_ascii b0) = Some (2, (lo, hi)) ->
  DecodeRuneInString (String b0 (String b1 t))
  = if in_range lo hi (N_of_ascii b1)
    then (rune2 (N_of_ascii b0) (N_of_ascii b1), 2)
    else (RuneError, 1).
Proof.
  intros Hf. unfold DecodeRuneInString. rewrite byte_at_0.
  pose proof (first_Some _ _ _ _ Hf) as (_ & _ & _ & Hb).
  destruct (N.ltb_spec (N_of_ascii b0) 128); [lia|].
  rewrite Hf, byte_at_S, byte_at_0. cbn [String.length Nat.ltb Nat.leb].
  now destruct (in_range lo hi (N_of_ascii b1)).
Qed.

(** Decoding the encoding of a small rune gives the rune back, whatever
    follows. *)
Lemma Decode_Encode r t :
  (r < 2048)%N ->
  DecodeRuneInString (EncodeRune r +:+ t) = (r, String.length (EncodeRune r)).
Proof.
  intros Hr. pose proof (encodes_small_all r Hr) as H. unfold encodes_small in H.
  destruct (N.ltb_spec r 128) as [Hlt|Hge].
  - apply String.eqb_eq in H. rewrite H, append_cons, Decode_ascii;
      rewrite N_ascii_embedding by lia; [reflexivity|assumption].
  - destruct (EncodeRune r) as [|b0 [|b1 [|? ?]]]; try discriminate.
    destruct (first (N_of_ascii b0)) as [[[|[|[|sz]]] [lo hi]]|] eqn:Hf;
      try discriminate.
    apply andb_true_iff in H as [H _]. apply andb_true_iff in H as [Hin Heq].
    apply N.eqb_eq in Heq.
    rewrite !append_cons, (Decode_two _ _ _ _ _ Hf), Hin, Heq. reflexivity.
Qed.

(** A small rune at the head of a string stands there in its encoding. *)
Lemma Decode_small s r w :
  s <> "" ->
  DecodeRuneInString s = (r, w) -> (r < 2048)%N ->
  exists t, s = EncodeRune r +:+ t /\ w = String.length (EncodeRune r).
Proof.
  destruct s as [|b0 s]; [congruence|intros _].
  unfold DecodeRuneInString. rewrite byte_at_0.
  destruct (N.ltb_spec (N_of_ascii b0) 128) as [Hlt|Hge].
  { intros [= <- <-] _. exists s.
    pose proof (encodes_small_all (N_of_ascii b0) ltac:(lia)) as H.
    unfold encodes_small in H.
    destruct (N.ltb_spec (N_of_ascii b0) 128); [|lia].
    apply String.eqb_eq in H. rewrite H, ascii_N_embedding. split; reflexivity. }
  assert (Herr : forall w', (RuneError, w') = (r, w) -> (r < 2048)%N -> 
            exists t, String b0 s = EncodeRune r +:+ t
                      /\ w = String.length (EncodeRune r)).
  { intros w' [= <- _]. unfold RuneError. lia. }
  destruct (first (N_of_ascii b0)) as [[sz [lo hi]]|] eqn:Hf; [|apply Herr].
  destruct (String.length (String b0 s) <? sz)%nat; [apply Herr|].
  rewrite byte_at_S.
  destruct s as [|b1 s]; [apply Herr|]. rewrite byte_at_0.
  destruct (in_range lo hi (N_of_ascii b1)) eqn:Hin; cbn [negb]; [|apply Herr].
  destruct (Nat.leb_spec sz 2) as [Hsz|Hsz].
  { pose proof (first_Some _ _ _ _ Hf) as (_ & _ & Hsz2 & _).
    assert (sz = 2) as -> by lia.
    intros [= <- <-] _. exists s.
    pose proof (decodes_two_all b0 b1) as H. unfold decodes_two in H.
    rewrite Hf, Hin in H. apply andb_true_iff in H as [_ H].
    apply String.eqb_eq in H. fold (rune2 (N_of_ascii b0) (N_of_ascii b1)).
    rewrite H. split; reflexivity. }
  pose proof (decodes_long_all b0 b1) as H. unfold decodes_long in H.
  rewrite Hf, Hin in H.
  destruct (Nat.leb_spec 3 sz); [|lia]. cbn [andb] in H.
  rewrite !byte_at_S.
  destruct (byte_at 0 s) as [b2|]; [|apply Herr].
  destruct (in_range locb hicb b2); cbn [negb]; [|apply Herr].
  destruct (sz <=? 3)%nat.
  { apply N.leb_le in H.
    intros [= <- _] Hr. exfalso. rewrite N.lor_assoc in Hr.
    pose proof (lor_ge_pow2 11 _ (N.land b2 maskx) H) as Hge'.
    change (2 ^ 11)%N with 2048%N in Hge'. lia. }
  apply N.leb_le in H.
  destruct (byte_at 1 s) as [b3|]; [|apply Herr].
  destruct (in_range locb hicb b3); cbn [negb]; [|apply Herr].
  intros [= <- _] Hr. exfalso. rewrite N.lor_assoc in Hr.
  pose proof (lor_ge_pow2 11 _
                (N.lor (N.shiftl (N.land b2 maskx) 6) (N.land b3 maskx)) H) as Hge'.
  change (2 ^ 11)%N with 2048%N in Hge'. lia.
Qed.

Lemma length_EncodeRune r : 1 <= String.length (EncodeRune r).
Proof.
  unfold EncodeRune.
  repeat match goal with
         | |- context [if ?b then _ else _] => destruct b
         end; cbn; lia.
Qed.

(** The runes of a string that starts with the encoding of a small rune. *)
Lemma runes_Encode r t :
  (r < 2048)%N ->
  runes (EncodeRune r +:+ t) = (r, String.length (EncodeRune r)) :: runes t.
Proof.
  intros Hr. pose proof (length_EncodeRune r).
  rewrite runes_cons by (destruct (EncodeRune r); [cbn in *; lia|discriminate]).
  rewrite Decode_Encode by assumption. cbn [snd].
  now rewrite drop_append_length.
Qed.

(** A small rune at the head of the runes of a string. *)
Lemma runes_small s r w rs :
  runes s = (r, w) :: rs -> (r < 2048)%N ->
  exists t, s = EncodeRune r +:+ t /\ w = String.length (EncodeRune r)
            /\ rs = runes t.
Proof.
  intros H Hr.
  assert (Hs : s <> "") by (intros ->; discriminate).
  rewrite (runes_cons s Hs) in H. injection H as Hd Hrs.
  destruct (Decode_small s r w Hs) as (t & -> & ->); [|assumption|].
  { destruct (DecodeRuneInString s). simpl in Hrs. congruence. }
  exists t. repeat split. rewrite <- Hrs, Hd. cbn [snd].
  now rewrite drop_append_length.
Qed.

End Utf8Facts.

(** ** The matcher *)
Section Matcher.

Import utf8 regexp.

Implicit Types (a : item) (k : cont) (s t m : string) (pos : nat) (caps : captures).

(** *** Items *)

Lemma range_runes_spec lo hi r :
  In r (range_runes (lo, hi)) <-> (lo <= r <= hi)%N.
Proof.
  unfold range_runes. cbn [fst snd]. rewrite in_map_iff. split.
  - intros (n & <- & Hn). apply in_seq in Hn. lia.
  - intros H. exists (N.to_nat r). split; [apply N2Nat.id|]. apply in_seq. lia.
Qed.

Lemma item_matches_runes a r : item_matches a r = true <-> In r (runes_of a).
Proof.
  destruct a as [c|ranges]; cbn [item_matches runes_of].
  - rewrite N.eqb_eq. split; [intros ->; now left|intros [->|[]]; reflexivity].
  - rewrite existsb_exists, in_flat_map. split.
    + intros ([lo hi] & Hin & H). exists (lo, hi). split; [assumption|].
      apply range_runes_spec. now apply in_range_spec.
    + intros ([lo hi] & Hin & H). exists (lo, hi). split; [assumption|].
      apply in_range_spec. now apply range_runes_spec.
Qed.

Lemma small_item_rune a r :
  small_item a = true -> item_matches a r = true -> (r < 2048)%N.
Proof.
  unfold small_item. rewrite forallb_forall. intros H Hm.
  apply N.ltb_lt, H. now apply item_matches_runes.
Qed.

Lemma strings_of_spec a l :
  In l (strings_of a) <-> exists r, item_matches a r = true /\ l = EncodeRune r.
Proof.
  unfold strings_of. rewrite in_map_iff. split.
  - intros (r & <- & H). exists r. split; [now apply item_matches_runes|reflexivity].
  - intros (r & H & ->). exists r. split; [reflexivity|now apply item_matches_runes].
Qed.

(** Two small runes whose encodings start the same string are equal. *)
Lemma EncodeRune_prefix_free r1 r2 t1 t2 :
  (r1 < 2048)%N -> (r2 < 2048)%N ->
  EncodeRune r1 +:+ t1 = EncodeRune r2 +:+ t2 -> r1 = r2.
Proof.
  intros H1 H2 E. apply (f_equal DecodeRuneInString) in E.
  rewrite !Decode_Encode in E by assumption. congruence.
Qed.

Lemma not_starting_nil a : not_starting (strings_of a) "".
Proof.
  intros l t Hl E. apply strings_of_spec in Hl as (r & _ & ->).
  pose proof (length_EncodeRune r) as H. apply (f_equal String.length) in E.
  rewrite length_append in E. cbn in E. lia.
Qed.

(** A string of an item apart from [a] does not start with a string of [a]. *)
Lemma not_starting_apart a b l t :
  small_item a = true -> small_item b = true -> apart a b = true ->
  In l (strings_of b) -> not_starting (strings_of a) (l +:+ t).
Proof.
  intros Ha Hb Hab Hl l' t' Hl' E.
  apply strings_of_spec in Hl as (r & Hr & ->).
  apply strings_of_spec in Hl' as (r' & Hr' & ->).
  apply EncodeRune_prefix_free in E;
    [|apply (small_item_rune b); assumption|apply (small_item_rune a); assumption].
  subst r'. unfold apart in Hab. rewrite forallb_forall in Hab.
  apply item_matches_runes in Hr. apply Hab in Hr. now rewrite Hr' in Hr.
Qed.

(** *** One item *)

Lemma step_sound a k s pos caps res :
  small_item a = true ->
  step a k (runes s) pos caps = Some res ->
  exists l t, s = l +:+ t /\ In l (strings_of a)
              /\ k (runes t) (pos + String.length l) caps = Some res.
Proof.
  intros Ha. unfold step. destruct (runes s) as [|[c w] rest] eqn:E; [discriminate|].
  destruct (item_matches a c) eqn:Hc; [|discriminate]. intros H.
  destruct (runes_small s c w rest E) as (t & -> & -> & ->);
    [apply (small_item_rune a); assumption|].
  exists (EncodeRune c), t. split; [reflexivity|]. split; [|assumption].
  apply strings_of_spec. now exists c.
Qed.

Lemma step_complete a k l t pos caps :
  small_item a = true -> In l (strings_of a) ->
  step a k (runes (l +:+ t)) pos caps = k (runes t) (pos + String.length l) caps.
Proof.
  intros Ha Hl. apply strings_of_spec in Hl as (r & Hr & ->).
  rewrite runes_Encode by (apply (small_item_rune a); assumption).
  unfold step. now rewrite Hr.
Qed.

Lemma step_none a k s pos caps :
  small_item a = true -> not_starting (strings_of a) s ->
  step a k (runes s) pos caps = None.
Proof.
  intros Ha Hs. destruct (step a k (runes s) pos caps) eqn:E; [|reflexivity].
  apply step_sound in E as (l & t & -> & Hl & _); [|assumption].
  now destruct (Hs l t Hl).
Qed.

(** *** Greedy repetition *)

Lemma star_sound a k s pos caps res :
  small_item a = true ->
  star a k (runes s) pos caps = Some res ->
  exists m t, s = m +:+ t /\ made_of (strings_of a) m
              /\ k (runes t) (pos + String.length m) caps = Some res.
Proof.
  intros Ha. remember (runes s) as inp eqn:E.
  revert s pos E. induction inp as [|[c w] rest IH]; intros s pos E.
  - cbn [star]. intros H. exists "", s. rewrite Nat.add_0_r, <- E.
    repeat split; [constructor|assumption].
  - cbn [star].
    assert (Hstay : k ((c, w) :: rest) pos caps = Some res ->
              exists m t, s = m +:+ t /\ made_of (strings_of a) m
                          /\ k (runes t) (pos + String.length m) caps = Some res).
    { intros H. exists "", s. rewrite Nat.add_0_r, <- E.
      repeat split; [constructor|assumption]. }
    destruct (item_matches a c) eqn:Hc; [|assumption].
    destruct (star a k rest (pos + w) caps) as [res'|] eqn:Hs; [|assumption].
    intros [= ->].
    destruct (runes_small s c w rest (eq_sym E)) as (t & -> & -> & ->);
      [apply (small_item_rune a); assumption|].
    destruct (IH t _ eq_refl Hs) as (m & t' & -> & Hm & Hk).
    exists (EncodeRune c +:+ m), t'. rewrite append_assoc. split; [reflexivity|].
    split.
    + constructor; [|assumption]. apply strings_of_spec. now exists c.
    + rewrite length_append, Nat.add_assoc. assumption.
Qed.

Lemma star_stop a k s pos caps :
  small_item a = true -> not_starting (strings_of a) s ->
  star a k (runes s) pos caps = k (runes s) pos caps.
Proof.
  intros Ha Hs. destruct (runes s) as [|[c w] rest] eqn:E; [reflexivity|].
  cbn [star]. destruct (item_matches a c) eqn:Hc; [|reflexivity].
  destruct (runes_small s c w rest E) as (t & -> & _);
    [apply (small_item_rune a); assumption|].
  destruct (Hs (EncodeRune c) t); [|reflexivity].
  apply strings_of_spec. now exists c.
Qed.

(** The longest run is tried first: when the rest of the match succeeds
    behind it, that is the result. *)
Lemma star_complete a k m t pos caps res :
  small_item a = true ->
  made_of (strings_of a) m -> not_starting (strings_of a) t ->
  k (runes t) (pos + String.length m) caps = Some res ->
  star a k (runes (m +:+ t)) pos caps = Some res.
Proof.
  intros Ha Hm Ht. revert pos. induction Hm as [|l m Hl Hm IH]; intros pos Hk.
  - rewrite append_nil_l, star_stop by assumption.
    now rewrite Nat.add_0_r in Hk.
  - apply strings_of_spec in Hl as (r & Hr & ->).
    rewrite append_assoc, runes_Encode by (apply (small_item_rune a); assumption).
    cbn [star]. rewrite Hr, IH; [reflexivity|].
    rewrite length_append, Nat.add_assoc in Hk. assumption.
Qed.

(** *** Counted repetition and literal chains *)

Lemma Repeat_sound n a k s pos caps res :
  small_item a = true ->
  run (Repeat n a) k (runes s) pos caps = Some res ->
  exists m t, s = m +:+ t /\ repeat_of n (strings_of a) m
              /\ k (runes t) (pos + String.length m) caps = Some res.
Proof.
  intros Ha. revert s pos. induction n as [|n IH]; intros s pos; cbn [Repeat run].
  - intros H. exists "", s. rewrite Nat.add_0_r. repeat split. assumption.
  - intros H. apply step_sound in H as (l & t & -> & Hl & H); [|assumption].
    apply IH in H as (m & t' & -> & Hm & H).
    exists (l +:+ m), t'. rewrite append_assoc. split; [reflexivity|]. split.
    + cbn [repeat_of]. now exists l, m.
    + now rewrite length_append, Nat.add_assoc.
Qed.

Lemma Repeat_complete n a k m t pos caps :
  small_item a = true -> repeat_of n (strings_of a) m ->
  run (Repeat n a) k (runes (m +:+ t)) pos caps
  = k (runes t) (pos + String.length m) caps.
Proof.
  intros Ha. revert m pos. induction n as [|n IH]; intros m pos; cbn [Repeat run repeat_of].
  - intros ->. now rewrite append_nil_l, Nat.add_0_r.
  - intros (l & m' & Hl & -> & Hm).
    rewrite append_assoc, step_complete, IH by assumption.
    now rewrite length_append, Nat.add_assoc.
Qed.

Lemma lit_chain_sound rs r k s pos caps res :
  forallb (fun c => (c <? 2048)%N) rs = true ->
  run (lit_chain rs r) k (runes s) pos caps = Some res ->
  exists t, s = encode_all rs +:+ t
            /\ run r k (runes t) (pos + String.length (encode_all rs)) caps = Some res.
Proof.
  revert s pos. induction rs as [|c rs IH]; intros s pos Hrs; cbn [lit_chain fold_right run].
  - intros H. exists s. now rewrite Nat.add_0_r.
  - cbn [forallb] in Hrs. apply andb_true_iff in Hrs as [Hc Hrs].
    intros H. apply step_sound in H as (l & t & -> & Hl & H);
      [|cbn; now rewrite Hc].
    destruct Hl as [<-|[]].
    apply (IH _ _ Hrs) in H as (t' & -> & H).
    exists t'. cbn [encode_all fold_right]. fold (encode_all rs).
    rewrite append_assoc. split; [reflexivity|].
    now rewrite length_append, Nat.add_assoc.
Qed.

Lemma lit_chain_complete rs r k t pos caps :
  forallb (fun c => (c <? 2048)%N) rs = true ->
  run (lit_chain rs r) k (runes (encode_all rs +:+ t)) pos caps
  = run r k (runes t) (pos + String.length (encode_all rs)) caps.
Proof.
  revert pos. induction rs as [|c rs IH]; intros pos Hrs;
    cbn [lit_chain fold_right run encode_all].
  - now rewrite append_nil_l, Nat.add_0_r.
  - cbn [forallb] in Hrs. apply andb_true_iff in Hrs as [Hc Hrs].
    fold (encode_all rs). fold (lit_chain rs r).
    rewrite append_assoc, step_complete; [|cbn; now rewrite Hc|now left].
    rewrite IH by assumption. now rewrite length_append, Nat.add_assoc.
Qed.

End Matcher.

(** ** The unanchored search *)
Section Search.

Import utf8 regexp.

Implicit Types (r : regex) (s t pre : string) (pos : nat).

Lemma Decode_width_le s : s <> "" -> snd (DecodeRuneInString s) <= String.length s.
Proof.
  intros Hs. pose proof (Decode_before_ascii s "" Hs I) as H.
  now rewrite append_nil_r in H.
Qed.

Lemma search_here r inp pos res :
  match_at r inp pos = Some res -> search r inp pos = Some res.
Proof. intros H. destruct inp; cbn [search]; now rewrite H. Qed.

Lemma search_next r s pos :
  s <> "" -> match_at r (runes s) pos = None ->
  search r (runes s) pos
  = search r (runes (string_drop (snd (DecodeRuneInString s)) s))
      (pos + snd (DecodeRuneInString s)).
Proof.
  intros Hs Hm. rewrite (runes_cons s Hs) at 1. cbn [search].
  rewrite <- (runes_cons s Hs), Hm. now destruct (DecodeRuneInString s).
Qed.

(** A match the search returns is a match at an offset of the text. *)
Lemma search_sound r s pos res :
  search r (runes s) pos = Some res ->
  exists p1 p2, s = p1 +:+ p2
                /\ match_at r (runes p2) (pos + String.length p1) = Some res.
Proof.
  remember (String.length s) as n eqn:Hn. revert s pos Hn.
  induction n as [n IH] using lt_wf_ind. intros s pos Hn H.
  destruct (match_at r (runes s) pos) as [res'|] eqn:Hm.
  - rewrite (search_here _ _ _ _ Hm) in H. injection H as <-.
    exists "", s. now rewrite Nat.add_0_r.
  - destruct s as [|c s'].
    { rewrite runes_nil in H, Hm. cbn [search] in H. rewrite Hm in H. discriminate. }
    set (s := String c s') in *.
    assert (Hs : s <> "") by discriminate.
    rewrite (search_next _ _ _ Hs Hm) in H.
    pose proof (Decode_width s Hs) as Hw. pose proof (Decode_width_le s Hs) as Hle.
    set (w := snd (DecodeRuneInString s)) in *.
    apply (IH (String.length (string_drop w s))) in H as (p1 & p2 & E & H);
      [|rewrite length_drop; lia|reflexivity].
    exists (string_take w s +:+ p1), p2. split.
    + rewrite append_assoc, <- E. symmetry. apply take_drop.
    + rewrite length_append, length_take by lia. now rewrite Nat.add_assoc.
Qed.

Lemma search_none r s pos :
  (forall p1 p2, s = p1 +:+ p2 ->
     match_at r (runes p2) (pos + String.length p1) = None) ->
  search r (runes s) pos = None.
Proof.
  intros H. destruct (search r (runes s) pos) as [res|] eqn:E; [|reflexivity].
  apply search_sound in E as (p1 & p2 & -> & E). now rewrite H in E.
Qed.

(** The search returns the match at the first offset where there is one,
    when the matched text starts with an ASCII byte. *)
Lemma search_first r pre s pos res :
  ascii_start s ->
  match_at r (runes s) (pos + String.length pre) = Some res ->
  (forall p1 p2, pre = p1 +:+ p2 -> p2 <> "" ->
     match_at r (runes (p2 +:+ s)) (pos + String.length p1) = None) ->
  search r (runes (pre +:+ s)) pos = Some res.
Proof.
  intros Hs. remember (String.length pre) as n eqn:Hn. revert pre pos Hn.
  induction n as [n IH] using lt_wf_ind. intros pre pos Hn Hm Hnone.
  destruct pre as [|c pre'].
  - subst n. rewrite Nat.add_0_r in Hm. now apply search_here.
  - set (pre := String c pre') in *.
    assert (Hpre : pre <> "") by discriminate.
    destruct (runes_before_ascii pre s Hpre Hs) as (w & Hw & _ & Ew).
    assert (Hne : pre +:+ s <> "") by discriminate.
    rewrite search_next;
      [|assumption|rewrite <- (Nat.add_0_r pos); now apply (Hnone "" pre)].
    rewrite <- Ew, drop_append by lia.
    apply (IH (String.length (string_drop w pre))).
    + rewrite length_drop. lia.
    + reflexivity.
    + rewrite length_drop. now replace (pos + w + (String.length pre - w)) with (pos + n) by lia.
    + intros p1 p2 E Hp2.
      replace (pos + w + String.length p1)
        with (pos + String.length (string_take w pre +:+ p1))
        by (rewrite length_append, length_take by lia; lia).
      apply Hnone; [|assumption].
      rewrite append_assoc, <- E. symmetry. apply take_drop.
Qed.

(** There is a match when there is one somewhere. *)
Lemma search_some r pre s pos res :
  ascii_start s ->
  match_at r (runes s) (pos + String.length pre) = Some res ->
  exists res', search r (runes (pre +:+ s)) pos = Some res'.
Proof.
  intros Hs. remember (String.length pre) as n eqn:Hn. revert pre pos Hn.
  induction n as [n IH] using lt_wf_ind. intros pre pos Hn Hm.
  destruct pre as [|c pre'].
  - subst n. rewrite Nat.add_0_r in Hm. exists res. now apply search_here.
  - set (pre := String c pre') in *.
    assert (Hpre : pre <> "") by discriminate.
    destruct (match_at r (runes (pre +:+ s)) pos) as [res'|] eqn:Hhere.
    { exists res'. now apply search_here. }
    destruct (runes_before_ascii pre s Hpre Hs) as (w & Hw & _ & Ew).
    assert (Hne : pre +:+ s <> "") by discriminate.
    rewrite search_next by assumption.
    rewrite <- Ew, drop_append by lia.
    apply (IH (String.length (string_drop w pre))).
    + rewrite length_drop. lia.
    + reflexivity.
    + rewrite length_drop. now replace (pos + w + (String.length pre - w)) with (pos + n) by lia.
Qed.

(** The slice of a text between two offsets. *)
Lemma substring_middle (a m b : string) :
  substring (String.length a) (String.length m) (a +:+ m +:+ b) = m.
Proof.
  induction a as [|c a IH].
  - rewrite append_nil_l. cbn [String.length].
    induction m as [|d m IHm]; [apply substring_0_0|].
    rewrite append_cons. cbn. now rewrite IHm.
  - rewrite append_cons. cbn [String.length substring]. exact IH.
Qed.

Lemma slice_middle (a m b : string) p q :
  p = String.length a -> q = p + String.length m ->
  slice (a +:+ m +:+ b) (Some (p, q)) = m.
Proof.
  intros -> ->. cbn [slice].
  replace (String.length a + String.length m - String.length a)
    with (String.length m) by lia.
  apply substring_middle.
Qed.

End Search.

(** ** The five patterns *)
Section Patterns.

Import utf8 regexp process.

Implicit Types (r : regex) (k : cont) (s t pre text : string) (pos : nat)
  (caps : captures).

(** *** From matches at an offset to the search *)

Lemma search_first_in r (anywhere : string -> Prop) pre s res :
  (forall s' pos' res', match_at r (runes s') pos' = Some res' -> anywhere s') ->
  ascii_start s ->
  match_at r (runes s) (String.length pre) = Some res ->
  (forall pre' s', pre +:+ s = pre' +:+ s' -> anywhere s' ->
     String.length pre <= String.length pre') ->
  search r (runes (pre +:+ s)) 0 = Some res.
Proof.
  intros Hsound Hs Hm Hfirst. apply search_first; [assumption..|].
  intros p1 p2 -> Hp2.
  destruct (match_at r (runes (p2 +:+ s)) (0 + String.length p1)) as [res'|] eqn:E;
    [exfalso|reflexivity].
  apply Hsound in E. apply (Hfirst p1) in E; [|apply append_assoc].
  rewrite length_append in E.
  destruct p2; [congruence|cbn in E; lia].
Qed.

Lemma search_nowhere r (anywhere : string -> Prop) text :
  (forall s' pos' res', match_at r (runes s') pos' = Some res' -> anywhere s') ->
  nowhere anywhere text ->
  search r (runes text) 0 = None.
Proof.
  intros Hsound Hno. apply search_none. intros p1 p2 ->.
  destruct (match_at r (runes p2) (0 + String.length p1)) as [res'|] eqn:E;
    [exfalso|reflexivity].
  apply Hsound in E. now apply (Hno p1 p2).
Qed.

(** *** Phrases *)

Lemma ascii_start_append p t : p <> "" -> ascii_start p -> ascii_start (p +:+ t).
Proof. destruct p; [congruence|intros _ H; exact H]. Qed.

Lemma phrase_sound phrase tail k s pos caps res :
  plain phrase = true ->
  run (lit_chain (phrase_runes phrase) tail) k (runes s) pos caps = Some res ->
  exists t, s = phrase +:+ t
            /\ run tail k (runes t) (pos + String.length phrase) caps = Some res.
Proof.
  intros Hp H. apply andb_true_iff in Hp as [Hsmall He]. apply String.eqb_eq in He.
  apply lit_chain_sound in H; [|assumption]. now rewrite He in H.
Qed.

Lemma phrase_complete phrase tail k t pos caps :
  plain phrase = true ->
  run (lit_chain (phrase_runes phrase) tail) k (runes (phrase +:+ t)) pos caps
  = run tail k (runes t) (pos + String.length phrase) caps.
Proof.
  intros Hp. apply andb_true_iff in Hp as [Hsmall He]. apply String.eqb_eq in He.
  pose proof (lit_chain_complete (phrase_runes phrase) tail k t pos caps Hsmall) as H.
  now rewrite He in H.
Qed.

(** A pattern that is a phrase matches where the phrase stands. *)
Lemma MatchString_phrase r phrase text :
  r = lit_chain (phrase_runes phrase) Empty ->
  plain phrase = true -> ascii_start phrase -> phrase <> "" ->
  (MatchString r text = true <-> somewhere (phrase_here phrase) text).
Proof.
  intros -> Hp Ha Hne. unfold MatchString. split.
  - destruct (search _ (runes text) 0) as [res|] eqn:E; [intros _|discriminate].
    apply search_sound in E as (p1 & p2 & -> & E).
    unfold match_at in E. apply phrase_sound in E as (t & -> & _); [|assumption].
    exists p1, (phrase +:+ t). split; [reflexivity|]. now exists t.
  - intros (pre & s & -> & rest & ->).
    destruct (search_some (lit_chain (phrase_runes phrase) Empty) pre (phrase +:+ rest)
                0 (<[0 := Some (String.length pre,
                                String.length pre + String.length phrase)]>
                     (replicate (S (NumSubexp (lit_chain (phrase_runes phrase) Empty)))
                        None)))
      as [res' ->]; [| |reflexivity].
    + now apply ascii_start_append.
    + unfold match_at. rewrite phrase_complete by assumption. reflexivity.
Qed.

Lemma socialInsuranceRegex_matches text :
  MatchString socialInsuranceRegex text = true
  <-> somewhere (phrase_here socialInsurancePhrase) text.
Proof. apply MatchString_phrase; [vm_compute; reflexivity..|discriminate]. Qed.

Lemma payslipRegex_matches text :
  MatchString payslipRegex text = true
  <-> somewhere (phrase_here payslipPhrase) text.
Proof. apply MatchString_phrase; [vm_compute; reflexivity..|discriminate]. Qed.

(** The five patterns compile. *)
Lemma patterns_compile :
  Compile "Ausdruck der elektronischen Lohnsteuerbescheinigung für (\d{4})"
  = POk taxCertRegex
  /\ Compile "Meldebescheinigung zur Sozialversicherung" = POk socialInsuranceRegex
  /\ Compile "Verdienstabrechnung" = POk payslipRegex
  /\ Compile "Rückrechnung:?\s*([A-Za-zäöüÄÖÜß]+)\s+(\d{4})" = POk rueckrechnungRegex
  /\ Compile "Abrechnungsmonat:?\s*([A-Za-zäöüÄÖÜß]+)\s+(\d{4})"
     = POk abrechnungsmonatRegex.
Proof. repeat split; vm_compute; reflexivity. Qed.

(** *** The alphabets *)

Lemma strings_of_digit : strings_of perl_d = digit_strings.
Proof. vm_compute. reflexivity. Qed.

Lemma strings_of_blank : strings_of perl_s = blank_strings.
Proof. vm_compute. reflexivity. Qed.

Lemma strings_of_letters : strings_of letters = letter_strings.
Proof. vm_compute. reflexivity. Qed.

Lemma strings_of_colon : strings_of colon = [":"].
Proof. vm_compute. reflexivity. Qed.

(** *** The tax certificate *)

Lemma taxCertRegex_parsed :
  taxCertRegex = lit_chain (phrase_runes taxPhrase) tax_tail.
Proof. vm_compute. reflexivity. Qed.

Lemma year_group_sound i k s pos caps res :
  run (year_group i) k (runes s) pos caps = Some res ->
  exists Y rest, s = Y +:+ rest /\ year Y.
Proof.
  unfold year_group. cbn [run]. intros H.
  apply Repeat_sound in H as (Y & rest & -> & HY & _); [|reflexivity].
  rewrite strings_of_digit in HY. now exists Y, rest.
Qed.

Lemma year_group_complete i k Y rest pos caps :
  year Y ->
  run (year_group i) k (runes (Y +:+ rest)) pos caps
  = k (runes rest) (pos + String.length Y)
      (<[i := Some (pos, pos + String.length Y)]> caps).
Proof.
  intros HY. unfold year_group. cbn [run].
  rewrite Repeat_complete; [reflexivity..|]. now rewrite strings_of_digit.
Qed.

Lemma taxCertRegex_sound s pos res :
  match_at taxCertRegex (runes s) pos = Some res -> any_tax_certificate s.
Proof.
  unfold match_at. rewrite taxCertRegex_parsed. intros H.
  apply phrase_sound in H as (t & -> & H); [|vm_compute; reflexivity].
  apply year_group_sound in H as (Y & rest & -> & HY).
  exists Y. split; [assumption|]. now exists rest.
Qed.

Lemma taxCertRegex_complete Y rest pos :
  year Y ->
  match_at taxCertRegex (runes (taxPhrase +:+ Y +:+ rest)) pos
  = Some [Some (pos, pos + String.length taxPhrase + String.length Y);
          Some (pos + String.length taxPhrase,
                pos + String.length taxPhrase + String.length Y)].
Proof.
  intros HY. unfold match_at.
  replace (NumSubexp taxCertRegex) with 1 by (vm_compute; reflexivity).
  rewrite taxCertRegex_parsed, phrase_complete by (vm_compute; reflexivity).
  unfold tax_tail. rewrite year_group_complete by assumption. reflexivity.
Qed.

(** The search for the tax certificate: the phrase and the year at the
    first place where the text has a phrase and a year. *)
Lemma FindStringSubmatch_tax text Y :
  first_in (tax_certificate_here Y) any_tax_certificate text ->
  FindStringSubmatch taxCertRegex text = Some [taxPhrase +:+ Y; Y].
Proof.
  intros (pre & s & -> & (HY & rest & ->) & Hfirst).
  unfold FindStringSubmatch.
  rewrite (search_first_in taxCertRegex any_tax_certificate pre _
             [Some (String.length pre,
                    String.length pre + String.length taxPhrase + String.length Y);
              Some (String.length pre + String.length taxPhrase,
                    String.length pre + String.length taxPhrase + String.length Y)]).
  - cbn [option_map map]. do 2 f_equal.
    + rewrite <- (append_assoc taxPhrase Y rest).
      apply slice_middle; [reflexivity|]. rewrite length_append. lia.
    + f_equal. rewrite <- (append_assoc pre taxPhrase (Y +:+ rest)).
      apply slice_middle; [now rewrite length_append|lia].
  - apply taxCertRegex_sound.
  - apply ascii_start_append; [discriminate|vm_compute; reflexivity].
  - now apply taxCertRegex_complete.
  - assumption.
Qed.

Lemma FindStringSubmatch_tax_none text :
  nowhere any_tax_certificate text ->
  FindStringSubmatch taxCertRegex text = None.
Proof.
  intros H. unfold FindStringSubmatch.
  now rewrite (search_nowhere _ _ _ taxCertRegex_sound H).
Qed.

End Patterns.

(** ** Month and year behind a label *)
Section MonthYear.

Import utf8 regexp process.

Implicit Types (r : regex) (k : cont) (s t pre text M Y ws : string) (pos : nat)
  (caps : captures).

Lemma strings_of_nonempty a l : In l (strings_of a) -> l <> "".
Proof.
  intros H -> . apply strings_of_spec in H as (c & _ & E).
  pose proof (length_EncodeRune c) as Hl. rewrite <- E in Hl. cbn in Hl. lia.
Qed.

Lemma made_of_nonempty alphabet s :
  made_of alphabet s -> s <> "" ->
  exists l m, s = l +:+ m /\ In l alphabet /\ made_of alphabet m.
Proof. intros [|l m Hl Hm] Hs; [congruence|]. now exists l, m. Qed.

Lemma append_nonempty_l l m : l <> "" -> l +:+ m <> "".
Proof. destruct l; [congruence|discriminate]. Qed.

(** The first string of a year, of a word and of blanks. *)
Lemma year_first Y : year Y -> exists d Y', Y = d +:+ Y' /\ In d (strings_of perl_d).
Proof.
  intros (d & Y' & Hd & -> & _). exists d, Y'. now rewrite strings_of_digit.
Qed.

(** *** What a match says about the text *)

Lemma after_month_sound k s pos caps res :
  run after_month k (runes s) pos caps = Some res ->
  exists ws2 Y rest, s = ws2 +:+ Y +:+ rest /\ blanks ws2 /\ ws2 <> "" /\ year Y.
Proof.
  unfold after_month. cbn [run]. intros H.
  apply step_sound in H as (l & t & -> & Hl & H); [|reflexivity].
  apply star_sound in H as (m & t' & -> & Hm & H); [|reflexivity].
  apply year_group_sound in H as (Y & rest & -> & HY).
  exists (l +:+ m), Y, rest. rewrite append_assoc. split; [reflexivity|].
  split; [|split; [|assumption]].
  - unfold blanks. rewrite <- strings_of_blank. now constructor.
  - apply append_nonempty_l. eapply strings_of_nonempty, Hl.
Qed.

Lemma from_month_sound k s pos caps res :
  run from_month k (runes s) pos caps = Some res ->
  exists M ws2 Y rest,
    s = M +:+ ws2 +:+ Y +:+ rest /\ word M /\ blanks ws2 /\ ws2 <> "" /\ year Y.
Proof.
  unfold from_month. cbn [run]. intros H.
  apply step_sound in H as (l & t & -> & Hl & H); [|reflexivity].
  apply star_sound in H as (m & t' & -> & Hm & H); [|reflexivity].
  apply after_month_sound in H as (ws2 & Y & rest & -> & H).
  exists (l +:+ m), ws2, Y, rest. rewrite append_assoc. split; [reflexivity|].
  split; [|assumption]. split.
  - apply append_nonempty_l. eapply strings_of_nonempty, Hl.
  - rewrite <- strings_of_letters. now constructor.
Qed.

Lemma from_blanks_sound k s pos caps res :
  run from_blanks k (runes s) pos caps = Some res ->
  exists ws1 M ws2 Y rest,
    s = ws1 +:+ M +:+ ws2 +:+ Y +:+ rest
    /\ blanks ws1 /\ word M /\ blanks ws2 /\ ws2 <> "" /\ year Y.
Proof.
  unfold from_blanks. cbn [run]. intros H.
  apply star_sound in H as (ws1 & t & -> & Hws & H); [|reflexivity].
  apply from_month_sound in H as (M & ws2 & Y & rest & -> & H).
  exists ws1, M, ws2, Y, rest. split; [reflexivity|]. split; [|assumption].
  unfold blanks. now rewrite <- strings_of_blank.
Qed.

Lemma month_year_tail_sound k s pos caps res :
  run month_year_tail k (runes s) pos caps = Some res ->
  exists c ws1 M ws2 Y rest,
    s = c +:+ ws1 +:+ M +:+ ws2 +:+ Y +:+ rest
    /\ (c = "" \/ c = ":")
    /\ blanks ws1 /\ word M /\ blanks ws2 /\ ws2 <> "" /\ year Y.
Proof.
  unfold month_year_tail. cbn [run].
  destruct (step colon (run from_blanks k) (runes s) pos caps) as [res'|] eqn:E.
  - intros _. apply step_sound in E as (l & t & -> & Hl & H); [|reflexivity].
    rewrite strings_of_colon in Hl. destruct Hl as [<-|[]].
    apply from_blanks_sound in H as (ws1 & M & ws2 & Y & rest & -> & H).
    exists ":", ws1, M, ws2, Y, rest. split; [reflexivity|]. split; [now right|assumption].
  - intros H.
    apply from_blanks_sound in H as (ws1 & M & ws2 & Y & rest & -> & H).
    exists "", ws1, M, ws2, Y, rest. split; [reflexivity|]. split; [now left|assumption].
Qed.

(** *** The match of a text of the shape *)

Lemma after_month_complete k ws2 Y rest pos caps res :
  blanks ws2 -> ws2 <> "" -> year Y ->
  k (runes rest) (pos + String.length ws2 + String.length Y)
    (<[2 := Some (pos + String.length ws2,
                  pos + String.length ws2 + String.length Y)]> caps) = Some res ->
  run after_month k (runes (ws2 +:+ Y +:+ rest)) pos caps = Some res.
Proof.
  intros Hws Hne HY Hk. unfold blanks in Hws. rewrite <- strings_of_blank in Hws.
  destruct (made_of_nonempty _ _ Hws Hne) as (l & m & -> & Hl & Hm).
  unfold after_month. cbn [run].
  rewrite append_assoc, step_complete by (reflexivity || assumption).
  apply star_complete; [reflexivity|assumption| |].
  - destruct (year_first Y HY) as (d & Y' & -> & Hd). rewrite append_assoc.
    now apply (not_starting_apart perl_s perl_d).
  - rewrite year_group_complete by assumption.
    rewrite length_append, !Nat.add_assoc in Hk. exact Hk.
Qed.

Lemma from_month_complete k M ws2 Y rest pos caps res :
  word M -> blanks ws2 -> ws2 <> "" -> year Y ->
  k (runes rest) (pos + String.length M + String.length ws2 + String.length Y)
    (<[2 := Some (pos + String.length M + String.length ws2,
                  pos + String.length M + String.length ws2 + String.length Y)]>
       (<[1 := Some (pos, pos + String.length M)]> caps)) = Some res ->
  run from_month k (runes (M +:+ ws2 +:+ Y +:+ rest)) pos caps = Some res.
Proof.
  intros [HMne HM] Hws Hne HY Hk. rewrite <- strings_of_letters in HM.
  destruct (made_of_nonempty _ _ HM HMne) as (l & m & -> & Hl & Hm).
  unfold from_month. cbn [run].
  rewrite append_assoc, step_complete by (reflexivity || assumption).
  apply star_complete; [reflexivity|assumption| |].
  - unfold blanks in Hws. rewrite <- strings_of_blank in Hws.
    destruct (made_of_nonempty _ _ Hws Hne) as (b & ws' & -> & Hb & _).
    rewrite append_assoc. now apply (not_starting_apart letters perl_s).
  - apply after_month_complete; try assumption.
    rewrite length_append, !Nat.add_assoc in Hk. exact Hk.
Qed.

Lemma from_blanks_complete k ws1 M ws2 Y rest pos caps res :
  blanks ws1 -> word M -> blanks ws2 -> ws2 <> "" -> year Y ->
  k (runes rest)
    (pos + String.length ws1 + String.length M + String.length ws2 + String.length Y)
    (<[2 := Some (pos + String.length ws1 + String.length M + String.length ws2,
                  pos + String.length ws1 + String.length M + String.length ws2
                  + String.length Y)]>
       (<[1 := Some (pos + String.length ws1,
                     pos + String.length ws1 + String.length M)]> caps)) = Some res ->
  run from_blanks k (runes (ws1 +:+ M +:+ ws2 +:+ Y +:+ rest)) pos caps = Some res.
Proof.
  intros Hws1 HM Hws Hne HY Hk. unfold from_blanks. cbn [run].
  unfold blanks in Hws1. rewrite <- strings_of_blank in Hws1.
  apply star_complete; [reflexivity|assumption| |].
  - destruct HM as [HMne HM]. rewrite <- strings_of_letters in HM.
    destruct (made_of_nonempty _ _ HM HMne) as (l & m & -> & Hl & _).
    rewrite append_assoc. now apply (not_starting_apart perl_s letters).
  - now apply from_month_complete.
Qed.

Lemma month_year_tail_complete k c ws1 M ws2 Y rest pos caps res :
  c = "" \/ c = ":" ->
  blanks ws1 -> word M -> blanks ws2 -> ws2 <> "" -> year Y ->
  k (runes rest)
    (pos + String.length c + String.length ws1 + String.length M
     + String.length ws2 + String.length Y)
    (<[2 := Some (pos + String.length c + String.length ws1 + String.length M
                  + String.length ws2,
                  pos + String.length c + String.length ws1 + String.length M
                  + String.length ws2 + String.length Y)]>
       (<[1 := Some (pos + String.length c + String.length ws1,
                     pos + String.length c + String.length ws1 + String.length M)]>
          caps)) = Some res ->
  run month_year_tail k (runes (c +:+ ws1 +:+ M +:+ ws2 +:+ Y +:+ rest)) pos caps
  = Some res.
Proof.
  intros Hc Hws1 HM Hws Hne HY Hk. unfold month_year_tail. cbn [run].
  destruct Hc as [-> | ->].
  - rewrite append_nil_l. cbn [String.length] in Hk. rewrite Nat.add_0_r in Hk.
    rewrite step_none; [now apply from_blanks_complete|reflexivity|].
    unfold blanks in Hws1. rewrite <- strings_of_blank in Hws1.
    destruct Hws1 as [|b ws' Hb _].
    + rewrite append_nil_l.
      destruct HM as [HMne HM]. rewrite <- strings_of_letters in HM.
      destruct (made_of_nonempty _ _ HM HMne) as (l & m & -> & Hl & _).
      rewrite append_assoc. now apply (not_starting_apart colon letters).
    + rewrite append_assoc. now apply (not_starting_apart colon perl_s).
  - rewrite step_complete; [|reflexivity|now left].
    rewrite from_blanks_complete with (res := res); [reflexivity|assumption..].
Qed.

End MonthYear.

(** ** The patterns with a label, a month and a year *)
Section Labelled.

Import utf8 regexp process.

Variables (r : regex) (label : string).

Hypothesis r_parsed : r = lit_chain (phrase_runes label) month_year_tail.
Hypothesis r_groups : NumSubexp r = 2.
Hypothesis label_plain : plain label = true.
Hypothesis label_start : ascii_start label.
Hypothesis label_nonempty : label <> "".

Implicit Types (s t pre text M Y ws : string) (pos : nat).

Lemma labelled_sound s pos res :
  match_at r (runes s) pos = Some res -> any_month_year label s.
Proof.
  unfold match_at. rewrite r_parsed. intros H.
  apply phrase_sound in H as (t & -> & H); [|assumption].
  apply month_year_tail_sound in H as (c & ws1 & M & ws2 & Y & rest & -> & H).
  exists M, Y, c, ws1, ws2, rest. split; [reflexivity|assumption].
Qed.

Lemma labelled_complete c ws1 M ws2 Y rest pos :
  c = "" \/ c = ":" ->
  blanks ws1 -> word M -> blanks ws2 -> ws2 <> "" -> year Y ->
  let p1 := pos + String.length label + String.length c + String.length ws1 in
  let p2 := p1 + String.length M + String.length ws2 in
  match_at r (runes (label +:+ c +:+ ws1 +:+ M +:+ ws2 +:+ Y +:+ rest)) pos
  = Some [Some (pos, p2 + String.length Y);
          Some (p1, p1 + String.length M);
          Some (p2, p2 + String.length Y)].
Proof.
  intros Hc Hws1 HM Hws2 Hne HY p1 p2. unfold match_at.
  rewrite r_groups, r_parsed, phrase_complete by assumption.
  apply month_year_tail_complete; try assumption. reflexivity.
Qed.

Lemma labelled_start s : any_month_year label s -> ascii_start s.
Proof.
  intros (M & Y & c & ws1 & ws2 & rest & -> & _).
  now apply ascii_start_append.
Qed.

Lemma labelled_matches s pos :
  any_month_year label s -> exists res, match_at r (runes s) pos = Some res.
Proof.
  intros (M & Y & c & ws1 & ws2 & rest & -> & Hc & Hws1 & HM & Hws2 & Hne & HY).
  eexists. now apply labelled_complete.
Qed.

(** The search: the month and the year at the first place where the text
    has the label with a month and a year. *)
Lemma FindStringSubmatch_labelled text M Y :
  first_in (month_year_here label M Y) (any_month_year label) text ->
  exists whole, FindStringSubmatch r text = Some [whole; M; Y].
Proof.
  intros (pre & s & -> & (c & ws1 & ws2 & rest & -> & Hc & Hws1 & HM & Hws2 & Hne & HY)
          & Hfirst).
  exists (label +:+ c +:+ ws1 +:+ M +:+ ws2 +:+ Y).
  unfold FindStringSubmatch.
  erewrite (search_first_in r (any_month_year label) pre); cycle 1.
  - intros s' pos' res'. apply labelled_sound.
  - now apply ascii_start_append.
  - now apply labelled_complete.
  - assumption.
  - cbn [option_map map]. do 2 f_equal; [|f_equal; [|f_equal]].
    + replace (pre +:+ label +:+ c +:+ ws1 +:+ M +:+ ws2 +:+ Y +:+ rest)
        with (pre +:+ (label +:+ c +:+ ws1 +:+ M +:+ ws2 +:+ Y) +:+ rest)
        by (now rewrite !append_assoc).
      apply slice_middle; [reflexivity|]. rewrite !length_append. lia.
    + replace (pre +:+ label +:+ c +:+ ws1 +:+ M +:+ ws2 +:+ Y +:+ rest)
        with ((pre +:+ label +:+ c +:+ ws1) +:+ M +:+ (ws2 +:+ Y +:+ rest))
        by (now rewrite !append_assoc).
      apply slice_middle; [|reflexivity]. rewrite !length_append. lia.
    + replace (pre +:+ label +:+ c +:+ ws1 +:+ M +:+ ws2 +:+ Y +:+ rest)
        with ((pre +:+ label +:+ c +:+ ws1 +:+ M +:+ ws2) +:+ Y +:+ rest)
        by (now rewrite !append_assoc).
      apply slice_middle; [|reflexivity]. rewrite !length_append. lia.
Qed.

Lemma FindStringSubmatch_labelled_none text :
  nowhere (any_month_year label) text -> FindStringSubmatch r text = None.
Proof.
  intros H. unfold FindStringSubmatch.
  now rewrite (search_nowhere r (any_month_year label) text labelled_sound H).
Qed.

End Labelled.

Section FivePatterns.

Import utf8 regexp process.

Lemma FindStringSubmatch_abrechnungsmonat text M Y :
  first_in (month_year_here abrechnungsmonatLabel M Y)
    (any_month_year abrechnungsmonatLabel) text ->
  exists whole, FindStringSubmatch abrechnungsmonatRegex text = Some [whole; M; Y].
Proof.
  apply FindStringSubmatch_labelled; try (vm_compute; reflexivity). discriminate.
Qed.

Lemma FindStringSubmatch_abrechnungsmonat_none text :
  nowhere (any_month_year abrechnungsmonatLabel) text ->
  FindStringSubmatch abrechnungsmonatRegex text = None.
Proof. apply FindStringSubmatch_labelled_none; vm_compute; reflexivity. Qed.

Lemma FindStringSubmatch_rueckrechnung text M Y :
  first_in (month_year_here rueckrechnungLabel M Y)
    (any_month_year rueckrechnungLabel) text ->
  exists whole, FindStringSubmatch rueckrechnungRegex text = Some [whole; M; Y].
Proof.
  apply FindStringSubmatch_labelled; try (vm_compute; reflexivity). discriminate.
Qed.

Lemma FindStringSubmatch_rueckrechnung_none text :
  nowhere (any_month_year rueckrechnungLabel) text ->
  FindStringSubmatch rueckrechnungRegex text = None.
Proof. apply FindStringSubmatch_labelled_none; vm_compute; reflexivity. Qed.

End FivePatterns.

(** ** From the search back to the text *)
Section Checks.

Import utf8 regexp process.

Variables (r : regex) (anywhere : string -> Prop).

Hypothesis matches :
  forall s pos, anywhere s -> exists res, match_at r (runes s) pos = Some res.
Hypothesis starts : forall s, anywhere s -> ascii_start s.

Lemma nowhere_by_search text :
  search r (runes text) 0 = None -> nowhere anywhere text.
Proof.
  intros Hnone pre s -> Hs.
  destruct (matches s (0 + String.length pre) Hs) as [res Hres].
  destruct (search_some r pre s 0 res (starts s Hs) Hres) as [res' E].
  congruence.
Qed.

Lemma leftmost_by_check text n :
  no_match_before r text n = true ->
  forall pre' s', text = pre' +:+ s' -> anywhere s' -> n <= String.length pre'.
Proof.
  unfold no_match_before. rewrite forallb_forall. intros Hcheck pre' s' -> Hs.
  destruct (le_lt_dec n (String.length pre')) as [|Hlt]; [assumption|exfalso].
  specialize (Hcheck (String.length pre') ltac:(apply in_seq; lia)).
  rewrite drop_append_length in Hcheck.
  destruct (matches s' (String.length pre') Hs) as [res Hres].
  now rewrite Hres in Hcheck.
Qed.

End Checks.

Section ChecksOfPatterns.

Import utf8 regexp process.

Lemma any_tax_certificate_matches s pos :
  any_tax_certificate s -> exists res, match_at taxCertRegex (runes s) pos = Some res.
Proof. intros (Y & HY & rest & ->). eexists. now apply taxCertRegex_complete. Qed.

Lemma any_tax_certificate_start s : any_tax_certificate s -> ascii_start s.
Proof.
  intros (Y & HY & rest & ->).
  apply ascii_start_append; [discriminate|vm_compute; reflexivity].
Qed.

Lemma nowhere_tax_by_search text :
  FindStringSubmatch taxCertRegex text = None -> nowhere any_tax_certificate text.
Proof.
  unfold FindStringSubmatch. intros H.
  apply (nowhere_by_search taxCertRegex);
    [apply any_tax_certificate_matches|apply any_tax_certificate_start|].
  now destruct (search taxCertRegex (runes text) 0).
Qed.

Lemma abrechnungsmonat_matches s pos :
  any_month_year abrechnungsmonatLabel s ->
  exists res, match_at abrechnungsmonatRegex (runes s) pos = Some res.
Proof. apply labelled_matches; vm_compute; reflexivity. Qed.

Lemma rueckrechnung_matches s pos :
  any_month_year rueckrechnungLabel s ->
  exists res, match_at rueckrechnungRegex (runes s) pos = Some res.
Proof. apply labelled_matches; vm_compute; reflexivity. Qed.

Lemma abrechnungsmonat_start s :
  any_month_year abrechnungsmonatLabel s -> ascii_start s.
Proof. apply labelled_start; [vm_compute; reflexivity|discriminate]. Qed.

Lemma rueckrechnung_start s :
  any_month_year rueckrechnungLabel s -> ascii_start s.
Proof. apply labelled_start; [vm_compute; reflexivity|discriminate]. Qed.

Lemma nowhere_abrechnungsmonat_by_search text :
  FindStringSubmatch abrechnungsmonatRegex text = None ->
  nowhere (any_month_year abrechnungsmonatLabel) text.
Proof.
  unfold FindStringSubmatch. intros H.
  apply (nowhere_by_search abrechnungsmonatRegex);
    [apply abrechnungsmonat_matches|apply abrechnungsmonat_start|].
  now destruct (search abrechnungsmonatRegex (runes text) 0).
Qed.

Lemma nowhere_rueckrechnung_by_search text :
  FindStringSubmatch rueckrechnungRegex text = None ->
  nowhere (any_month_year rueckrechnungLabel) text.
Proof.
  unfold FindStringSubmatch. intros H.
  apply (nowhere_by_search rueckrechnungRegex);
    [apply rueckrechnung_matches|apply rueckrechnung_start|].
  now destruct (search rueckrechnungRegex (runes text) 0).
Qed.

Lemma nowhere_social_by_match text :
  MatchString socialInsuranceRegex text = false ->
  nowhere (phrase_here socialInsurancePhrase) text.
Proof.
  intros H pre s -> Hs.
  assert (MatchString socialInsuranceRegex (pre +:+ s) = true)
    by (apply socialInsuranceRegex_matches; now exists pre, s).
  congruence.
Qed.

End ChecksOfPatterns.

(** ** The first place of a shape *)
Section FirstPlace.

Import utf8 regexp process.

(** Below a number with a decidable property there is a least one. *)
Lemma least_below (P : nat -> Prop) (dec : forall n, {P n} + {~ P n}) n :
  (exists m, m <= n /\ P m /\ forall k, k < m -> ~ P k)
  \/ (forall k, k <= n -> ~ P k).
Proof.
  induction n as [|n [IH|IH]].
  - destruct (dec 0) as [H0|H0].
    + left. exists 0. split; [lia|]. split; [assumption|]. intros k Hk. lia.
    + right. intros k Hk. now replace k with 0 by lia.
  - left. destruct IH as (m & Hm & HP & Hmin). exists m.
    split; [lia|]. split; assumption.
  - destruct (dec (S n)) as [HS|HS].
    + left. exists (S n). split; [lia|]. split; [assumption|].
      intros k Hk. apply IH. lia.
    + right. intros k Hk. destruct (Nat.eq_dec k (S n)) as [->|]; [assumption|].
      apply IH. lia.
Qed.

Variable anywhere : string -> Prop.
Hypothesis anywhere_dec : forall s, {anywhere s} + {~ anywhere s}.

(** A text that has the shape somewhere has it at a first place. *)
Lemma first_place text :
  somewhere anywhere text ->
  exists pre s, text = pre +:+ s /\ anywhere s
    /\ forall pre' s', text = pre' +:+ s' -> anywhere s' ->
         String.length pre <= String.length pre'.
Proof.
  intros (pre0 & s0 & -> & H0).
  set (text := pre0 +:+ s0).
  set (P := fun n => n <= String.length text /\ anywhere (string_drop n text)).
  assert (Pdec : forall n, {P n} + {~ P n}).
  { intros n. unfold P. destruct (le_dec n (String.length text)) as [Hn|Hn];
      [|right; tauto].
    destruct (anywhere_dec (string_drop n text)); [left|right]; tauto. }
  assert (HP0 : P (String.length pre0)).
  { unfold P, text. rewrite drop_append_length, length_append. split; [lia|assumption]. }
  destruct (least_below P Pdec (String.length pre0)) as [(m & Hm & [Hlen HPm] & Hmin)|Hnone];
    [|now destruct (Hnone _ (le_n _))].
  exists (string_take m text), (string_drop m text).
  split; [symmetry; apply take_drop|]. split; [assumption|].
  intros pre' s' E Hs'. rewrite length_take by assumption.
  destruct (le_lt_dec m (String.length pre')) as [|Hlt]; [assumption|exfalso].
  apply (Hmin _ Hlt). unfold P. rewrite E, drop_append_length, length_append.
  split; [lia|assumption].
Qed.

End FirstPlace.

Section FirstPlaces.

Import utf8 regexp process.

Lemma any_tax_certificate_dec s : {any_tax_certificate s} + {~ any_tax_certificate s}.
Proof.
  destruct (match_at taxCertRegex (runes s) 0) as [res|] eqn:E.
  - left. eapply taxCertRegex_sound, E.
  - right. intros H. destruct (any_tax_certificate_matches s 0 H) as [res E'].
    congruence.
Qed.

(** A text with a tax-certificate phrase and a year has a first one. *)
Lemma first_tax_certificate text :
  somewhere any_tax_certificate text ->
  exists Y, first_in (tax_certificate_here Y) any_tax_certificate text.
Proof.
  intros H.
  destruct (first_place any_tax_certificate any_tax_certificate_dec text H)
    as (pre & s & E & [Y HY] & Hfirst).
  exists Y, pre, s. split; [assumption|]. split; assumption.
Qed.

Lemma any_abrechnungsmonat_dec s :
  {any_month_year abrechnungsmonatLabel s} + {~ any_month_year abrechnungsmonatLabel s}.
Proof.
  destruct (match_at abrechnungsmonatRegex (runes s) 0) as [res|] eqn:E.
  - left. eapply (labelled_sound abrechnungsmonatRegex), E;
      vm_compute; reflexivity.
  - right. intros H. destruct (abrechnungsmonat_matches s 0 H) as [res E'].
    congruence.
Qed.

Lemma any_rueckrechnung_dec s :
  {any_month_year rueckrechnungLabel s} + {~ any_month_year rueckrechnungLabel s}.
Proof.
  destruct (match_at rueckrechnungRegex (runes s) 0) as [res|] eqn:E.
  - left. eapply (labelled_sound rueckrechnungRegex), E;
      vm_compute; reflexivity.
  - right. intros H. destruct (rueckrechnung_matches s 0 H) as [res E'].
    congruence.
Qed.

(** A text with a billing month has a first one, and so for the
    correction marker. *)
Lemma first_abrechnungsmonat text :
  somewhere (any_month_year abrechnungsmonatLabel) text ->
  exists M Y, first_in (month_year_here abrechnungsmonatLabel M Y)
                (any_month_year abrechnungsmonatLabel) text.
Proof.
  intros H.
  destruct (first_place _ any_abrechnungsmonat_dec text H)
    as (pre & s & E & (M & Y & HMY) & Hfirst).
  exists M, Y, pre, s. split; [assumption|]. split; assumption.
Qed.

Lemma first_rueckrechnung text :
  somewhere (any_month_year rueckrechnungLabel) text ->
  exists M Y, first_in (month_year_here rueckrechnungLabel M Y)
                (any_month_year rueckrechnungLabel) text.
Proof.
  intros H.
  destruct (first_place _ any_rueckrechnung_dec text H)
    as (pre & s & E & (M & Y & HMY) & Hfirst).
  exists M, Y, pre, s. split; [assumption|]. split; assumption.
Qed.

End FirstPlaces.

(** Membership in an alphabet and strings made of one, for given strings. *)
Ltac in_alphabet := cbn; repeat first [left; reflexivity | right].

Ltac made_of_alphabet :=
  unfold process.blanks;
  repeat first
    [ apply regexp.made_nil
    | match goal with
      | |- regexp.made_of _ (String ?c ?s) =>
          change (String c s) with (String c "" +:+ s);
          apply regexp.made_cons; [in_alphabet|]
      end
    | match goal with
      | |- regexp.made_of _ (String ?c (String ?d ?s)) =>
          change (String c (String d s)) with (String c (String d "") +:+ s);
          apply regexp.made_cons; [in_alphabet|]
      end ].

Ltac is_year :=
  lazymatch goal with
  | |- process.year (String ?a (String ?b (String ?c (String ?d "")))) =>
      exists (String a ""), (String b (String c (String d ""))); split; [in_alphabet|];
      split; [reflexivity|];
      exists (String b ""), (String c (String d "")); split; [in_alphabet|];
      split; [reflexivity|];
      exists (String c ""), (String d ""); split; [in_alphabet|];
      split; [reflexivity|];
      exists (String d ""), ""; split; [in_alphabet|];
      split; reflexivity
  end.

Ltac is_word := unfold process.word; split; [discriminate|made_of_alphabet].

(** ** Classification *)
Section Classification.

Import utf8 regexp process.

Implicit Types (text M Y : string).

(** C1: a text whose first tax-certificate phrase with a year has the year
    [Y] is a tax certificate with the proposed name
    [Lohnsteuerbescheinigung - Y.pdf], whatever else the text holds, the
    phrases of a payslip or of a social-insurance certificate included;
    and every text that holds the phrase with a year somewhere has such a
    first one. *)
Theorem classify_tax_certificate text :
  (forall Y,
      first_in (tax_certificate_here Y) any_tax_certificate text ->
      classify text = TaxCertificate Y ("Lohnsteuerbescheinigung - " +:+ Y +:+ ".pdf")
      /\ category_of (classify text) = CatTaxCertificate
      /\ proposedName (classify text)
         = Some ("Lohnsteuerbescheinigung - " +:+ Y +:+ ".pdf"))
  /\ (somewhere any_tax_certificate text ->
      exists Y,
        first_in (tax_certificate_here Y) any_tax_certificate text
        /\ category_of (classify text) = CatTaxCertificate
        /\ proposedName (classify text)
           = Some ("Lohnsteuerbescheinigung - " +:+ Y +:+ ".pdf")).
Proof.
  assert (H1 : forall Y,
             first_in (tax_certificate_here Y) any_tax_certificate text ->
             classify text
             = TaxCertificate Y ("Lohnsteuerbescheinigung - " +:+ Y +:+ ".pdf")).
  { intros Y H. unfold classify. now rewrite (FindStringSubmatch_tax text Y H). }
  split.
  - intros Y H. rewrite (H1 Y H). repeat split.
  - intros H. destruct (first_tax_certificate text H) as [Y HY].
    exists Y. rewrite (H1 Y HY). repeat split. assumption.
Qed.

(** The texts that are not tax certificates. *)
Lemma classify_not_tax text :
  nowhere any_tax_certificate text ->
  classify text
  = if MatchString socialInsuranceRegex text then
      match FindStringSubmatch abrechnungsmonatRegex text with
      | Some (_ :: month :: year :: _) =>
          SocialInsuranceCertificate month year
            ("Meldebescheinigung zur Sozialversicherung - "
               +:+ month +:+ " " +:+ year +:+ ".pdf")
      | _ => SocialInsuranceNoMonthYear
      end
    else if MatchString payslipRegex text then
      match FindStringSubmatch abrechnungsmonatRegex text with
      | Some (_ :: month :: year :: _) =>
          Payslip month year
            match FindStringSubmatch rueckrechnungRegex text with
            | Some (_ :: rueckMonth :: rueckYear :: _) =>
                "Verdienstabrechnung - " +:+ rueckMonth +:+ " " +:+ rueckYear
                  +:+ " - Rückrechnung.pdf"
            | _ => "Verdienstabrechnung - " +:+ month +:+ " " +:+ year +:+ ".pdf"
            end
      | _ => PayslipNoMonthYear
      end
    else NotRecognized.
Proof.
  intros H. unfold classify. now rewrite (FindStringSubmatch_tax_none text H).
Qed.

Lemma MatchString_social_false text :
  nowhere (phrase_here socialInsurancePhrase) text ->
  MatchString socialInsuranceRegex text = false.
Proof.
  intros H. destruct (MatchString socialInsuranceRegex text) eqn:E; [|reflexivity].
  apply socialInsuranceRegex_matches in E as (pre & s & -> & Hs).
  now destruct (H pre s eq_refl).
Qed.

(** C2, as amended: a text that holds the payslip phrase, no
    tax-certificate phrase with a year and no social-insurance phrase, and
    whose first billing month is [M Y], is a payslip; with a first
    correction marker [M2 Y2] its proposed name is
    [Verdienstabrechnung - M2 Y2 - Rückrechnung.pdf], whatever [M] and [Y]
    are, and without a correction marker it is
    [Verdienstabrechnung - M Y.pdf]. *)
Theorem classify_payslip text M Y :
  nowhere any_tax_certificate text ->
  nowhere (phrase_here socialInsurancePhrase) text ->
  somewhere (phrase_here payslipPhrase) text ->
  first_in (month_year_here abrechnungsmonatLabel M Y)
    (any_month_year abrechnungsmonatLabel) text ->
  (forall M2 Y2,
      first_in (month_year_here rueckrechnungLabel M2 Y2)
        (any_month_year rueckrechnungLabel) text ->
      classify text
      = Payslip M Y
          ("Verdienstabrechnung - " +:+ M2 +:+ " " +:+ Y2 +:+ " - Rückrechnung.pdf"))
  /\ (nowhere (any_month_year rueckrechnungLabel) text ->
      classify text
      = Payslip M Y ("Verdienstabrechnung - " +:+ M +:+ " " +:+ Y +:+ ".pdf")).
Proof.
  intros Htax Hsocial Hpayslip Hmonth.
  rewrite (classify_not_tax text Htax), (MatchString_social_false text Hsocial).
  apply payslipRegex_matches in Hpayslip. rewrite Hpayslip.
  destruct (FindStringSubmatch_abrechnungsmonat text M Y Hmonth) as [whole ->].
  split.
  - intros M2 Y2 Hr.
    now destruct (FindStringSubmatch_rueckrechnung text M2 Y2 Hr) as [whole2 ->].
  - intros Hr. now rewrite (FindStringSubmatch_rueckrechnung_none text Hr).
Qed.

(** A text without a tax-certificate phrase and without a billing month,
    with the payslip phrase: no name is proposed. *)
Lemma classify_no_month text :
  nowhere any_tax_certificate text ->
  somewhere (phrase_here payslipPhrase) text ->
  nowhere (any_month_year abrechnungsmonatLabel) text ->
  classify text
  = if MatchString socialInsuranceRegex text
    then SocialInsuranceNoMonthYear else PayslipNoMonthYear.
Proof.
  intros Htax Hpayslip Hmonth.
  rewrite (classify_not_tax text Htax).
  rewrite (FindStringSubmatch_abrechnungsmonat_none text Hmonth).
  apply payslipRegex_matches in Hpayslip. now rewrite Hpayslip.
Qed.

(** C9, as amended: a file whose text holds the payslip phrase, no billing
    month and no tax-certificate phrase with a year is left where it is,
    with a warning, in a live run and in a dry run, whether or not the text
    holds a correction marker; the warning is the payslip's unless the text
    holds the social-insurance phrase. *)
Theorem payslip_without_billing_month_stays
    (pdfPath : string) (dryRun : bool) (total i : nat) (pdfFile : string)
    (st : state) text :
  extractTextFromPDF (files st) pdfFile = Some text ->
  nowhere any_tax_certificate text ->
  somewhere (phrase_here payslipPhrase) text ->
  nowhere (any_month_year abrechnungsmonatLabel) text ->
  let st' := process_file pdfPath dryRun total i pdfFile st in
  let filename := filepath.Base pdfFile in
  files st' = files st
  /\ logged st'
     = (logged st ++ [ProcessingPDF (i + 1) total filename;
                      if MatchString socialInsuranceRegex text
                      then WarnSocialInsurance filename
                      else WarnPayslip filename])%list
  /\ (nowhere (phrase_here socialInsurancePhrase) text ->
      logged st'
      = (logged st ++ [ProcessingPDF (i + 1) total filename;
                       WarnPayslip filename])%list).
Proof.
  intros Hext Htax Hpayslip Hmonth. cbv zeta.
  unfold process_file, log. cbn [files logged]. rewrite Hext.
  rewrite (classify_no_month text Htax Hpayslip Hmonth).
  destruct (MatchString socialInsuranceRegex text) eqn:Hs;
    cbn [files logged]; rewrite <- app_assoc; cbn [app];
    (split; [reflexivity|]); (split; [reflexivity|]).
  - intros Hno. now rewrite (MatchString_social_false text Hno) in Hs.
  - reflexivity.
Qed.

End Classification.

(** ** The scenarios *)
Section Scenarios.

Import utf8 regexp process.

Example scenario_1_classified :
  classify scenario_1 = TaxCertificate "2022" "Lohnsteuerbescheinigung - 2022.pdf".
Proof. vm_compute. reflexivity. Qed.

Example scenario_2_classified :
  classify scenario_2
  = SocialInsuranceCertificate "März" "2023"
      "Meldebescheinigung zur Sozialversicherung - März 2023.pdf".
Proof. vm_compute. reflexivity. Qed.

Example scenario_3_classified :
  classify scenario_3
  = Payslip "Januar" "2024" "Verdienstabrechnung - Dezember 2023 - Rückrechnung.pdf".
Proof. vm_compute. reflexivity. Qed.

(** A tax certificate that also holds the payslip phrase, a billing month
    and a correction marker. *)
Lemma classify_tax_certificate_witness :
  classify certificate_with_payslip
  = TaxCertificate "2022" ("Lohnsteuerbescheinigung - " +:+ "2022" +:+ ".pdf")
  /\ category_of (classify certificate_with_payslip) = CatTaxCertificate
  /\ proposedName (classify certificate_with_payslip)
     = Some ("Lohnsteuerbescheinigung - " +:+ "2022" +:+ ".pdf").
Proof.
  apply (proj1 (classify_tax_certificate certificate_with_payslip) "2022").
  exists "", certificate_with_payslip. split; [reflexivity|]. split.
  - split; [is_year|].
    exists " zur Verdienstabrechnung Abrechnungsmonat: Januar 2024 Rückrechnung: Dezember 2023".
    reflexivity.
  - intros pre' s' _ _. cbn. lia.
Defined.

Lemma first_abrechnungsmonat_scenario_3 :
  first_in (month_year_here abrechnungsmonatLabel "Januar" "2024")
    (any_month_year abrechnungsmonatLabel) scenario_3.
Proof.
  exists "Verdienstabrechnung ",
    "Abrechnungsmonat: Januar 2024 Rückrechnung: Dezember 2023".
  split; [reflexivity|]. split.
  - exists ":", " ", " ", " Rückrechnung: Dezember 2023".
    split; [reflexivity|]. split; [now right|].
    split; [made_of_alphabet|]. split; [is_word|].
    split; [made_of_alphabet|]. split; [discriminate|]. is_year.
  - apply (leftmost_by_check abrechnungsmonatRegex);
      [apply abrechnungsmonat_matches|vm_compute; reflexivity].
Qed.

Lemma first_rueckrechnung_scenario_3 :
  first_in (month_year_here rueckrechnungLabel "Dezember" "2023")
    (any_month_year rueckrechnungLabel) scenario_3.
Proof.
  exists "Verdienstabrechnung Abrechnungsmonat: Januar 2024 ",
    "Rückrechnung: Dezember 2023".
  split; [reflexivity|]. split.
  - exists ":", " ", " ", "".
    split; [reflexivity|]. split; [now right|].
    split; [made_of_alphabet|]. split; [is_word|].
    split; [made_of_alphabet|]. split; [discriminate|]. is_year.
  - apply (leftmost_by_check rueckrechnungRegex);
      [apply rueckrechnung_matches|vm_compute; reflexivity].
Qed.

(** End-to-end scenario 3: the billing month is January 2024, the name
    carries the correction's December 2023. *)
Lemma classify_payslip_witness :
  classify scenario_3
  = Payslip "Januar" "2024"
      ("Verdienstabrechnung - " +:+ "Dezember" +:+ " " +:+ "2023" +:+ " - Rückrechnung.pdf").
Proof.
  apply (proj1 (classify_payslip scenario_3 "Januar" "2024"
                  (nowhere_tax_by_search scenario_3 eq_refl)
                  (nowhere_social_by_match scenario_3 eq_refl)
                  (ex_intro _ ""
                     (ex_intro _ scenario_3
                        (conj eq_refl
                           (ex_intro _
                              " Abrechnungsmonat: Januar 2024 Rückrechnung: Dezember 2023"
                              eq_refl))))
                  first_abrechnungsmonat_scenario_3)
           "Dezember" "2023").
  exact first_rueckrechnung_scenario_3.
Defined.

(** C2 as stated fails: a text with the payslip phrase, a billing month
    and a correction marker that also holds the tax-certificate phrase with
    a year gets the name of the tax certificate, and one that also holds
    the social-insurance phrase the name of that certificate. *)
Lemma payslip_in_other_certificate_not_named_payslip :
  (MatchString payslipRegex certificate_with_payslip = true
   /\ FindStringSubmatch abrechnungsmonatRegex certificate_with_payslip
      = Some ["Abrechnungsmonat: Januar 2024"; "Januar"; "2024"]
   /\ FindStringSubmatch rueckrechnungRegex certificate_with_payslip
      = Some ["Rückrechnung: Dezember 2023"; "Dezember"; "2023"]
   /\ proposedName (classify certificate_with_payslip)
      = Some "Lohnsteuerbescheinigung - 2022.pdf"
   /\ proposedName (classify certificate_with_payslip)
      <> Some "Verdienstabrechnung - Dezember 2023 - Rückrechnung.pdf")
  /\ (MatchString payslipRegex social_with_payslip = true
      /\ FindStringSubmatch abrechnungsmonatRegex social_with_payslip
         = Some ["Abrechnungsmonat: Januar 2024"; "Januar"; "2024"]
      /\ FindStringSubmatch rueckrechnungRegex social_with_payslip
         = Some ["Rückrechnung: Dezember 2023"; "Dezember"; "2023"]
      /\ proposedName (classify social_with_payslip)
         = Some "Meldebescheinigung zur Sozialversicherung - Januar 2024.pdf"
      /\ proposedName (classify social_with_payslip)
         <> Some "Verdienstabrechnung - Dezember 2023 - Rückrechnung.pdf").
Proof.
  assert (E1 : proposedName (classify certificate_with_payslip)
               = Some "Lohnsteuerbescheinigung - 2022.pdf") by (vm_compute; reflexivity).
  assert (E2 : proposedName (classify social_with_payslip)
               = Some "Meldebescheinigung zur Sozialversicherung - Januar 2024.pdf")
    by (vm_compute; reflexivity).
  rewrite E1, E2. repeat split; try (vm_compute; reflexivity); discriminate.
Qed.

(** A payslip with a correction marker and no billing month, alone in its
    directory. *)
Lemma payslip_without_billing_month_stays_witness :
  let st := mkState {[ "adp/adp_1.pdf" := PDF correction_without_month ]} [] in
  let st' := process_file "adp" false 1 0 "adp/adp_1.pdf" st in
  files st' = files st
  /\ logged st'
     = (logged st ++ [ProcessingPDF (0 + 1) 1 "adp_1.pdf";
                      if MatchString socialInsuranceRegex correction_without_month
                      then WarnSocialInsurance "adp_1.pdf"
                      else WarnPayslip "adp_1.pdf"])%list
  /\ (nowhere (phrase_here socialInsurancePhrase) correction_without_month ->
      logged st'
      = (logged st ++ [ProcessingPDF (0 + 1) 1 "adp_1.pdf"; WarnPayslip "adp_1.pdf"])%list).
Proof.
  intros st.
  apply (payslip_without_billing_month_stays "adp" false 1 0 "adp/adp_1.pdf" st
           correction_without_month).
  - reflexivity.
  - apply nowhere_tax_by_search. vm_compute. reflexivity.
  - exists "", correction_without_month. split; [reflexivity|].
    exists " Rückrechnung: Dezember 2023". reflexivity.
  - apply nowhere_abrechnungsmonat_by_search. vm_compute. reflexivity.
Defined.

(** C9 as stated fails: a text with the payslip phrase and a correction
    marker, without a billing month, that also holds the tax-certificate
    phrase with a year is renamed. *)
Lemma correction_in_tax_certificate_renamed :
  let fs : gmap string file := {[ "adp/adp_1.pdf" := PDF certificate_with_correction ]} in
  let st' := process_file "adp" false 1 0 "adp/adp_1.pdf" (mkState fs []) in
  MatchString payslipRegex certificate_with_correction = true
  /\ FindStringSubmatch rueckrechnungRegex certificate_with_correction
     = Some ["Rückrechnung: Dezember 2023"; "Dezember"; "2023"]
  /\ FindStringSubmatch abrechnungsmonatRegex certificate_with_correction = None
  /\ map_to_list (files st')
     = [("adp/Lohnsteuerbescheinigung - 2022.pdf", PDF certificate_with_correction)]
  /\ logged st'
     = [ProcessingPDF 1 1 "adp_1.pdf";
        FoundTaxCertificate "adp_1.pdf" "2022" "Lohnsteuerbescheinigung - 2022.pdf";
        Renamed "adp_1.pdf" "Lohnsteuerbescheinigung - 2022.pdf"].
Proof. cbv zeta. repeat split; vm_compute; reflexivity. Qed.

End Scenarios.

(** ** The filename allocator *)
Section Allocator.

Import process.

Implicit Types (fs : gmap string file) (p : string).

Lemma notExist_None fs p : notExist fs p = true <-> fs !! p = None.
Proof. unfold notExist. destruct (fs !! p); split; congruence. Qed.

Lemma notExist_Some fs p : notExist fs p = false <-> is_Some (fs !! p).
Proof.
  unfold notExist. destruct (fs !! p) eqn:E; split; try congruence; eauto.
  intros [? ?]. congruence.
Qed.



Example scenario_4 :
  ensureUniqueFilename
    {[ "adp/Verdienstabrechnung - Januar 2024.pdf" := PDF "Verdienstabrechnung" ]}
    "adp/Verdienstabrechnung - Januar 2024.pdf"
  = "adp/Verdienstabrechnung - Januar 2024_2.pdf".
Proof. reflexivity. Qed.

End Allocator.

(** ** The classification pass over a directory *)
Section Pass.

Import process.

Variable pdfPath : string.

Implicit Types (st : state) (fs : gmap string file).

Lemma decisions_app l1 l2 : decisions (l1 ++ l2) = (decisions l1 ++ decisions l2)%list.
Proof. apply omap_app. Qed.

Lemma logged_log e st : logged (log e st) = (logged st ++ [e])%list.
Proof. reflexivity. Qed.

Lemma files_log e st : files (log e st) = files st.
Proof. reflexivity. Qed.

(** The renaming branch in a dry run: the directory stays, the finding and
    the intention are logged. *)
Lemma rename_branch_dry pdfFile filename newFilename found st :
  rename_branch pdfPath true pdfFile filename newFilename found st
  = let new :=
      filepath.Base (ensureUniqueFilename (files st) (filepath.Join pdfPath newFilename)) in
    mkState (files st) (logged st ++ [found new; WouldRename filename new]).
Proof.
  unfold rename_branch, log. cbn [files logged]. cbv zeta.
  now rewrite <- app_assoc.
Qed.

(** The finding a renaming branch logs does not depend on the mode. *)
Lemma rename_branch_decisions dryRun pdfFile filename newFilename found st :
  (forall n, decision_of (found n) = Some (filename, n)) ->
  decisions (logged (rename_branch pdfPath dryRun pdfFile filename newFilename found st))
  = (decisions (logged st)
     ++ [(filename,
          filepath.Base (ensureUniqueFilename (files st)
                           (filepath.Join pdfPath newFilename)))])%list.
Proof.
  intros Hfound. unfold rename_branch, log. cbn [files logged].
  destruct dryRun.
  - cbn [logged]. rewrite !decisions_app. cbn. rewrite Hfound. cbn.
    now rewrite app_nil_r.
  - destruct (Rename (files st) pdfFile _); cbn [logged];
      rewrite !decisions_app; cbn; rewrite Hfound; cbn; now rewrite app_nil_r.
Qed.

Lemma process_file_dry_files total i pdfFile st :
  files (process_file pdfPath true total i pdfFile st) = files st.
Proof.
  unfold process_file, log. cbn [files].
  destruct (extractTextFromPDF (files st) pdfFile) as [text|]; [|reflexivity].
  destruct (classify text); try reflexivity; now rewrite rename_branch_dry.
Qed.

(** Whatever the mode, the position in the list and the lines logged
    before, a file in a directory gets the decision it gets alone. *)
Lemma process_file_decisions dryRun total i pdfFile st :
  decisions (logged (process_file pdfPath dryRun total i pdfFile st))
  = (decisions (logged st) ++ decision_alone pdfPath (files st) pdfFile)%list.
Proof.
  unfold decision_alone, process_file, log. cbn [files logged].
  destruct (extractTextFromPDF (files st) pdfFile) as [text|].
  - destruct (classify text);
      rewrite ?rename_branch_decisions by reflexivity;
      cbn [files logged]; rewrite ?decisions_app; cbn;
      now rewrite ?app_nil_r.
  - cbn [logged]. rewrite !decisions_app. cbn. now rewrite app_nil_r.
Qed.

(** The decision for a file alone, and the directory a live turn leaves,
    in terms of the proposed path. *)
Lemma decision_alone_proposed fs pdfFile :
  decision_alone pdfPath fs pdfFile
  = match proposedPath pdfPath fs pdfFile with
    | Some p => [(filepath.Base pdfFile, filepath.Base (ensureUniqueFilename fs p))]
    | None => []
    end.
Proof.
  unfold decision_alone, proposedPath, process_file, log. cbn [files logged].
  destruct (extractTextFromPDF fs pdfFile) as [text|]; [|reflexivity].
  destruct (classify text); cbn [proposedName option_map];
    rewrite ?rename_branch_decisions by reflexivity; reflexivity.
Qed.

Lemma rename_branch_live_files pdfFile filename newFilename found st :
  files (rename_branch pdfPath false pdfFile filename newFilename found st)
  = match Rename (files st) pdfFile
            (ensureUniqueFilename (files st) (filepath.Join pdfPath newFilename)) with
    | Some fs' => fs'
    | None => files st
    end.
Proof.
  unfold rename_branch, log. cbn [files logged].
  now destruct (Rename (files st) pdfFile _).
Qed.

Lemma process_file_live_files total i pdfFile st :
  files (process_file pdfPath false total i pdfFile st)
  = match proposedPath pdfPath (files st) pdfFile with
    | Some p =>
        match Rename (files st) pdfFile (ensureUniqueFilename (files st) p) with
        | Some fs' => fs'
        | None => files st
        end
    | None => files st
    end.
Proof.
  unfold proposedPath, process_file, log. cbn [files logged].
  destruct (extractTextFromPDF (files st) pdfFile) as [text|]; [|reflexivity].
  destruct (classify text); cbn [proposedName option_map];
    rewrite ?rename_branch_live_files; reflexivity.
Qed.

(** What a decision reads of the directory. *)
Lemma proposedPath_agree touched fs fs0 pdfFile :
  agree touched fs fs0 -> ~ In pdfFile touched ->
  proposedPath pdfPath fs pdfFile = proposedPath pdfPath fs0 pdfFile.
Proof.
  intros Ha Hf. unfold proposedPath, extractTextFromPDF. now rewrite (Ha _ Hf).
Qed.

Lemma ensureUniqueFilename_agree touched fs fs0 p :
  agree touched fs fs0 -> ~ In p touched ->
  ensureUniqueFilename fs p = ensureUniqueFilename fs0 p.
Proof.
  intros Ha Hp. unfold ensureUniqueFilename, notExist. now rewrite (Ha _ Hp).
Qed.

Lemma Rename_agree touched fs fs0 old new fs' :
  agree touched fs fs0 -> Rename fs old new = Some fs' ->
  agree (old :: new :: touched) fs' fs0.
Proof.
  unfold Rename. intros Ha H p Hp.
  destruct (fs !! old) as [f|]; [|discriminate]. injection H as <-.
  cbn [In] in Hp.
  rewrite lookup_insert_ne, lookup_delete_ne by tauto.
  apply Ha. tauto.
Qed.

Lemma agree_more touched more fs fs0 :
  agree touched fs fs0 -> agree (more ++ touched) fs fs0.
Proof. intros Ha p Hp. apply Ha. rewrite in_app_iff in Hp. tauto. Qed.

(** A live run whose renames are independent takes for each file the
    decision the file gets alone in the initial directory. *)
Lemma live_run_independent fs0 total pdfFiles :
  forall touched i st,
    agree touched (files st) fs0 ->
    independent pdfPath fs0 touched pdfFiles ->
    decisions (logged (process_loop pdfPath false total i pdfFiles st))
    = (decisions (logged st) ++ flat_map (decision_alone pdfPath fs0) pdfFiles)%list.
Proof.
  induction pdfFiles as [|pdfFile rest IH]; intros touched i st Ha Hind.
  - cbn. now rewrite app_nil_r.
  - cbn [process_loop flat_map independent] in Hind |- *.
    destruct Hind as [Hf Hind].
    assert (Hd : decision_alone pdfPath (files st) pdfFile
                 = decision_alone pdfPath fs0 pdfFile).
    { rewrite !decision_alone_proposed, (proposedPath_agree _ _ _ _ Ha Hf).
      destruct (proposedPath pdfPath fs0 pdfFile) as [p|]; [|reflexivity].
      destruct Hind as [Hp _]. now rewrite (ensureUniqueFilename_agree _ _ _ _ Ha Hp). }
    pose proof (process_file_live_files total i pdfFile st) as Hfiles.
    rewrite (proposedPath_agree _ _ _ _ Ha Hf) in Hfiles.
    destruct (proposedPath pdfPath fs0 pdfFile) as [p|].
    + destruct Hind as [Hp Hind].
      rewrite (ensureUniqueFilename_agree _ _ _ _ Ha Hp) in Hfiles.
      rewrite (IH (pdfFile :: ensureUniqueFilename fs0 p :: touched)).
      * rewrite process_file_decisions, Hd. now rewrite <- app_assoc.
      * rewrite Hfiles.
        destruct (Rename (files st) pdfFile (ensureUniqueFilename fs0 p)) as [fs'|] eqn:Hr.
        -- eapply Rename_agree; eassumption.
        -- apply (agree_more touched [pdfFile; ensureUniqueFilename fs0 p]), Ha.
      * assumption.
    + rewrite (IH touched).
      * rewrite process_file_decisions, Hd. now rewrite <- app_assoc.
      * now rewrite Hfiles.
      * assumption.
Qed.

(** C8, as amended: a dry run leaves the directory as it is, and for each
    file it logs the old and the new name that a live run logs for that
    file when it meets it in the initial directory; a live run over the
    whole list logs the same names when its renames are independent. *)
Theorem dry_run_frame total i pdfFiles st :
  let dry := process_loop pdfPath true total i pdfFiles st in
  let live := process_loop pdfPath false total i pdfFiles st in
  files dry = files st
  /\ decisions (logged dry)
     = (decisions (logged st)
        ++ flat_map (decision_alone pdfPath (files st)) pdfFiles)%list
  /\ (independent pdfPath (files st) [] pdfFiles ->
      decisions (logged dry) = decisions (logged live)).
Proof.
  assert (Hdry : forall l j s,
             files (process_loop pdfPath true total j l s) = files s
             /\ decisions (logged (process_loop pdfPath true total j l s))
                = (decisions (logged s)
                   ++ flat_map (decision_alone pdfPath (files s)) l)%list).
  { induction l as [|pdfFile rest IH]; intros j s.
    - cbn. now rewrite app_nil_r.
    - cbn [process_loop flat_map].
      destruct (IH (S j) (process_file pdfPath true total j pdfFile s)) as [Hf Hd].
      rewrite Hf, Hd, process_file_dry_files, process_file_decisions.
      split; [reflexivity|]. now rewrite <- app_assoc. }
  cbv zeta. destruct (Hdry pdfFiles i st) as [Hf Hd].
  split; [assumption|]. split; [assumption|].
  intros Hind. rewrite Hd. symmetry.
  apply (live_run_independent (files st) total pdfFiles []); [|assumption].
  intros p _. reflexivity.
Qed.

End Pass.

Section PassExamples.

Import process.

(** C8 as stated fails: of two files with the same proposed name the live
    run gives the second the suffixed name, the dry run gives both the
    same name. *)
Lemma dry_run_differs_from_live_run :
  decisions (logged (processPDFs "adp" true two_certificates))
  = [("adp_1.pdf", "Lohnsteuerbescheinigung - 2022.pdf");
     ("adp_2.pdf", "Lohnsteuerbescheinigung - 2022.pdf")]
  /\ decisions (logged (processPDFs "adp" false two_certificates))
     = [("adp_1.pdf", "Lohnsteuerbescheinigung - 2022.pdf");
        ("adp_2.pdf", "Lohnsteuerbescheinigung - 2022_2.pdf")]
  /\ decisions (logged (processPDFs "adp" true two_certificates))
     <> decisions (logged (processPDFs "adp" false two_certificates)).
Proof.
  assert (Hdry : decisions (logged (processPDFs "adp" true two_certificates))
                 = [("adp_1.pdf", "Lohnsteuerbescheinigung - 2022.pdf");
                    ("adp_2.pdf", "Lohnsteuerbescheinigung - 2022.pdf")])
    by (vm_compute; reflexivity).
  assert (Hlive : decisions (logged (processPDFs "adp" false two_certificates))
                  = [("adp_1.pdf", "Lohnsteuerbescheinigung - 2022.pdf");
                     ("adp_2.pdf", "Lohnsteuerbescheinigung - 2022_2.pdf")])
    by (vm_compute; reflexivity).
  rewrite Hdry, Hlive. repeat split. discriminate.
Qed.

(** A tax certificate and a payslip: the renames are independent, the
    dry run announces what the live run does. *)
Lemma dry_run_frame_witness :
  let pdfFiles := ["adp/adp_1.pdf"; "adp/adp_2.pdf"] in
  let st := mkState certificate_and_payslip [] in
  decisions (logged (process_loop "adp" true 2 0 pdfFiles st))
  = decisions (logged (process_loop "adp" false 2 0 pdfFiles st)).
Proof.
  intros pdfFiles st.
  apply (proj2 (proj2 (dry_run_frame "adp" 2 0 pdfFiles st))).
  vm_compute. intuition discriminate.
Defined.

(** C4 fails on the code: the third file with the same proposed name is
    renamed onto the second, whose content is gone. *)
Theorem third_same_name_overwrites :
  Glob three_certificates "adp" = ["adp/adp_1.pdf"; "adp/adp_2.pdf"; "adp/adp_3.pdf"]
  /\ map_to_list (files (processPDFs "adp" false three_certificates))
     ≡ₚ [("adp/Lohnsteuerbescheinigung - 2022.pdf", certificate " (1)");
         ("adp/Lohnsteuerbescheinigung - 2022_2.pdf", certificate " (3)")]
  /\ decisions (logged (processPDFs "adp" false three_certificates))
     = [("adp_1.pdf", "Lohnsteuerbescheinigung - 2022.pdf");
        ("adp_2.pdf", "Lohnsteuerbescheinigung - 2022_2.pdf");
        ("adp_3.pdf", "Lohnsteuerbescheinigung - 2022_2.pdf")].
Proof.
  split; [vm_compute; reflexivity|]. split; [|vm_compute; reflexivity].
  assert (E : map_to_list (files (processPDFs "adp" false three_certificates))
              = [("adp/Lohnsteuerbescheinigung - 2022_2.pdf", certificate " (3)");
                 ("adp/Lohnsteuerbescheinigung - 2022.pdf", certificate " (1)")])
    by (vm_compute; reflexivity).
  rewrite E. apply Permutation_swap.
Qed.

End PassExamples.

(** ** Readiness waits *)
Section Waits.

Import download.

Context {A : Type} (page : browser A) (holds : A -> bool).
Variables (timeout : Z) (target : string) (deadline : Z).

Lemma spaced_cons now t ts :
  retried page holds now = true ->
  spaced page holds (after page now + 500 * Millisecond)%Z (t :: ts) ->
  spaced page holds now (now :: t :: ts).
Proof. intros Hr Hs. cbn [spaced]. split; [reflexivity|]. split; assumption. Qed.

Lemma last_cons_cons (x y : Z) l : last (x :: y :: l) = last (y :: l).
Proof. reflexivity. Qed.

(** A turn that is retried puts its time in front of the evaluations of
    the turns that follow. *)
Lemma ended_retry now ts r :
  retried page holds now = true ->
  spaced page holds (after page now + 500 * Millisecond)%Z ts ->
  ended page holds timeout target deadline ts r ->
  spaced page holds now (now :: ts)
  /\ ended page holds timeout target deadline (now :: ts) r.
Proof.
  intros Hr Hs He. split.
  - destruct ts; [cbn; auto|now apply spaced_cons].
  - unfold ended in *. destruct (err r) as [[to tg|tg|]|].
    + destruct He as (? & ? & ? & Hall). repeat split; try assumption.
      now constructor.
    + destruct He as (? & t & msg & Hl & ?). split; [assumption|].
      exists t, msg. split; [|assumption].
      destruct ts; [discriminate|]. now rewrite last_cons_cons.
    + assumption.
    + destruct He as (t & v & Hl & ?). exists t, v. split; [|assumption].
      destruct ts; [discriminate|]. now rewrite last_cons_cons.
Qed.

(** What the loop returns, whenever it returns. *)
Lemma poll_ended fuel now started r :
  poll page holds timeout target deadline fuel now started = Some r ->
  exists ts, evaluations r = (started ++ ts)%list
             /\ spaced page holds now ts
             /\ ended page holds timeout target deadline ts r.
Proof.
  revert now started. induction fuel as [|fuel IH]; intros now started; [discriminate|].
  cbn [poll]. destruct (deadline <=? now)%Z eqn:Hd.
  - intros [= <-]. exists []. rewrite app_nil_r. cbn.
    repeat split; try constructor. now apply Z.leb_le.
  - destruct (page now) as [result took] eqn:Hp.
    assert (Hafter : after page now = (now + Z.of_N took)%Z)
      by (unfold after; now rewrite Hp).
    destruct result as [v|msg].
    + destruct (holds v) eqn:Hv.
      * intros [= <-]. exists [now]. cbn. repeat split.
        exists now, v. now rewrite Hp.
      * intros H. apply IH in H as (ts & E & Hs & He).
        exists (now :: ts). rewrite E, <- app_assoc. split; [reflexivity|].
        rewrite <- Hafter in Hs. apply ended_retry; try assumption.
        unfold retried. rewrite Hp. cbn. now rewrite Hv.
    + destruct (GoStrings.Contains msg "context deadline exceeded") eqn:Hc.
      * intros [= <-]. exists [now]. cbn. repeat split.
        exists now, msg. now rewrite Hp.
      * intros H. apply IH in H as (ts & E & Hs & He).
        exists (now :: ts). rewrite E, <- app_assoc. split; [reflexivity|].
        rewrite <- Hafter in Hs. apply ended_retry; try assumption.
        unfold retried. rewrite Hp. cbn. now rewrite Hc.
Qed.

(** The loop returns once the turns left cover the time to the deadline:
    a turn that goes on to the next has let 500ms pass. *)
Lemma poll_returns fuel now started :
  (deadline - now <= (Z.of_nat fuel - 1) * (500 * Millisecond))%Z ->
  (1 <= fuel)%nat ->
  exists r, poll page holds timeout target deadline fuel now started = Some r.
Proof.
  revert now started. induction fuel as [|fuel IH]; intros now started Hb Hf; [lia|].
  cbn [poll]. destruct (deadline <=? now)%Z eqn:Hd; [eauto|].
  apply Z.leb_gt in Hd.
  assert (Hms : (500 * Millisecond = 500000000)%Z) by reflexivity.
  rewrite Hms in *.
  destruct (page now) as [result took].
  assert (Hnext : forall started',
             exists r, poll page holds timeout target deadline fuel
                         (now + Z.of_N took + 500000000)%Z started' = Some r).
  { intros started'. rewrite <- Hms. apply IH; rewrite ?Hms; lia. }
  destruct result as [v|msg].
  - destruct (holds v); eauto.
  - destruct (GoStrings.Contains msg "context deadline exceeded"); eauto.
Qed.

Lemma enough_covers ctx start :
  (WithTimeout ctx start timeout - start
   <= (Z.of_nat (enough timeout) - 1) * (500 * Millisecond))%Z
  /\ (1 <= enough timeout)%nat.
Proof.
  unfold enough. split; [|lia].
  assert (Hms : (500 * Millisecond = 500000000)%Z) by reflexivity.
  rewrite Hms.
  assert (WithTimeout ctx start timeout - start <= timeout)%Z
    by (unfold WithTimeout; destruct ctx; lia).
  destruct (Z.le_gt_cases 0 timeout) as [Hpos|Hneg].
  - rewrite Nat2Z.inj_add, Z2Nat.id by (apply Z.div_pos; lia).
    pose proof (Z.mod_pos_bound timeout 500000000 ltac:(lia)).
    pose proof (Z.div_mod timeout 500000000 ltac:(lia)). lia.
  - rewrite Nat2Z.inj_add.
    assert (0 <= Z.of_nat (Z.to_nat (timeout / 500000000)))%Z by lia. lia.
Qed.

End Waits.

Section WaitFor.

Import download.

Lemma poll_as_specified {A : Type} (page : browser A) (holds : A -> bool)
    ctx target timeout start fuel :
  (enough timeout <= fuel)%nat ->
  exists r,
    poll page holds timeout target (WithTimeout ctx start timeout) fuel start [] = Some r
    /\ waited_as_specified page holds ctx target timeout start r.
Proof.
  intros Hfuel.
  destruct (enough_covers timeout ctx start) as [Hb H1].
  destruct (poll_returns page holds timeout target (WithTimeout ctx start timeout)
              fuel start []) as [r Hr].
  { assert (0 <= 500 * Millisecond)%Z by (unfold Millisecond; lia). nia. }
  { lia. }
  exists r. split; [assumption|].
  apply poll_ended in Hr as (ts & E & Hs & He). cbn [app] in E. subst ts.
  split; [|split; assumption].
  unfold ended in He. destruct (err r) as [[| |]|]; try reflexivity. contradiction.
Qed.



End WaitFor.

(** ** Session bridging *)
Section Bridge.

Import download.

Lemma append_if_essential_filter c names cookies :
  append_if_essential c names cookies
  = (cookies ++ if existsb (String.eqb (network.Name c)) names
                then [http_cookie c] else [])%list.
Proof.
  induction names as [|name names IH]; cbn [append_if_essential existsb].
  - now rewrite app_nil_r.
  - destruct (String.eqb (network.Name c) name); [reflexivity|]. exact IH.
Qed.

Lemma essentialCookies_fold allCookies acc :
  fold_left (fun cookies c => append_if_essential c essentialCookieNames cookies)
    allCookies acc
  = (acc ++ map http_cookie (List.filter essential allCookies))%list.
Proof.
  revert acc. induction allCookies as [|c l IH]; intros acc; cbn [fold_left List.filter].
  - now rewrite app_nil_r.
  - rewrite IH, append_if_essential_filter. fold (essential c).
    destruct (essential c); cbn [map]; rewrite <- app_assoc; reflexivity.
Qed.

Lemma essential_In c : essential c = true <-> In (network.Name c) essentialCookieNames.
Proof.
  unfold essential. rewrite existsb_exists. split.
  - intros (n & Hn & E). apply String.eqb_eq in E. now subst.
  - intros H. exists (network.Name c). split; [assumption|apply String.eqb_refl].
Qed.

Lemma essentialCookies_filter allCookies :
  essentialCookies allCookies = map http_cookie (List.filter essential allCookies).
Proof. unfold essentialCookies. now rewrite essentialCookies_fold. Qed.

(** An entry of the jar was there before the call or is made of one of the
    cookies of the call. *)
Lemma SetCookies_entries rl u cookies jar k e :
  cookiejar.SetCookies rl u cookies jar !! k = Some e ->
  jar !! k = Some e
  \/ exists h, In h cookies
               /\ cookiejar.Name e = http.Name h /\ cookiejar.Value e = http.Value h.
Proof.
  unfold cookiejar.SetCookies.
  destruct cookies as [|h0 l0] eqn:El; [now left|]. rewrite <- El. clear El h0 l0.
  destruct (_ && _); [now left|].
  destruct (cookiejar.canonicalHost rl (url.Host u)) as [host|]; [|now left].
  revert jar. induction cookies as [|h l IH]; intros jar; cbn [fold_left]; [now left|].
  intros H. apply IH in H as [H|(h' & Hin & Hh')].
  - unfold cookiejar.store, cookiejar.newEntry in H.
    destruct (cookiejar.domainAndType rl host (http.Domain h)) as [[domain hostOnly]|];
      [|now left].
    destruct (decide (k = cookiejar.id
                            (cookiejar.mkEntry (http.Name h) (http.Value h) domain
                               (cookiejar.defaultPath (url.Path u)) hostOnly)))
      as [->|Hk].
    + rewrite lookup_insert_eq in H. injection H as <-.
      right. exists h. split; [now left|]. split; reflexivity.
    + rewrite lookup_insert_ne in H by congruence. now left.
  - right. exists h'. split; [now right|assumption].
Qed.

(** The call for a URL of the web with a canonical host is the loop. *)
Lemma SetCookies_stores rl u host cookies (jar : gmap string cookiejar.entry) :
  url.Scheme u = "http" \/ url.Scheme u = "https" ->
  cookiejar.canonicalHost rl (url.Host u) = Some host ->
  cookiejar.SetCookies rl u cookies jar
  = fold_left (cookiejar.store rl (cookiejar.defaultPath (url.Path u)) host) cookies jar.
Proof.
  intros Hscheme Hhost. unfold cookiejar.SetCookies.
  destruct cookies as [|h l] eqn:El; [reflexivity|]. rewrite <- El.
  assert (Hs : negb (String.eqb (url.Scheme u) "http")
               && negb (String.eqb (url.Scheme u) "https") = false)
    by (destruct Hscheme as [->| ->]; reflexivity).
  now rewrite Hs, Hhost.
Qed.

(** The cookies that follow write no entry under the id: the entry under
    it stays. *)
Lemma store_frame rl defPath host cookies jar k :
  (forall h e, In h cookies -> cookiejar.newEntry rl h defPath host = Some e ->
               cookiejar.id e <> k) ->
  fold_left (cookiejar.store rl defPath host) cookies jar !! k = jar !! k.
Proof.
  revert jar. induction cookies as [|h l IH]; intros jar Hl; cbn [fold_left]; [reflexivity|].
  rewrite IH by (intros h' e' Hin; apply Hl; now right).
  unfold cookiejar.store.
  destruct (cookiejar.newEntry rl h defPath host) as [e|] eqn:He; [|reflexivity].
  apply lookup_insert_ne. eapply Hl; [now left|exact He].
Qed.

(** C5, as amended: the cookies given to the jar of the fresh client are the
    browser's cookies with a name of the allow-list, each as name, value
    and domain, in the browser's order, and the bridge ends with the
    error when the site URL does not parse; every entry of the client's jar
    has the name and the value of a browser cookie with a name of the
    allow-list; and such a cookie is in the jar, under its domain, the
    default path of the site URL and its name, when the scheme of the URL
    is [http] or [https], the jar takes the cookie's domain for the host
    of the URL, and no later cookie of the allow-list is stored under the
    same domain, path and name.  [Parse] and [rl] are any behaviour of
    [url.Parse] and of the jar's rules for hosts and domains. *)
Theorem bridge_allow_list (Parse : string -> option url.URL) (rl : cookiejar.rules)
    (siteURL : string) (allCookies : list network.Cookie) :
  essentialCookies allCookies = map http_cookie (List.filter essential allCookies)
  /\ (forall c, In c allCookies ->
        (In (http_cookie c) (essentialCookies allCookies)
         <-> In (network.Name c) essentialCookieNames))
  /\ bridge Parse rl siteURL allCookies
     = option_map
         (fun u => mkClient
                     (cookiejar.SetCookies rl u
                        (map http_cookie (List.filter essential allCookies)) ∅))
         (Parse siteURL)
  /\ (forall client k e,
        bridge Parse rl siteURL allCookies = Some client ->
        Jar client !! k = Some e ->
        exists c, In c allCookies
                  /\ In (network.Name c) essentialCookieNames
                  /\ cookiejar.Name e = network.Name c
                  /\ cookiejar.Value e = network.Value c)
  /\ (forall u host before c later e,
        Parse siteURL = Some u ->
        url.Scheme u = "http" \/ url.Scheme u = "https" ->
        cookiejar.canonicalHost rl (url.Host u) = Some host ->
        allCookies = (before ++ c :: later)%list ->
        In (network.Name c) essentialCookieNames ->
        cookiejar.newEntry rl (http_cookie c) (cookiejar.defaultPath (url.Path u)) host
        = Some e ->
        (forall c' e', In c' later ->
                       In (network.Name c') essentialCookieNames ->
                       cookiejar.newEntry rl (http_cookie c')
                         (cookiejar.defaultPath (url.Path u)) host = Some e' ->
                       cookiejar.id e' <> cookiejar.id e) ->
        exists client,
          bridge Parse rl siteURL allCookies = Some client
          /\ Jar client !! cookiejar.id e = Some e).
Proof.
  pose proof (essentialCookies_filter allCookies) as E.
  split; [exact E|]. split; [|split; [|split]].
  - intros c Hc. rewrite E, in_map_iff. split.
    + intros (c' & Eq & Hin). apply filter_In in Hin as [_ Hin].
      apply essential_In in Hin.
      replace (network.Name c) with (network.Name c'); [assumption|].
      now injection Eq.
    + intros H. exists c. split; [reflexivity|].
      apply filter_In. split; [assumption|now apply essential_In].
  - unfold bridge. rewrite E. now destruct (Parse siteURL).
  - intros client k e. unfold bridge.
    destruct (Parse siteURL) as [u|]; [|discriminate].
    intros [= <-]. cbn [Jar]. intros H.
    apply SetCookies_entries in H as [H|(h & Hin & Hn & Hv)];
      [now rewrite lookup_empty in H|].
    rewrite E in Hin. apply in_map_iff in Hin as (c & <- & Hin).
    apply filter_In in Hin as [Hin Hess]. exists c.
    split; [assumption|]. split; [now apply essential_In|]. split; assumption.
  - intros u host before c later e HP Hscheme Hhost -> Hc He Hlater.
    unfold bridge. rewrite HP. eexists. split; [reflexivity|]. cbn [Jar].
    rewrite E, List.filter_app. cbn [List.filter].
    apply essential_In in Hc. rewrite Hc, map_app. cbn [map].
    rewrite (SetCookies_stores rl u host) by assumption.
    rewrite fold_left_app. cbn [fold_left].
    rewrite store_frame.
    + unfold cookiejar.store. rewrite He. apply lookup_insert_eq.
    + intros h e' Hin He'. apply in_map_iff in Hin as (c' & <- & Hin).
      apply filter_In in Hin as [Hin Hess]. eapply Hlater; [exact Hin| |exact He'].
      now apply essential_In.
Qed.

(** The cookies of the session at the default site: the two cookies of the
    allow-list are given to the jar, and the second of them is in it. *)
Lemma bridge_allow_list_witness :
  essentialCookies session_cookies
  = [ http.mkCookie "SERVERSESSIONID" "s-1" "adpworld.adp.com";
      http.mkCookie "EMEASMSESSION" "e-7" ".adp.com" ]
  /\ exists client,
       bridge default_site plain_hosts "https://adpworld.adp.com" session_cookies
       = Some client
       /\ Jar client !! "adp.com;/;EMEASMSESSION"
          = Some (cookiejar.mkEntry "EMEASMSESSION" "e-7" "adp.com" "/" false).
Proof.
  pose proof (bridge_allow_list default_site plain_hosts "https://adpworld.adp.com"
                session_cookies) as (E & _ & _ & _ & H).
  split; [rewrite E; reflexivity|].
  apply (H (url.mkURL "https" "adpworld.adp.com" "") "adpworld.adp.com"
           [ network.mkCookie "SERVERSESSIONID" "s-1" "adpworld.adp.com" "/" true true true;
             network.mkCookie "_ga" "GA1.2" ".adp.com" "/" false false false ]
           (network.mkCookie "EMEASMSESSION" "e-7" ".adp.com" "/" true true true) []
           (cookiejar.mkEntry "EMEASMSESSION" "e-7" "adp.com" "/" false)).
  - reflexivity.
  - now right.
  - reflexivity.
  - reflexivity.
  - vm_compute. tauto.
  - reflexivity.
  - intros c' e' [].
Defined.

(** C5 as stated fails: of two cookies of the allow-list with one name and
    one domain, the jar keeps the second in place of the first, which is
    then not in the client. *)
Lemma bridge_same_name_keeps_last :
  exists client,
    bridge default_site plain_hosts "https://adpworld.adp.com" same_name_cookies
    = Some client
    /\ Jar client
       = {[ "adpworld.adp.com;/;SERVERSESSIONID"
            := cookiejar.mkEntry "SERVERSESSIONID" "s-2" "adpworld.adp.com" "/" false ]}
    /\ ~ (forall c, In c same_name_cookies ->
                    (bridged client c <-> In (network.Name c) essentialCookieNames)).
Proof.
  eexists. split; [reflexivity|]. split; [vm_compute; reflexivity|].
  intros H.
  destruct (proj2 (H (network.mkCookie "SERVERSESSIONID" "s-1" "adpworld.adp.com" "/"
                        true true true) ltac:(now left)))
    as (k & e & Hk & _ & Hv).
  { vm_compute. tauto. }
  cbn [Jar] in Hk.
  assert (Hjar : cookiejar.SetCookies plain_hosts
                   (url.mkURL "https" "adpworld.adp.com" "")
                   (essentialCookies same_name_cookies) ∅
                 = {[ "adpworld.adp.com;/;SERVERSESSIONID"
                      := cookiejar.mkEntry "SERVERSESSIONID" "s-2" "adpworld.adp.com" "/"
                           false ]})
    by (vm_compute; reflexivity).
  rewrite Hjar in Hk. apply lookup_singleton_Some in Hk as [_ <-].
  discriminate Hv.
Qed.

End Bridge.

(** ** Bulk download *)
Section Download.

Import download.

Variable env : environment.

Implicit Types (w : world) (e : download_error).

(** What a call of [downloadFile] does to the list of requests. *)
Lemma downloadFile_requests w urlStr path w' r :
  downloadFile env w urlStr path = (w', r) ->
  requests w' = (requests w ++ [urlStr])%list
  \/ (r = Some CreateError /\ w' = w).
Proof.
  unfold downloadFile. destruct (Creatable env path); cbn [negb].
  - cbn [requests disk].
    destruct (Get env (requests w) urlStr) as [msg|code body complete].
    + intros [= <- <-]. now left.
    + destruct (code =? StatusOK)%nat; cbn [negb].
      * destruct complete; intros [= <- <-]; now left.
      * intros [= <- <-]. now left.
  - intros [= <- <-]. now right.
Qed.

(** C10: the file is created before the GET is issued, so a download that
    fails by a transport error or a status other than 200 has issued its
    request and leaves an empty file at the destination. *)
Theorem downloadFile_failure_leaves_file w urlStr path w' e :
  downloadFile env w urlStr path = (w', Some e) ->
  (exists msg, e = GetError msg) \/ (exists code, e = BadStatus code) ->
  disk w' !! path = Some ""
  /\ requests w' = (requests w ++ [urlStr])%list
  /\ Creatable env path = true.
Proof.
  unfold downloadFile. destruct (Creatable env path); cbn [negb].
  - cbn [requests disk].
    destruct (Get env (requests w) urlStr) as [msg|code body complete].
    + intros [= <- <-] _. cbn. now rewrite lookup_insert_eq.
    + destruct (code =? StatusOK)%nat; cbn [negb].
      * destruct complete; [discriminate|].
        intros [= <- <-] [[? ?]|[? ?]]; discriminate.
      * intros [= <- <-] _. cbn. now rewrite lookup_insert_eq.
  - intros [= <- <-] [[? ?]|[? ?]]; discriminate.
Qed.

(** A body that breaks off leaves the part that was read. *)
Lemma downloadFile_copy_error w urlStr path w' :
  downloadFile env w urlStr path = (w', Some CopyError) ->
  exists body, Get env (requests w) urlStr = Response StatusOK body false
               /\ disk w' !! path = Some body.
Proof.
  unfold downloadFile. destruct (Creatable env path); cbn [negb]; [|discriminate].
  cbn [requests disk].
  destruct (Get env (requests w) urlStr) as [msg|code body complete]; [discriminate|].
  destruct (code =? StatusOK)%nat eqn:E; cbn [negb]; [|discriminate].
  destruct complete; [discriminate|]. intros [= <-].
  apply Nat.eqb_eq in E. subst code.
  exists body. cbn. now rewrite lookup_insert_eq.
Qed.

Variables siteURL downloadPath : string.

(** The loop over a list that downloads without error, followed by more
    links, goes on with these. *)
Lemma download_loop_app i done rest w w1 :
  download_loop env siteURL downloadPath i done w = (w1, None) ->
  download_loop env siteURL downloadPath i (done ++ rest) w
  = download_loop env siteURL downloadPath (i + List.length done) rest w1.
Proof.
  revert i w. induction done as [|link done IH]; intros i w H.
  - cbn in H. injection H as <-. cbn. now rewrite Nat.add_0_r.
  - cbn [download_loop app] in H |- *.
    destruct (downloadFile env w (absolute siteURL link)
                (filepath.Join downloadPath (ordinal_name i))) as [w0 [e|]];
      [discriminate|].
    rewrite (IH _ _ H). cbn [List.length]. f_equal. lia.
Qed.

(** A run without error has requested each link, made absolute, once and
    in order. *)
Lemma download_loop_ok_requests i links w w1 :
  download_loop env siteURL downloadPath i links w = (w1, None) ->
  requests w1 = (requests w ++ map (absolute siteURL) links)%list.
Proof.
  revert i w. induction links as [|link links IH]; intros i w H.
  - cbn in H. injection H as <-. cbn. now rewrite app_nil_r.
  - cbn [download_loop] in H.
    destruct (downloadFile env w (absolute siteURL link)
                (filepath.Join downloadPath (ordinal_name i))) as [w0 [e|]] eqn:D;
      [discriminate|].
    apply IH in H. rewrite H.
    apply downloadFile_requests in D as [->|[? _]]; [|discriminate].
    cbn [map]. now rewrite <- app_assoc.
Qed.

(** C6, as amended: a link is requested as it is when it starts with
    [https] and behind the site URL otherwise; the first download that fails,
    for whatever reason, ends the loop with an error that carries the
    requested link, in the world that download left: nothing is requested
    or written for the links after it. *)
Theorem download_loop_first_failure i done link rest w w1 w2 e :
  download_loop env siteURL downloadPath i done w = (w1, None) ->
  downloadFile env w1 (absolute siteURL link)
    (filepath.Join downloadPath (ordinal_name (i + List.length done)))
  = (w2, Some e) ->
  absolute siteURL link
  = (if GoStrings.HasPrefix link "https" then link else siteURL +:+ link)
  /\ download_loop env siteURL downloadPath i (done ++ link :: rest) w
     = (w2, Some (absolute siteURL link, e))
  /\ (requests w2 = (requests w ++ map (absolute siteURL) done)%list
      \/ requests w2
         = (requests w ++ map (absolute siteURL) (done ++ [link]))%list).
Proof.
  intros Hdone Hfail. split; [|split].
  - unfold absolute. now destruct (GoStrings.HasPrefix link "https").
  - rewrite (download_loop_app _ _ _ _ _ Hdone). cbn [download_loop].
    now rewrite Hfail.
  - apply download_loop_ok_requests in Hdone.
    apply downloadFile_requests in Hfail as [->|[_ ->]].
    + right. rewrite Hdone, map_app. cbn [map]. now rewrite <- app_assoc.
    + now left.
Qed.

End Download.

Section DownloadExamples.

Import download.

Lemma downloadFile_failure_leaves_file_witness :
  let w := mkWorld ∅ ["https://adpworld.adp.com/a"] in
  let w' := mkWorld {[ "adp/adp_2.pdf" := "" ]}
              ["https://adpworld.adp.com/a"; "https://adpworld.adp.com/b"] in
  disk w' !! "adp/adp_2.pdf" = Some ""
  /\ requests w' = (requests w ++ ["https://adpworld.adp.com/b"])%list
  /\ Creatable second_missing "adp/adp_2.pdf" = true.
Proof.
  intros w w'.
  apply (downloadFile_failure_leaves_file second_missing w
           "https://adpworld.adp.com/b" "adp/adp_2.pdf" w' (BadStatus 404)).
  - reflexivity.
  - right. now exists 404.
Defined.

Lemma download_loop_first_failure_witness :
  let site := "https://adpworld.adp.com" in
  let w := mkWorld ∅ [] in
  let w1 := mkWorld {[ "adp/adp_1.pdf" := "%PDF" ]} ["https://adpworld.adp.com/a"] in
  let w2 := mkWorld (<[ "adp/adp_2.pdf" := "" ]> {[ "adp/adp_1.pdf" := "%PDF" ]})
              ["https://adpworld.adp.com/a"; "https://adpworld.adp.com/b"] in
  download_loop second_missing site "adp" 0 (["/a"] ++ "/b" :: ["/c"]) w
  = (w2, Some ("https://adpworld.adp.com/b", BadStatus 404)).
Proof.
  intros site w w1 w2.
  apply (download_loop_first_failure second_missing site "adp" 0 ["/a"] "/b" ["/c"]
           w w1 w2 (BadStatus 404)); reflexivity.
Defined.

(** C6 as stated fails: a link with the scheme [http] is absolute, yet the
    URL requested for it is the site URL followed by the link. *)
Lemma absolute_http_link_not_as_is :
  let link := "http://adpworld.adp.com/AdpwAdpaWeb/DocDownload?id=1" in
  url.IsAbs link = true
  /\ requests (fst (download_loop second_missing "https://adpworld.adp.com" "adp" 0
                      [link] (mkWorld ∅ [])))
     = ["https://adpworld.adp.comhttp://adpworld.adp.com/AdpwAdpaWeb/DocDownload?id=1"]
  /\ requests (fst (download_loop second_missing "https://adpworld.adp.com" "adp" 0
                      [link] (mkWorld ∅ [])))
     <> [link].
Proof. cbv zeta. split; [reflexivity|]. split; [reflexivity|]. discriminate. Qed.

End DownloadExamples.

(** ** Readiness waits: the polls and the time they take *)
Section Polls.

Import download.

Context {A : Type} (page : browser A) (holds : A -> bool).
Variables (timeout : Z) (target : string) (deadline : Z).

Local Open Scope Z_scope.

(** The evaluations of the loop entered at [now] start between [now] and
    the deadline, and each turn that goes on lets 500ms pass. *)
Lemma poll_evaluations_bounded fuel now started r :
  poll page holds timeout target deadline fuel now started = Some r ->
  exists ts, evaluations r = (started ++ ts)%list
             /\ Forall (fun t => now <= t < deadline) ts
             /\ (ts = [] \/ now + (Z.of_nat (List.length ts) - 1) * (500 * Millisecond) < deadline).
Proof.
  assert (Hms : 500 * Millisecond = 500000000) by reflexivity. rewrite Hms.
  revert now started. induction fuel as [|fuel IH]; intros now started; [discriminate|].
  cbn [poll]. destruct (deadline <=? now) eqn:Hd.
  - intros [= <-]. exists []. rewrite app_nil_r. cbn. auto.
  - apply Z.leb_gt in Hd.
    assert (Hone : Forall (fun t => now <= t < deadline) [now])
      by (repeat constructor; lia).
    destruct (page now) as [result took].
    assert (Hnext :
               poll page holds timeout target deadline fuel
                 (now + Z.of_N took + 500 * Millisecond) (started ++ [now]) = Some r ->
               exists ts, evaluations r = (started ++ ts)%list
                          /\ Forall (fun t => now <= t < deadline) ts
                          /\ (ts = [] \/ now + (Z.of_nat (List.length ts) - 1) * 500000000
                                          < deadline)).
    { intros H. apply IH in H as (ts & E & Hall & Hlen). rewrite Hms in *.
      exists (now :: ts). rewrite E, <- app_assoc. split; [reflexivity|]. split.
      - constructor; [lia|]. eapply Forall_impl; [exact Hall|]. cbn. intros t Ht. lia.
      - right. cbn [List.length]. destruct Hlen as [->|Hlen]; cbn [List.length]; lia. }
    destruct result as [v|msg].
    + destruct (holds v).
      * intros [= <-]. exists [now]. cbn. split; [reflexivity|]. split; [assumption|].
        right. lia.
      * apply Hnext.
    + destruct (GoStrings.Contains msg "context deadline exceeded").
      * intros [= <-]. exists [now]. cbn. split; [reflexivity|]. split; [assumption|].
        right. lia.
      * apply Hnext.
Qed.

(** The loop entered after the deadline returns at once. *)
Lemma poll_expired fuel now started r :
  deadline <= now ->
  poll page holds timeout target deadline fuel now started = Some r ->
  r = mkWaited (Some (TimedOutAfter timeout target)) now started.
Proof.
  intros Hd. destruct fuel as [|fuel]; [discriminate|]. cbn [poll].
  apply Z.leb_le in Hd. rewrite Hd. now intros [= <-].
Qed.

(** The page answers within [d]; no evaluation fails with the deadline's
    message; from [t0] on the value evaluated passes the test. *)
Variables (d t0 : Z).
Hypothesis page_answers : forall t, Z.of_N (snd (page t)) <= d.
Hypothesis page_errors : forall t msg,
  fst (page t) = EvalError msg ->
  GoStrings.Contains msg "context deadline exceeded" = false.
Hypothesis page_ready : forall t,
  t0 <= t -> exists v, fst (page t) = Evaluated v /\ holds v = true.

(** Then the loop, entered early enough for the first evaluation from
    [t0] on to start before the deadline, ends with success. *)
Lemma poll_succeeds fuel now started r :
  now <= Z.max now (t0 + d + 500 * Millisecond) < deadline ->
  poll page holds timeout target deadline fuel now started = Some r ->
  err r = None /\ returned r <= Z.max now (t0 + d + 500 * Millisecond) + d.
Proof.
  assert (Hms : 500 * Millisecond = 500000000) by reflexivity. rewrite Hms.
  revert now started. induction fuel as [|fuel IH]; intros now started Hb; [discriminate|].
  cbn [poll]. destruct (deadline <=? now) eqn:Hd; [apply Z.leb_le in Hd; lia|].
  pose proof (page_answers now) as Hd1.
  pose proof (page_errors now) as He.
  pose proof (page_ready now) as Hr.
  destruct (page now) as [result took]. cbn [fst snd] in *.
  assert (Hnext : forall started',
             now < t0 ->
             poll page holds timeout target deadline fuel
               (now + Z.of_N took + 500 * Millisecond) started' = Some r ->
             err r = None /\ returned r <= Z.max now (t0 + d + 500000000) + d).
  { intros started' Hlt H. rewrite Hms in H. apply IH in H as [He' Hr']; [|lia].
    split; [assumption|lia]. }
  destruct result as [v|msg].
  - destruct (holds v) eqn:Hv.
    + intros [= <-]. cbn. split; [reflexivity|]. lia.
    + apply Hnext. destruct (Z.lt_ge_cases now t0) as [|Hge]; [assumption|].
      destruct (Hr Hge) as (v' & [= <-] & Hv'). congruence.
  - rewrite (He msg eq_refl).
    apply Hnext. destruct (Z.lt_ge_cases now t0) as [|Hge]; [assumption|].
    destruct (Hr Hge) as (v' & [=] & _).
Qed.

End Polls.

Section PollsOfWaits.

Import download.

Local Open Scope Z_scope.

Lemma WithTimeout_le ctx start timeout : WithTimeout ctx start timeout <= start + timeout.
Proof. unfold WithTimeout. destruct ctx; lia. Qed.

Lemma polls_counted {A : Type} (page : browser A) (holds : A -> bool)
    ctx target timeout start fuel r :
  poll page holds timeout target (WithTimeout ctx start timeout) fuel start [] = Some r ->
  Forall (fun t => start <= t < WithTimeout ctx start timeout) (evaluations r)
  /\ Z.of_nat (List.length (evaluations r))
     <= Z.max 0 ((timeout + (500 * Millisecond - 1)) / (500 * Millisecond)).
Proof.
  intros H. apply poll_evaluations_bounded in H as (ts & E & Hall & Hlen).
  cbn [app] in E. rewrite E. split; [assumption|].
  assert (Hms : 500 * Millisecond = 500000000) by reflexivity. rewrite Hms in *.
  destruct Hlen as [->|Hlen]; [cbn; lia|].
  pose proof (WithTimeout_le ctx start timeout).
  etransitivity; [|apply Z.le_max_r].
  apply Z.div_le_lower_bound; lia.
Qed.

(** The loop entered before the deadline evaluates the page. *)
Lemma poll_evaluates {A : Type} (page : browser A) (holds : A -> bool)
    timeout target deadline fuel start r :
  start < deadline ->
  poll page holds timeout target deadline fuel start [] = Some r ->
  evaluations r <> [].
Proof.
  intros Hd H. destruct fuel as [|fuel']; [discriminate|]. cbn [poll] in H.
  apply Z.leb_gt in Hd. rewrite Hd in H.
  destruct (page start) as [result took].
  assert (Hnext : forall now,
             poll page holds timeout target deadline fuel' now ([] ++ [start]) = Some r ->
             evaluations r <> []).
  { intros now Hn. apply poll_evaluations_bounded in Hn as (ts & -> & _). discriminate. }
  destruct result as [v|msg].
  - destruct (holds v); [injection H as <-; discriminate|]. eapply Hnext, H.
  - destruct (GoStrings.Contains msg "context deadline exceeded");
      [injection H as <-; discriminate|]. eapply Hnext, H.
Qed.

(** X8: given the turns that cover the timeout, a wait returns, and it has
    started no evaluation at or after its deadline, the earlier of the
    caller's deadline and the timeout; so a wait with the timeout [T]
    evaluates at most [T / 500ms] times, rounded up, and a wait of
    [waitForText] whose pattern does not compile not at all.  [Compile]
    is any behaviour of the package [regexp]. *)
Theorem waits_poll_before_deadline (fuel : nat) (ctx : option Z) (timeout start : Z) :
  (enough timeout <= fuel)%nat ->
  (forall (page : browser bool) (selector : string),
      exists r,
        waitForElement page ctx selector timeout fuel start = Some r
        /\ Forall (fun t => start <= t < WithTimeout ctx start timeout) (evaluations r)
        /\ Z.of_nat (List.length (evaluations r))
           <= Z.max 0 ((timeout + (500 * Millisecond - 1)) / (500 * Millisecond)))
  /\ (forall (Compile : compiler) (page : browser string) (pattern : string),
         exists r,
           waitForText Compile page ctx pattern timeout fuel start = Some r
           /\ Forall (fun t => start <= t < WithTimeout ctx start timeout) (evaluations r)
           /\ Z.of_nat (List.length (evaluations r))
              <= Z.max 0 ((timeout + (500 * Millisecond - 1)) / (500 * Millisecond))
           /\ (Compile pattern = None -> evaluations r = [])).
Proof.
  intros Hfuel. split.
  - intros page selector. unfold waitForElement.
    destruct (poll_as_specified page (fun visible => visible) ctx selector timeout start
                fuel Hfuel) as (r & Hr & _).
    exists r. split; [assumption|]. eapply polls_counted, Hr.
  - intros Compile page pattern. unfold waitForText.
    destruct (Compile pattern) as [MatchString|].
    + destruct (poll_as_specified page MatchString ctx pattern timeout start
                  fuel Hfuel) as (r & Hr & _).
      exists r. split; [assumption|].
      destruct (polls_counted _ _ _ _ _ _ _ _ Hr) as [H1 H2].
      split; [assumption|]. split; [assumption|discriminate].
    + eexists. split; [reflexivity|]. cbn. split; [constructor|]. split; [lia|reflexivity].
Qed.

(** A page that never shows the element: the wait of 30s for the field of
    the user name evaluates at most 60 times, and never at the deadline
    or later. *)
Lemma waits_poll_before_deadline_witness :
  let page : browser bool := fun _ => (Evaluated false, 0%N) in
  exists r,
    waitForElement page None "#login-form_username" (30 * Second)
      (enough (30 * Second)) 0 = Some r
    /\ Forall (fun t => 0 <= t < WithTimeout None 0 (30 * Second)) (evaluations r)
    /\ Z.of_nat (List.length (evaluations r))
       <= Z.max 0 ((30 * Second + (500 * Millisecond - 1)) / (500 * Millisecond)).
Proof.
  intros page.
  apply (proj1 (waits_poll_before_deadline (enough (30 * Second)) None (30 * Second) 0
                  (le_n _))
           page "#login-form_username").
Defined.

(** X9: [waitForText] whose pattern does not compile returns the error of
    the invalid pattern at once, whatever the deadline is, and evaluates
    nothing.  Otherwise a wait entered when its deadline has passed (a
    timeout that is not positive, or a caller's context that is over)
    returns the timeout error at once and evaluates nothing, and a wait
    entered before its deadline evaluates at least once.  [Compile] is
    any behaviour of the package [regexp]. *)
Theorem waits_entered_after_deadline (fuel : nat) (ctx : option Z) (timeout start : Z) :
  (enough timeout <= fuel)%nat ->
  (forall (page : browser bool) (selector : string),
      exists r,
        waitForElement page ctx selector timeout fuel start = Some r
        /\ (WithTimeout ctx start timeout <= start ->
            r = mkWaited (Some (TimedOutAfter timeout selector)) start [])
        /\ (start < WithTimeout ctx start timeout -> evaluations r <> []))
  /\ (forall (Compile : compiler) (page : browser string) (pattern : string),
         exists r,
           waitForText Compile page ctx pattern timeout fuel start = Some r
           /\ match Compile pattern with
              | None => r = mkWaited (Some InvalidRegexPattern) start []
              | Some _ =>
                  (WithTimeout ctx start timeout <= start ->
                   r = mkWaited (Some (TimedOutAfter timeout pattern)) start [])
                  /\ (start < WithTimeout ctx start timeout -> evaluations r <> [])
              end).
Proof.
  intros Hfuel.
  assert (Hpoll : forall (A : Type) (page : browser A) holds target,
             exists r,
               poll page holds timeout target (WithTimeout ctx start timeout) fuel start []
               = Some r
               /\ (WithTimeout ctx start timeout <= start ->
                   r = mkWaited (Some (TimedOutAfter timeout target)) start [])
               /\ (start < WithTimeout ctx start timeout -> evaluations r <> [])).
  { intros A page holds target.
    destruct (poll_as_specified page holds ctx target timeout start fuel Hfuel)
      as (r & Hr & _).
    exists r. split; [assumption|]. split.
    - intros Hd. eapply poll_expired; eassumption.
    - intros Hd. eapply poll_evaluates; eassumption. }
  split.
  - intros page selector. unfold waitForElement. apply Hpoll.
  - intros Compile page pattern. unfold waitForText.
    destruct (Compile pattern) as [MatchString|]; [apply Hpoll|].
    eexists. split; reflexivity.
Qed.

(** The wait for the password field when the whole operation is over. *)
Lemma waits_entered_after_deadline_witness :
  let page : browser bool := fun _ => (Evaluated true, 0%N) in
  exists r,
    waitForElement page (Some (900 * Second)) "#login-form_password" (30 * Second)
      (enough (30 * Second)) (900 * Second) = Some r
    /\ r = mkWaited (Some (TimedOutAfter (30 * Second) "#login-form_password"))
             (900 * Second) [].
Proof.
  intros page.
  destruct (proj1 (waits_entered_after_deadline (enough (30 * Second))
                     (Some (900 * Second)) (30 * Second) (900 * Second) (le_n _))
              page "#login-form_password") as (r & Hr & Hpast & _).
  exists r. split; [exact Hr|]. apply Hpast. vm_compute. discriminate.
Defined.

(** X10: when the page answers within [d], never fails with the deadline's
    message and shows what is waited for from [t0] on, a wait whose
    deadline is later than [t0 + d + 500ms] returns success, at the
    latest [d] after the later of its start and [t0 + d + 500ms].
    [Compile] is any behaviour of the package [regexp]. *)
Theorem waits_succeed_in_time (fuel : nat) (ctx : option Z) (timeout start d t0 : Z) :
  (enough timeout <= fuel)%nat ->
  Z.max start (t0 + d + 500 * Millisecond) < WithTimeout ctx start timeout ->
  (forall (page : browser bool) (selector : string),
      (forall t, Z.of_N (snd (page t)) <= d) ->
      (forall t msg, fst (page t) = EvalError msg ->
                     GoStrings.Contains msg "context deadline exceeded" = false) ->
      (forall t, t0 <= t -> fst (page t) = Evaluated true) ->
      exists r, waitForElement page ctx selector timeout fuel start = Some r
                /\ err r = None
                /\ returned r <= Z.max start (t0 + d + 500 * Millisecond) + d)
  /\ (forall (Compile : compiler) (page : browser string) (pattern : string)
             (MatchString : string -> bool),
         Compile pattern = Some MatchString ->
         (forall t, Z.of_N (snd (page t)) <= d) ->
         (forall t msg, fst (page t) = EvalError msg ->
                        GoStrings.Contains msg "context deadline exceeded" = false) ->
         (forall t, t0 <= t ->
                    exists pageText, fst (page t) = Evaluated pageText
                                     /\ MatchString pageText = true) ->
         exists r, waitForText Compile page ctx pattern timeout fuel start = Some r
                   /\ err r = None
                   /\ returned r <= Z.max start (t0 + d + 500 * Millisecond) + d).
Proof.
  intros Hfuel Hb.
  assert (Hpoll : forall (A : Type) (page : browser A) holds target,
             (forall t, Z.of_N (snd (page t)) <= d) ->
             (forall t msg, fst (page t) = EvalError msg ->
                            GoStrings.Contains msg "context deadline exceeded" = false) ->
             (forall t, t0 <= t -> exists v, fst (page t) = Evaluated v /\ holds v = true) ->
             exists r,
               poll page holds timeout target (WithTimeout ctx start timeout) fuel start []
               = Some r
               /\ err r = None
               /\ returned r <= Z.max start (t0 + d + 500 * Millisecond) + d).
  { intros A page holds target H1 H2 H3.
    destruct (poll_as_specified page holds ctx target timeout start fuel Hfuel)
      as (r & Hr & _).
    exists r. split; [assumption|].
    eapply poll_succeeds; try eassumption. lia. }
  split.
  - intros page selector H1 H2 H3. unfold waitForElement.
    apply Hpoll; try assumption.
    intros t Ht. exists true. split; [now apply H3|reflexivity].
  - intros Compile page pattern MatchString Hc H1 H2 H3. unfold waitForText. rewrite Hc.
    now apply Hpoll.
Qed.

(** The user-name field appears two seconds after the wait began, on a
    page that answers in 100ms: the wait of 30s succeeds within 2.7s. *)
Lemma waits_succeed_in_time_witness :
  let page : browser bool :=
    fun t => (Evaluated (2 * Second <=? t), 100000000%N) in
  exists r,
    waitForElement page None "#login-form_username" (30 * Second)
      (enough (30 * Second)) 0 = Some r
    /\ err r = None
    /\ returned r <= Z.max 0 (2 * Second + 100 * Millisecond + 500 * Millisecond)
                     + 100 * Millisecond.
Proof.
  intros page.
  apply (proj1 (waits_succeed_in_time (enough (30 * Second)) None (30 * Second) 0
                  (100 * Millisecond) (2 * Second) (le_n _) eq_refl)
           page "#login-form_username").
  - intros t. cbn. unfold Millisecond. lia.
  - intros t msg. cbn. discriminate.
  - intros t Ht. cbn. apply Z.leb_le in Ht. now rewrite Ht.
Defined.

End PollsOfWaits.

(** ** Bulk download: the files of a batch *)
Section BatchNames.

Import download.

Lemma append_inv_head (s t u : string) : s +:+ t = s +:+ u -> t = u.
Proof.
  induction s as [|c s IH]; rewrite ?append_nil_l; [trivial|].
  rewrite !append_cons. intros [= H]. auto.
Qed.

Lemma to_uint_nonnil (n : nat) : Nat.to_uint n <> Decimal.Nil.
Proof.
  rewrite <- (Unsigned.of_to n) at 1. rewrite Unsigned.to_of.
  apply DecimalFacts.unorm_nonnil.
Qed.

(** The decimal numeral of a number is read back as the number. *)
Lemma string_of_nat_inj (n n' : nat) :
  NilZero.string_of_uint (Nat.to_uint n) = NilZero.string_of_uint (Nat.to_uint n') ->
  n = n'.
Proof.
  intros H. apply (f_equal NilZero.uint_of_string) in H.
  rewrite !NilZero.usu in H by apply to_uint_nonnil.
  injection H as H. now apply Unsigned.to_uint_inj.
Qed.

(** Two links of a batch never share a file name. *)
Lemma ordinal_name_inj (i j : nat) : ordinal_name i = ordinal_name j -> i = j.
Proof.
  unfold ordinal_name. intros H.
  apply append_inv_head in H.
  apply append_inv_tail in H.
  apply string_of_nat_inj in H. lia.
Qed.

Lemma Join_inj (dir a b : string) : filepath.Join dir a = filepath.Join dir b -> a = b.
Proof.
  unfold filepath.Join.
  destruct (String.eqb dir ""); [trivial|].
  destruct (String.eqb dir "/"); intros H.
  - now apply append_inv_head in H.
  - now do 2 apply append_inv_head in H.
Qed.

Lemma prefix_append (p s t : string) :
  String.prefix p s = true -> String.prefix p (s +:+ t) = true.
Proof.
  revert s. induction p as [|c p IH]; intros s; [now destruct (s +:+ t)|].
  destruct s as [|c' s]; [discriminate|]. rewrite append_cons. cbn [String.prefix].
  destruct (ascii_dec c c'); [apply IH|discriminate].
Qed.

End BatchNames.

Section Batch.

Import download.

Variable env : environment.
Variables siteURL downloadPath : string.

Implicit Types (w : world).

(** A download without error: the file could be created, the server
    answered 200 and the body was read to its end; the file holds the body
    and the request is the last one made. *)
Lemma downloadFile_ok w urlStr path w' :
  downloadFile env w urlStr path = (w', None) ->
  exists body,
    Get env (requests w) urlStr = Response StatusOK body true
    /\ Creatable env path = true
    /\ w' = mkWorld (<[path := body]> (disk w)) (requests w ++ [urlStr]).
Proof.
  unfold downloadFile. destruct (Creatable env path); cbn [negb]; [|discriminate].
  cbn [requests disk].
  destruct (Get env (requests w) urlStr) as [msg|code body complete]; [discriminate|].
  destruct (code =? StatusOK)%nat eqn:E; cbn [negb]; [|discriminate].
  destruct complete; [|discriminate]. intros [= <-].
  apply Nat.eqb_eq in E. subst code. exists body.
  split; [reflexivity|]. split; [reflexivity|]. now rewrite insert_insert_eq.
Qed.

(** The requests of the loop, however it ends: the links up to some
    place, each made absolute, in order. *)
Lemma download_loop_requests i links w :
  exists k, requests (fst (download_loop env siteURL downloadPath i links w))
            = (requests w ++ map (absolute siteURL) (take k links))%list.
Proof.
  revert i w. induction links as [|link links IH]; intros i w.
  - exists 0. cbn. now rewrite app_nil_r.
  - cbn [download_loop].
    destruct (downloadFile env w (absolute siteURL link)
                (filepath.Join downloadPath (ordinal_name i))) as [w0 [e|]] eqn:D.
    + cbn [fst]. apply downloadFile_requests in D as [->|[_ ->]].
      * now exists 1.
      * exists 0. cbn. now rewrite app_nil_r.
    + destruct (IH (S i) w0) as [k Hk]. exists (S k). rewrite Hk.
      apply downloadFile_requests in D as [->|[? _]]; [|discriminate].
      cbn [take map]. now rewrite <- app_assoc.
Qed.

(** The files of a batch that ends without error. *)
Lemma download_loop_files i links w w1 :
  download_loop env siteURL downloadPath i links w = (w1, None) ->
  (forall k link,
      links !! k = Some link ->
      exists body,
        Get env (requests w ++ map (absolute siteURL) (take k links))%list
          (absolute siteURL link)
        = Response StatusOK body true
        /\ disk w1 !! filepath.Join downloadPath (ordinal_name (i + k)) = Some body)
  /\ (forall path,
         (forall k, k < List.length links ->
                    path <> filepath.Join downloadPath (ordinal_name (i + k))) ->
         disk w1 !! path = disk w !! path).
Proof.
  revert i w. induction links as [|link links IH]; intros i w H.
  - cbn in H. injection H as <-. split; [intros k link [=]|reflexivity].
  - cbn [download_loop] in H.
    destruct (downloadFile env w (absolute siteURL link)
                (filepath.Join downloadPath (ordinal_name i))) as [w0 [e|]] eqn:D;
      [discriminate|].
    apply downloadFile_ok in D as (body & Hget & _ & ->).
    destruct (IH _ _ H) as [Hfiles Hframe]. cbn [requests disk] in *.
    split.
    + intros [|k] l Hl.
      * injection Hl as ->. exists body. cbn [take map]. rewrite app_nil_r, Nat.add_0_r.
        split; [assumption|].
        rewrite Hframe; [now rewrite lookup_insert_eq|].
        intros k _ E. apply Join_inj, ordinal_name_inj in E. lia.
      * cbn in Hl. destruct (Hfiles k l Hl) as (body' & Hget' & Hdisk).
        exists body'. cbn [take map]. rewrite <- app_assoc in Hget'.
        split; [exact Hget'|].
        now replace (i + S k) with (S i + k) by lia.
    + intros path Hp. rewrite Hframe.
      * apply lookup_insert_ne. intros E. apply (Hp 0); [cbn; lia|].
        now rewrite Nat.add_0_r.
      * intros k Hk. replace (S i + k) with (i + S k) by lia.
        apply Hp. cbn. lia.
Qed.

(** X15: a batch that ends without error has requested each link once, in
    order; the document of the link at place [k] is in the file
    [adp_(i+k+1).pdf] of the download directory, whatever that file held
    before; and no other file has changed. *)
Theorem download_loop_success i links w w1 :
  download_loop env siteURL downloadPath i links w = (w1, None) ->
  requests w1 = (requests w ++ map (absolute siteURL) links)%list
  /\ (forall k link,
         links !! k = Some link ->
         exists body,
           Get env (requests w ++ map (absolute siteURL) (take k links))%list
             (absolute siteURL link)
           = Response StatusOK body true
           /\ disk w1 !! filepath.Join downloadPath (ordinal_name (i + k)) = Some body)
  /\ (forall path,
         (forall k, k < List.length links ->
                    path <> filepath.Join downloadPath (ordinal_name (i + k))) ->
         disk w1 !! path = disk w !! path).
Proof.
  intros H. split; [now apply download_loop_ok_requests in H|].
  now apply download_loop_files.
Qed.

(** X16: with a site URL that starts with [https], the URL requested for a
    link starts with [https], whatever the link is; and whatever the
    outcome of the batch, its requests are such URLs, for the links up to
    some place. *)
Theorem download_loop_requests_https i links w :
  GoStrings.HasPrefix siteURL "https" = true ->
  (forall link, GoStrings.HasPrefix (absolute siteURL link) "https" = true)
  /\ exists urls,
       requests (fst (download_loop env siteURL downloadPath i links w))
       = (requests w ++ urls)%list
       /\ Forall (fun u => GoStrings.HasPrefix u "https" = true) urls.
Proof.
  intros Hs.
  assert (Ha : forall link, GoStrings.HasPrefix (absolute siteURL link) "https" = true).
  { intros link. unfold absolute.
    destruct (GoStrings.HasPrefix link "https") eqn:E; cbn [negb]; [assumption|].
    unfold GoStrings.HasPrefix in *. now apply prefix_append. }
  split; [assumption|].
  destruct (download_loop_requests i links w) as [k Hk].
  exists (map (absolute siteURL) (take k links)). split; [assumption|].
  apply List.Forall_forall. intros u Hu. apply in_map_iff in Hu as (l & <- & _). apply Ha.
Qed.

(** A download touches no file but its own. *)
Lemma downloadFile_frame w urlStr path w' r path' :
  downloadFile env w urlStr path = (w', r) -> path' <> path ->
  disk w' !! path' = disk w !! path'.
Proof.
  unfold downloadFile. intros H Hne.
  destruct (Creatable env path); cbn [negb] in H; [|now injection H as <- _].
  cbn [requests disk] in H.
  destruct (Get env (requests w) urlStr) as [msg|code body complete].
  - injection H as <- _. cbn. now rewrite lookup_insert_ne by congruence.
  - destruct (code =? StatusOK)%nat; cbn [negb] in H.
    + destruct complete; injection H as <- _; cbn;
        now rewrite !lookup_insert_ne by congruence.
    + injection H as <- _. cbn. now rewrite lookup_insert_ne by congruence.
Qed.

(** The loop, however it ends, touches no file but those of its links. *)
Lemma download_loop_frame i links w w' r path :
  download_loop env siteURL downloadPath i links w = (w', r) ->
  (forall k, k < List.length links ->
             path <> filepath.Join downloadPath (ordinal_name (i + k))) ->
  disk w' !! path = disk w !! path.
Proof.
  revert i w. induction links as [|link links IH]; intros i w H Hp.
  - cbn in H. now injection H as <- _.
  - cbn [download_loop] in H.
    destruct (downloadFile env w (absolute siteURL link)
                (filepath.Join downloadPath (ordinal_name i))) as [w0 [e|]] eqn:D.
    + injection H as <- _. eapply downloadFile_frame; [exact D|].
      specialize (Hp 0 ltac:(cbn; lia)). now rewrite Nat.add_0_r in Hp.
    + rewrite (IH _ _ H).
      * eapply downloadFile_frame; [exact D|].
        specialize (Hp 0 ltac:(cbn; lia)). now rewrite Nat.add_0_r in Hp.
      * intros k Hk. replace (S i + k) with (i + S k) by lia. apply Hp. cbn. lia.
Qed.

(** X18: a batch that fails does not take back what it has done: the error
    names the link at some place [k], made absolute, and for every link
    before that place the file [adp_(i+j+1).pdf] holds the document the
    server sent for it. *)
Theorem download_loop_failure_keeps_earlier i links w w2 url e :
  download_loop env siteURL downloadPath i links w = (w2, Some (url, e)) ->
  exists k link,
    links !! k = Some link
    /\ url = absolute siteURL link
    /\ forall j l,
         j < k -> links !! j = Some l ->
         exists body,
           Get env (requests w ++ map (absolute siteURL) (take j links))%list
             (absolute siteURL l)
           = Response StatusOK body true
           /\ disk w2 !! filepath.Join downloadPath (ordinal_name (i + j)) = Some body.
Proof.
  revert i w. induction links as [|link links IH]; intros i w H; [discriminate|].
  cbn [download_loop] in H.
  destruct (downloadFile env w (absolute siteURL link)
              (filepath.Join downloadPath (ordinal_name i))) as [w0 [e0|]] eqn:D.
  - injection H as <- <- <-. exists 0, link. split; [reflexivity|].
    split; [reflexivity|]. intros j l Hj. lia.
  - destruct (IH _ _ H) as (k & lk & Hk & -> & Hearlier).
    exists (S k), lk. split; [exact Hk|]. split; [reflexivity|].
    apply downloadFile_ok in D as (body & Hget & _ & ->). cbn [requests disk] in *.
    intros [|j] l Hj Hl.
    + injection Hl as ->. exists body. cbn [take map]. rewrite app_nil_r, Nat.add_0_r.
      split; [assumption|].
      rewrite (download_loop_frame _ _ _ _ _ _ H);
        [cbn [disk]; now rewrite lookup_insert_eq|].
      intros k' _ E. apply Join_inj, ordinal_name_inj in E. lia.
    + cbn in Hl. destruct (Hearlier j l ltac:(lia) Hl) as (body' & Hget' & Hdisk).
      exists body'. cbn [take map]. rewrite <- app_assoc in Hget'.
      split; [exact Hget'|].
      now replace (i + S j) with (S i + j) by lia.
Qed.

End Batch.

Section BatchExamples.

Import download.

(** A server that answers every request with the document asked for: the
    second link's document is in [adp_2.pdf]. *)
Lemma download_loop_success_witness :
  let env := mkEnv (fun _ u => Response 200 ("%PDF " +:+ u) true) (fun _ => true) in
  let site := "https://adpworld.adp.com" in
  let links := ["/AdpwAdpaWeb/DocDownload?id=7"; "/AdpwAdpaWeb/DocDownload?id=8"] in
  let w := mkWorld ∅ [] in
  let w1 := fst (download_loop env site "adp" 0 links w) in
  exists body,
    Get env (requests w ++ map (absolute site) (take 1 links))%list
      (absolute site "/AdpwAdpaWeb/DocDownload?id=8")
    = Response StatusOK body true
    /\ disk w1 !! filepath.Join "adp" (ordinal_name (0 + 1)) = Some body.
Proof.
  intros env site links w w1.
  apply (proj1 (proj2 (download_loop_success env site "adp" 0 links w w1 eq_refl))
           1 "/AdpwAdpaWeb/DocDownload?id=8" eq_refl).
Defined.

(** The link with the scheme [http] and a server that lacks the second
    document. *)
Lemma download_loop_requests_https_witness :
  let links := ["http://adpworld.adp.com/AdpwAdpaWeb/DocDownload?id=1";
                "/AdpwAdpaWeb/DocDownload?id=2";
                "/AdpwAdpaWeb/DocDownload?id=3"] in
  exists urls,
    requests (fst (download_loop second_missing "https://adpworld.adp.com" "adp" 0
                     links (mkWorld ∅ [])))
    = ([] ++ urls)%list
    /\ Forall (fun u => GoStrings.HasPrefix u "https" = true) urls.
Proof.
  intros links.
  apply (proj2 (download_loop_requests_https second_missing "https://adpworld.adp.com"
                  "adp" 0 links (mkWorld ∅ []) eq_refl)).
Defined.

(** The server that lacks the second document: the first is on disk. *)
Lemma download_loop_failure_keeps_earlier_witness :
  let site := "https://adpworld.adp.com" in
  let links := ["/a"; "/b"; "/c"] in
  let w := mkWorld ∅ [] in
  let w2 := mkWorld (<[ "adp/adp_2.pdf" := "" ]> {[ "adp/adp_1.pdf" := "%PDF" ]})
              ["https://adpworld.adp.com/a"; "https://adpworld.adp.com/b"] in
  exists k link,
    links !! k = Some link
    /\ "https://adpworld.adp.com/b" = absolute site link
    /\ forall j l,
         j < k -> links !! j = Some l ->
         exists body,
           Get second_missing (requests w ++ map (absolute site) (take j links))%list
             (absolute site l)
           = Response StatusOK body true
           /\ disk w2 !! filepath.Join "adp" (ordinal_name (0 + j)) = Some body.
Proof.
  intros site links w w2.
  apply (download_loop_failure_keeps_earlier second_missing site "adp" 0 links w w2
           "https://adpworld.adp.com/b" (BadStatus 404)).
  reflexivity.
Defined.

End BatchExamples.

(** ** Link discovery *)
Section Links.

Import download.

Variable site : portal.

Lemma each_anchor_filter anchors pageLinks :
  each_anchor anchors pageLinks = (pageLinks ++ download_links anchors)%list.
Proof.
  unfold download_links. revert pageLinks.
  induction anchors as [|s rest IH]; intros pageLinks; cbn [each_anchor omap].
  - cbn. now rewrite app_nil_r.
  - rewrite IH. destruct s as [href|]; cbn [id List.filter option_bind mbind]; [|reflexivity].
    cbn. destruct (GoStrings.Contains href "/AdpwAdpaWeb/DocDownload"); [|reflexivity].
    now rewrite <- app_assoc.
Qed.

Lemma download_links_marked anchors :
  Forall (fun href => GoStrings.Contains href "/AdpwAdpaWeb/DocDownload" = true)
    (download_links anchors).
Proof.
  apply List.Forall_forall. intros href H. unfold download_links in H.
  now apply filter_In in H as [_ H].
Qed.

(** The loop over pages that end with a last page returns the links of
    the pages, page after page. *)
Lemma findPDFLinks_loop_paged pages :
  forall fuel currentPage pdfLinks,
    paged site currentPage pages ->
    List.length pages <= fuel ->
    findPDFLinks_loop site fuel currentPage pdfLinks
    = Some (inl (pdfLinks ++ flat_map download_links pages)%list).
Proof.
  induction pages as [|anchors rest IH]; intros fuel currentPage pdfLinks Hp Hf;
    [contradiction|].
  destruct fuel as [|fuel]; [cbn in Hf; lia|].
  cbn [paged] in Hp. destruct Hp as [(html & Hh & Ha) Hnext].
  cbn [findPDFLinks_loop flat_map]. rewrite Hh, Ha, each_anchor_filter. cbn [app].
  destruct rest as [|anchors' rest].
  - rewrite Hnext. cbn [flat_map]. now rewrite app_nil_r.
  - destruct Hnext as (Hd & Hc & Hrest). rewrite Hd, Hc.
    rewrite (IH fuel (S currentPage)); [|assumption|cbn in Hf |- *; lia].
    now rewrite <- app_assoc.
Qed.

(** The loop returns links only for such pages. *)
Lemma findPDFLinks_loop_links fuel :
  forall currentPage pdfLinks links,
    findPDFLinks_loop site fuel currentPage pdfLinks = Some (inl links) ->
    exists pages,
      paged site currentPage pages
      /\ List.length pages <= fuel
      /\ links = (pdfLinks ++ flat_map download_links pages)%list.
Proof.
  induction fuel as [|fuel IH]; intros currentPage pdfLinks links; [discriminate|].
  cbn [findPDFLinks_loop].
  destruct (OuterHTML site currentPage) as [html|] eqn:Hh; [|discriminate].
  destruct (Anchors site html) as [anchors|] eqn:Ha; [|discriminate].
  rewrite each_anchor_filter. cbn [app].
  destruct (NextPageDisabled site currentPage) as [[|]|] eqn:Hd; [| |discriminate].
  - intros [= <-]. exists [anchors]. cbn [paged flat_map List.length].
    rewrite app_nil_r. split; [|split; [lia|reflexivity]].
    split; [|assumption]. now exists html.
  - destruct (ClickNextPage site currentPage) eqn:Hc; [|discriminate].
    intros H. apply IH in H as (pages & Hp & Hl & ->).
    exists (anchors :: pages). split; [|split].
    + cbn [paged]. split; [now exists html|].
      destruct pages as [|anchors' rest]; [contradiction|]. auto.
    + cbn [List.length]. lia.
    + cbn [flat_map]. now rewrite <- app_assoc.
Qed.

(** Without a last page the loop does not end. *)
Lemma findPDFLinks_loop_endless fuel :
  forall currentPage pdfLinks,
    (forall n, currentPage <= n ->
               (exists html anchors, OuterHTML site n = Some html
                                     /\ Anchors site html = Some anchors)
               /\ NextPageDisabled site n = Some false
               /\ ClickNextPage site n = true) ->
    findPDFLinks_loop site fuel currentPage pdfLinks = None.
Proof.
  induction fuel as [|fuel IH]; intros currentPage pdfLinks H; [reflexivity|].
  cbn [findPDFLinks_loop].
  destruct (H currentPage (le_n _)) as ((html & anchors & -> & Ha) & -> & ->).
  rewrite Ha. apply IH. intros n Hn. apply H. lia.
Qed.

(** X12: [findPDFLinks] returns links exactly for a document list that ends
    with a page whose button for the next page is missing or disabled; the
    links are the [href] attributes that hold the download path, in the
    order of the pages and, on a page, of the document, repeated as often
    as they occur. *)
Theorem findPDFLinks_collects fuel links :
  findPDFLinks site fuel = Some (inl links)
  <-> exists pages,
        paged site 1 pages
        /\ List.length pages <= fuel
        /\ links = flat_map download_links pages.
Proof.
  unfold findPDFLinks. split.
  - intros H. apply findPDFLinks_loop_links in H as (pages & Hp & Hl & ->).
    now exists pages.
  - intros (pages & Hp & Hl & ->).
    now rewrite (findPDFLinks_loop_paged pages fuel 1 [] Hp Hl).
Qed.

(** X13: every link that [findPDFLinks] returns holds the download path
    [/AdpwAdpaWeb/DocDownload]: no other anchor of the pages is passed on
    to the downloads. *)
Theorem findPDFLinks_only_downloads fuel links :
  findPDFLinks site fuel = Some (inl links) ->
  Forall (fun link => GoStrings.Contains link "/AdpwAdpaWeb/DocDownload" = true) links.
Proof.
  unfold findPDFLinks. intros H.
  apply findPDFLinks_loop_links in H as (pages & _ & _ & ->). cbn [app].
  apply List.Forall_forall. intros link Hl.
  apply in_flat_map in Hl as (anchors & _ & Hl).
  pose proof (download_links_marked anchors) as Hm.
  rewrite List.Forall_forall in Hm. now apply Hm.
Qed.

(** X14: the loop has no bound of its own: as long as every page has a button
    for the next page that is not disabled, and every step goes through,
    [findPDFLinks] goes on to the next page and does not return. *)
Theorem findPDFLinks_without_last_page :
  (forall n, 1 <= n ->
             (exists html anchors, OuterHTML site n = Some html
                                   /\ Anchors site html = Some anchors)
             /\ NextPageDisabled site n = Some false
             /\ ClickNextPage site n = true) ->
  forall fuel, findPDFLinks site fuel = None.
Proof.
  intros H fuel. unfold findPDFLinks. now apply findPDFLinks_loop_endless.
Qed.

End Links.

Section LinksExamples.

Import download.

Lemma findPDFLinks_collects_witness :
  findPDFLinks two_pages 2
  = Some (inl ["/AdpwAdpaWeb/DocDownload?id=1";
               "/AdpwAdpaWeb/DocDownload?id=2";
               "/AdpwAdpaWeb/DocDownload?id=3"]).
Proof.
  apply (proj2 (findPDFLinks_collects two_pages 2 _)).
  exists [[Some "/AdpwAdpaWeb/DocDownload?id=1"; Some "/AdpwAdpaWeb/DocDownload?id=2"];
          [Some "/AdpwAdpaWeb/DocDownload?id=3"; Some "/logout"; None]].
  split; [|split; [cbn; lia|reflexivity]].
  cbn. split; [now exists "<html>1"|]. split; [reflexivity|]. split; [reflexivity|].
  split; [now exists "<html>2"|reflexivity].
Defined.

Lemma findPDFLinks_only_downloads_witness :
  Forall (fun link => GoStrings.Contains link "/AdpwAdpaWeb/DocDownload" = true)
    ["/AdpwAdpaWeb/DocDownload?id=1";
     "/AdpwAdpaWeb/DocDownload?id=2";
     "/AdpwAdpaWeb/DocDownload?id=3"].
Proof.
  apply (findPDFLinks_only_downloads two_pages 2). reflexivity.
Defined.

(** A list whose every page has a next one. *)
Lemma findPDFLinks_without_last_page_witness :
  findPDFLinks
    (mkPortal (fun _ => Some "<html>") (fun _ => Some [Some "/AdpwAdpaWeb/DocDownload"])
       (fun _ => Some false) (fun _ => true))
    1000
  = None.
Proof.
  apply findPDFLinks_without_last_page.
  intros n _. split; [|split; reflexivity].
  exists "<html>", [Some "/AdpwAdpaWeb/DocDownload"]. split; reflexivity.
Defined.

End LinksExamples.

(** ** Paths of plain file names *)
Section PlainNames.

Import process.

Implicit Types (a b s t dir name : string).

Lemma get_append_r a b i : get (String.length a + i) (a +:+ b) = get i b.
Proof. induction a as [|c a IH]; [reflexivity|]. rewrite append_cons. exact IH. Qed.

Lemma substring_append_l a b : substring 0 (String.length a) (a +:+ b) = a.
Proof.
  induction a as [|c a IH]; [apply substring_0_0|].
  rewrite append_cons. cbn. now rewrite IH.
Qed.

Lemma substring_append_r a b :
  substring (String.length a) (String.length b) (a +:+ b) = b.
Proof.
  pose proof (substring_middle a b "") as H. now rewrite append_nil_r in H.
Qed.

(** The extension of a path that ends in [.pdf]. *)
Lemma Ext_pdf a : filepath.Ext (a +:+ ".pdf") = ".pdf".
Proof.
  unfold filepath.Ext. rewrite length_append. cbn [String.length].
  replace (String.length a + 4) with (S (String.length a + 3)) by lia.
  cbn [filepath.Ext_loop]. rewrite get_append_r. cbn [get filepath.IsPathSeparator Ascii.eqb].
  cbn. replace (String.length a + 3) with (S (String.length a + 2)) by lia.
  cbn [filepath.Ext_loop]. rewrite get_append_r. cbn.
  replace (String.length a + 2) with (S (String.length a + 1)) by lia.
  cbn [filepath.Ext_loop]. rewrite get_append_r. cbn.
  replace (String.length a + 1) with (S (String.length a + 0)) by lia.
  cbn [filepath.Ext_loop]. rewrite get_append_r. cbn.
  rewrite length_append, Nat.add_0_r. cbn [String.length].
  replace (String.length a + 4 - String.length a) with (String.length ".pdf") by (cbn; lia).
  apply substring_append_r.
Qed.

Lemma HasSuffix_pdf a : GoStrings.HasSuffix (a +:+ ".pdf") ".pdf" = true.
Proof.
  unfold GoStrings.HasSuffix. rewrite length_append. cbn [String.length].
  replace (String.length a + 4 - 4) with (String.length a) by lia.
  pose proof (substring_append_r a ".pdf") as H. cbn [String.length] in H.
  rewrite H, String.eqb_refl, andb_true_r.
  apply Nat.leb_le. lia.
Qed.

(** The allocator puts [_2] in front of [.pdf]. *)
Lemma ensureUniqueFilename_pdf (fs : gmap string file) a :
  ensureUniqueFilename fs (a +:+ ".pdf")
  = if notExist fs (a +:+ ".pdf") then a +:+ ".pdf" else a +:+ "_2.pdf".
Proof.
  unfold ensureUniqueFilename. destruct (notExist fs _); [reflexivity|].
  rewrite Ext_pdf, length_append. cbn [String.length].
  replace (String.length a + 4 - 4) with (String.length a) by lia.
  now rewrite substring_append_l.
Qed.

(** [Join] puts the name behind a prefix that is empty or ends with the
    separator. *)
Lemma Join_prefix dir :
  exists a, (a = "" \/ exists a', a = a' +:+ "/")
            /\ forall name, filepath.Join dir name = a +:+ name.
Proof.
  unfold filepath.Join.
  destruct (String.eqb dir ""); [exists ""; split; [now left|reflexivity]|].
  destruct (String.eqb dir "/").
  - exists "/". split; [right; now exists ""|reflexivity].
  - exists (dir +:+ "/"). split; [right; now exists dir|].
    intros name. now rewrite append_assoc.
Qed.

Lemma Join_append dir s t : filepath.Join dir (s +:+ t) = filepath.Join dir s +:+ t.
Proof.
  destruct (Join_prefix dir) as (a & _ & E). now rewrite !E, append_assoc.
Qed.

Lemma no_separator_append s t :
  no_separator (s +:+ t) = no_separator s && no_separator t.
Proof.
  unfold no_separator. induction s as [|c s IH]; [reflexivity|].
  rewrite append_cons. cbn [list_ascii_of_string forallb]. now rewrite IH, andb_assoc.
Qed.

Lemma no_separator_get name i c :
  no_separator name = true -> get i name = Some c ->
  filepath.IsPathSeparator c = false.
Proof.
  unfold no_separator. revert i. induction name as [|d name IH]; intros [|i] H Hg;
    cbn in H, Hg; try discriminate; apply andb_true_iff in H as [Hd H].
  - injection Hg as <-. now apply negb_true_iff.
  - eapply IH; eassumption.
Qed.

(** Behind a name without separator, the scan for the last element stops
    where the name begins. *)
Lemma last_element_name a name k :
  no_separator name = true -> k <= String.length name ->
  filepath.last_element (a +:+ name) (String.length a + k)
  = filepath.last_element (a +:+ name) (String.length a).
Proof.
  intros Hn. induction k as [|k IH]; intros Hk; [now rewrite Nat.add_0_r|].
  replace (String.length a + S k) with (S (String.length a + k)) by lia.
  cbn [filepath.last_element]. rewrite get_append_r.
  destruct (get k name) as [c|] eqn:Hg.
  - rewrite (no_separator_get name k c Hn Hg). apply IH. lia.
  - exfalso. clear -Hg Hk. revert k Hg Hk.
    induction name as [|d name IH]; intros [|k] Hg Hk; cbn in *; try discriminate; try lia.
    eapply IH; [eassumption|lia].
Qed.

Lemma strip_trailing_name a name :
  no_separator name = true -> name <> "" ->
  filepath.strip_trailing (a +:+ name) (String.length (a +:+ name)) = a +:+ name.
Proof.
  intros Hn Hne. rewrite length_append.
  destruct (String.length name) as [|k] eqn:Hk; [now destruct name|].
  replace (String.length a + S k) with (S (String.length a + k)) by lia.
  cbn [filepath.strip_trailing]. rewrite get_append_r.
  assert (E : S (String.length a + k) = String.length (a +:+ name))
    by (rewrite length_append; lia).
  destruct (get k name) as [c|] eqn:Hg.
  - rewrite (no_separator_get name k c Hn Hg), E. apply substring_0_length.
  - rewrite E. apply substring_0_length.
Qed.

(** The last element of a path made by [Join] is the name. *)
Lemma Base_Join dir name :
  no_separator name = true -> name <> "" ->
  filepath.Base (filepath.Join dir name) = name.
Proof.
  intros Hn Hne. destruct (Join_prefix dir) as (a & Ha & E). rewrite E.
  unfold filepath.Base.
  assert (Hnonempty : forall s, s +:+ name <> "").
  { intros s H. apply (f_equal String.length) in H. rewrite length_append in H.
    destruct name; [congruence|cbn in H; lia]. }
  destruct (String.eqb (a +:+ name) "") eqn:E0;
    [apply String.eqb_eq in E0; now destruct (Hnonempty a)|].
  rewrite (strip_trailing_name a name Hn Hne).
  rewrite length_append, (last_element_name a name _ Hn (le_n _)).
  assert (El : filepath.last_element (a +:+ name) (String.length a) = name).
  { destruct Ha as [->|[a' ->]]; [reflexivity|].
    rewrite length_append. cbn [String.length].
    replace (String.length a' + 1) with (S (String.length a' + 0)) by lia.
    cbn [filepath.last_element].
    rewrite (append_assoc a' "/" name), get_append_r.
    change (get 0 ("/" +:+ name)) with (Some "/"%char).
    change (filepath.IsPathSeparator "/") with true. cbv iota.
    rewrite <- (append_assoc a' "/" name).
    replace (S (String.length a' + 0)) with (String.length (a' +:+ "/"))
      by (rewrite length_append; cbn; lia).
    rewrite (length_append (a' +:+ "/") name), Nat.add_comm, Nat.add_sub.
    apply substring_append_r. }
  rewrite El. destruct (String.eqb name "") eqn:E1; [|reflexivity].
  apply String.eqb_eq in E1. contradiction.
Qed.

(** A path made by [Join] from a name that ends in [.pdf] is a PDF of the
    directory. *)
Lemma pdf_of_Join dir stem :
  no_separator stem = true ->
  pdf_of dir (filepath.Join dir (stem +:+ ".pdf")) = true.
Proof.
  intros Hs. unfold pdf_of, in_dir.
  rewrite Base_Join.
  - rewrite String.eqb_refl, Join_append. apply HasSuffix_pdf.
  - rewrite no_separator_append, Hs. reflexivity.
  - intros H. apply (f_equal String.length) in H. rewrite length_append in H.
    cbn in H. lia.
Qed.

(** The path the allocator returns for a name that ends in [.pdf]. *)
Lemma ensureUniqueFilename_Join (fs : gmap string file) dir stem :
  ensureUniqueFilename fs (filepath.Join dir (stem +:+ ".pdf"))
  = if notExist fs (filepath.Join dir (stem +:+ ".pdf"))
    then filepath.Join dir (stem +:+ ".pdf")
    else filepath.Join dir (stem +:+ "_2.pdf").
Proof. now rewrite !Join_append, ensureUniqueFilename_pdf. Qed.

Lemma pdf_of_allocated (fs : gmap string file) dir stem :
  no_separator stem = true ->
  pdf_of dir (ensureUniqueFilename fs (filepath.Join dir (stem +:+ ".pdf"))) = true.
Proof.
  intros Hs. rewrite ensureUniqueFilename_Join.
  destruct (notExist fs _); [now apply pdf_of_Join|].
  change "_2.pdf" with ("_2" +:+ ".pdf"). rewrite <- append_assoc.
  apply pdf_of_Join. rewrite no_separator_append, Hs. reflexivity.
Qed.

Lemma pdf_name_nonempty stem : stem +:+ ".pdf" <> "".
Proof.
  intros E. apply (f_equal String.length) in E. rewrite length_append in E.
  cbn in E. lia.
Qed.

Lemma suffixed_differs dir stem :
  filepath.Join dir (stem +:+ ".pdf") <> filepath.Join dir (stem +:+ "_2.pdf").
Proof.
  intros E. apply Join_inj, (f_equal String.length) in E.
  rewrite !length_append in E. cbn in E. lia.
Qed.

Lemma made_of_no_separator alphabet s :
  forallb no_separator alphabet = true -> regexp.made_of alphabet s ->
  no_separator s = true.
Proof.
  intros Ha. induction 1 as [|l s Hl _ IH]; [reflexivity|].
  rewrite no_separator_append, IH, andb_true_r.
  rewrite forallb_forall in Ha. now apply Ha.
Qed.

Lemma repeat_of_made_of n alphabet s :
  regexp.repeat_of n alphabet s -> regexp.made_of alphabet s.
Proof.
  revert s. induction n as [|n IH]; intros s; cbn [regexp.repeat_of].
  - intros ->. constructor.
  - intros (l & s' & Hl & -> & Hs'). constructor; auto.
Qed.

Lemma word_no_separator M : word M -> no_separator M = true.
Proof. intros [_ H]. eapply made_of_no_separator; [|exact H]. vm_compute. reflexivity. Qed.

Lemma year_no_separator Y : year Y -> no_separator Y = true.
Proof.
  intros H. apply repeat_of_made_of in H.
  eapply made_of_no_separator; [|exact H]. vm_compute. reflexivity.
Qed.

End PlainNames.

(** ** Plain directories: [Join] is [Clean] of the joined path *)
Section PlainDirectories.

Import filepath process.

Implicit Types (s t out : string) (c : ascii).

(** The element copied is free of separators, and the rest begins with
    one or is empty. *)
Lemma element_spec s :
  s = fst (element s) +:+ snd (element s)
  /\ no_separator (fst (element s)) = true
  /\ ends_element (snd (element s)) = true.
Proof.
  induction s as [|c s (E & Hn & He)]; cbn [element]; [repeat split|].
  destruct (IsPathSeparator c) eqn:Hc; cbn [fst snd].
  - repeat split. cbn [ends_element]. exact Hc.
  - destruct (element s) as [copied rest]. cbn [fst snd] in *.
    rewrite append_cons, <- E. split; [reflexivity|]. split; [|assumption].
    unfold no_separator in *. cbn [list_ascii_of_string forallb]. now rewrite Hc, Hn.
Qed.

(** The elements of a path: the first, and those of the rest behind the
    separator. *)
Lemma elements_element s acc :
  elements s acc
  = match snd (element s) with
    | EmptyString => [acc +:+ fst (element s)]
    | String _ rest => (acc +:+ fst (element s)) :: elements rest ""
    end.
Proof.
  revert acc. induction s as [|c s IH]; intros acc; cbn [elements element].
  - now rewrite append_nil_r.
  - destruct (IsPathSeparator c); cbn [fst snd].
    + now rewrite append_nil_r.
    + rewrite IH. destruct (element s) as [copied rest]. cbn [fst snd].
      rewrite append_assoc, append_cons, append_nil_l. reflexivity.
Qed.

Lemma elements_no_separator s acc :
  no_separator s = true -> elements s acc = [acc +:+ s].
Proof.
  revert acc. induction s as [|c s IH]; intros acc H; cbn [elements].
  - now rewrite append_nil_r.
  - unfold no_separator in H. cbn [list_ascii_of_string forallb] in H.
    apply andb_true_iff in H as [Hc H]. apply negb_true_iff in Hc. rewrite Hc.
    rewrite IH by exact H. now rewrite append_assoc.
Qed.

Lemma elements_append s t acc :
  elements (s +:+ "/" +:+ t) acc = (elements s acc ++ elements t "")%list.
Proof.
  revert acc. induction s as [|c s IH]; intros acc.
  - reflexivity.
  - rewrite append_cons. cbn [elements].
    destruct (IsPathSeparator c); [cbn [app]; f_equal|]; apply IH.
Qed.

(** A name is no [.] and no [..] element of the path it begins. *)
Lemma real_element_first c copied rest :
  real_element (String c copied) = true ->
  no_separator (String c copied) = true ->
  ends_element rest = true ->
  IsPathSeparator c = false
  /\ Ascii.eqb c "." && ends_element (copied +:+ rest) = false
  /\ Ascii.eqb c "."
     && match copied +:+ rest with
        | String d rest2 => Ascii.eqb d "." && ends_element rest2
        | EmptyString => false
        end = false.
Proof.
  intros Hr Hn He. unfold no_separator in Hn. cbn [list_ascii_of_string forallb] in Hn.
  apply andb_true_iff in Hn as [Hc Hn]. apply negb_true_iff in Hc.
  split; [exact Hc|].
  destruct (Ascii.eqb c ".") eqn:Hdot; [|split; reflexivity].
  apply Ascii.eqb_eq in Hdot. subst c. cbn [andb].
  destruct copied as [|d copied]; [discriminate Hr|].
  cbn [list_ascii_of_string forallb] in Hn.
  apply andb_true_iff in Hn as [Hd Hn]. apply negb_true_iff in Hd.
  rewrite append_cons. cbn [ends_element]. split; [exact Hd|].
  destruct (Ascii.eqb d ".") eqn:Hdot; [|reflexivity].
  apply Ascii.eqb_eq in Hdot. subst d. cbn [andb].
  destruct copied as [|x copied]; [discriminate Hr|].
  cbn [list_ascii_of_string forallb] in Hn.
  apply andb_true_iff in Hn as [Hx _]. apply negb_true_iff in Hx.
  rewrite append_cons. cbn [ends_element]. exact Hx.
Qed.

(** The loop of [Clean] over names with one separator between them copies
    the path to the buffer, behind a separator when the buffer holds more
    than the root. *)
Lemma Clean_loop_names n : forall s fuel rooted out dotdot,
  String.length s <= n ->
  String.length s <= fuel ->
  forallb real_element (elements s "") = true ->
  (rooted = true -> 1 <= String.length out) ->
  Clean_loop fuel rooted s out dotdot
  = (if rooted && negb (String.length out =? 1)%nat
        || negb rooted && negb (String.length out =? 0)%nat
     then out +:+ "/" else out) +:+ s.
Proof.
  induction n as [|n IH]; intros s fuel rooted out dotdot Hn Hfuel Hreal Hout.
  { destruct s; [discriminate Hreal|cbn in Hn; lia]. }
  destruct s as [|c s1]; [discriminate Hreal|].
  destruct fuel as [|fuel]; [cbn in Hfuel; lia|].
  rewrite elements_element in Hreal.
  destruct (element_spec (String c s1)) as (E & Hsep & Hend).
  destruct (element (String c s1)) as [copied rest] eqn:Hel. cbn [fst snd] in *.
  assert (Hcopied : real_element copied = true)
    by (destruct rest; cbn [forallb] in Hreal; apply andb_true_iff in Hreal as [H _];
        exact H).
  destruct copied as [|c' copied]; [discriminate Hcopied|].
  rewrite append_cons in E. injection E as <- E.
  destruct (real_element_first c copied rest Hcopied Hsep Hend) as (H1 & H2 & H3).
  rewrite <- E in H2, H3.
  cbn [Clean_loop]. rewrite H1, H2, H3, Hel.
  set (out1 := if rooted && negb (String.length out =? 1)%nat
                  || negb rooted && negb (String.length out =? 0)%nat
               then out +:+ "/" else out).
  assert (Hlen : String.length out <= String.length out1).
  { unfold out1. destruct (_ || _); [rewrite length_append|]; lia. }
  rewrite E.
  destruct rest as [|d rest].
  - rewrite append_nil_r. now destruct fuel.
  - cbn [ends_element] in Hend. unfold IsPathSeparator in Hend.
    apply Ascii.eqb_eq in Hend. subst d.
    cbn [forallb] in Hreal. apply andb_true_iff in Hreal as [_ Hreal].
    assert (Hs1 : String.length s1 = String.length copied + S (String.length rest))
      by (rewrite E, length_append; reflexivity).
    cbn [String.length] in Hn, Hfuel.
    destruct fuel as [|fuel]; [lia|].
    change (Clean_loop (S fuel) rooted (String "/" rest) ?o dotdot)
      with (Clean_loop fuel rooted rest o dotdot).
    rewrite (IH rest fuel rooted (out1 +:+ String c copied) dotdot);
      [|lia|lia|exact Hreal|rewrite length_append; cbn [String.length]; lia].
    rewrite length_append. cbn [String.length].
    assert (Hneed : rooted && negb (String.length out1 + S (String.length copied) =? 1)%nat
                    || negb rooted
                       && negb (String.length out1 + S (String.length copied) =? 0)%nat
                    = true).
    { destruct rooted.
      - assert ((String.length out1 + S (String.length copied) =? 1)%nat = false) as ->
          by (apply Nat.eqb_neq; specialize (Hout eq_refl); lia).
        reflexivity.
      - assert ((String.length out1 + S (String.length copied) =? 0)%nat = false) as ->
          by (apply Nat.eqb_neq; lia).
        reflexivity. }
    rewrite Hneed, !append_assoc. reflexivity.
Qed.

(** [Clean] leaves a path of names as it is. *)
Lemma Clean_names s :
  forallb real_element (elements s "") = true ->
  Clean s = s /\ Clean ("/" +:+ s) = "/" +:+ s.
Proof.
  intros Hreal.
  assert (Hne : exists c s1, s = String c s1 /\ IsPathSeparator c = false).
  { rewrite elements_element in Hreal.
    destruct (element_spec s) as (E & Hsep & _).
    destruct (element s) as [copied rest]. cbn [fst snd] in *.
    assert (Hcopied : real_element copied = true)
      by (destruct rest; cbn [forallb] in Hreal; apply andb_true_iff in Hreal as [H _];
          exact H).
    destruct copied as [|c copied]; [discriminate Hcopied|].
    exists c, (copied +:+ rest). split; [now rewrite E, append_cons|].
    unfold no_separator in Hsep. cbn [list_ascii_of_string forallb] in Hsep.
    apply andb_true_iff in Hsep as [Hc _]. now apply negb_true_iff. }
  destruct Hne as (c & s1 & -> & Hc). split.
  - unfold Clean. rewrite Hc.
    rewrite (Clean_loop_names (String.length (String c s1)))
      by (try exact Hreal; try discriminate; lia).
    reflexivity.
  - rewrite append_cons, append_nil_l. unfold Clean.
    change (IsPathSeparator "/") with true. cbn iota.
    rewrite (Clean_loop_names (String.length (String c s1)))
      by (try exact Hreal; cbn [String.length]; lia).
    reflexivity.
Qed.

(** For a directory written plainly and a name of a file, the path that
    [Join] above makes is the path that Go's makes: [Clean] of the
    directory, a separator and the name. *)
Lemma Join_Clean dir name :
  cleaned dir = true ->
  no_separator name = true -> real_element name = true ->
  Join dir name = Clean (dir +:+ "/" +:+ name).
Proof.
  intros Hdir Hsep Hname.
  assert (Hnames : forall s, forallb real_element (elements s "") = true ->
                             forallb real_element (elements (s +:+ "/" +:+ name) "")
                             = true).
  { intros s Hs. rewrite elements_append, forallb_app, Hs.
    rewrite elements_no_separator by exact Hsep.
    cbn [forallb]. now rewrite append_nil_l, Hname. }
  destruct dir as [|c rest]; [discriminate Hdir|]. cbn [cleaned] in Hdir.
  destruct (IsPathSeparator c) eqn:Hc.
  - unfold IsPathSeparator in Hc. apply Ascii.eqb_eq in Hc. subst c.
    destruct rest as [|d rest].
    + change (Join "/" name) with ("/" +:+ name).
      change ("/" +:+ "/" +:+ name) with (String "/" (String "/" name)).
      unfold Clean. change (IsPathSeparator "/") with true. cbn iota.
      change (Clean_loop (String.length (String "/" (String "/" name))) true
                (String "/" name) "/" 1)
        with (Clean_loop (S (String.length name)) true name "/" 1).
      rewrite (Clean_loop_names (String.length name));
        [reflexivity|lia|lia| |intros _; cbn; lia].
      rewrite elements_no_separator by exact Hsep.
      cbn [forallb]. now rewrite append_nil_l, Hname.
    + cbn [String.eqb orb] in Hdir.
      replace (Join (String "/" (String d rest)) name)
        with ("/" +:+ (String d rest +:+ "/" +:+ name)).
      * change (String "/" (String d rest) +:+ "/" +:+ name)
          with ("/" +:+ (String d rest +:+ "/" +:+ name)).
        symmetry. now apply Clean_names, Hnames.
      * unfold Join. cbn [String.eqb].
        destruct (Ascii.eqb "/" "/"); reflexivity.
  - replace (Join (String c rest) name) with (String c rest +:+ "/" +:+ name).
    + symmetry. now apply Clean_names, Hnames.
    + unfold Join. cbn [String.eqb].
      destruct (Ascii.eqb c "/") eqn:Hc'; [|reflexivity].
      unfold IsPathSeparator in Hc. congruence.
Qed.

End PlainDirectories.

(** ** The branches of the classification *)
Section Branches.

Import utf8 regexp process.

Implicit Types (text M Y : string).

(** A text has a decidable shape somewhere or nowhere. *)
Lemma somewhere_or_nowhere (anywhere : string -> Prop)
    (anywhere_dec : forall s, {anywhere s} + {~ anywhere s}) text :
  somewhere anywhere text \/ nowhere anywhere text.
Proof.
  set (P := fun n => anywhere (string_drop n text)).
  destruct (least_below P (fun n => anywhere_dec _) (String.length text))
    as [(m & _ & Hm & _)|Hnone].
  - left. exists (string_take m text), (string_drop m text).
    split; [symmetry; apply take_drop|exact Hm].
  - right. intros pre s E Hs. apply (Hnone (String.length pre)).
    + rewrite E, length_append. lia.
    + unfold P. now rewrite E, drop_append_length.
Qed.

(** What the three searches with groups return. *)
Lemma FindStringSubmatch_tax_cases text :
  (exists Y, first_in (tax_certificate_here Y) any_tax_certificate text
             /\ FindStringSubmatch taxCertRegex text = Some [taxPhrase +:+ Y; Y])
  \/ (nowhere any_tax_certificate text
      /\ FindStringSubmatch taxCertRegex text = None).
Proof.
  destruct (somewhere_or_nowhere _ any_tax_certificate_dec text) as [H|H].
  - left. destruct (first_tax_certificate text H) as [Y HY]. exists Y.
    split; [assumption|now apply FindStringSubmatch_tax].
  - right. split; [assumption|now apply FindStringSubmatch_tax_none].
Qed.

Lemma FindStringSubmatch_abrechnungsmonat_cases text :
  (exists whole M Y,
      first_in (month_year_here abrechnungsmonatLabel M Y)
        (any_month_year abrechnungsmonatLabel) text
      /\ FindStringSubmatch abrechnungsmonatRegex text = Some [whole; M; Y])
  \/ (nowhere (any_month_year abrechnungsmonatLabel) text
      /\ FindStringSubmatch abrechnungsmonatRegex text = None).
Proof.
  destruct (somewhere_or_nowhere _ any_abrechnungsmonat_dec text) as [H|H].
  - left. destruct (first_abrechnungsmonat text H) as (M & Y & HMY).
    destruct (FindStringSubmatch_abrechnungsmonat text M Y HMY) as [whole E].
    now exists whole, M, Y.
  - right. split; [assumption|now apply FindStringSubmatch_abrechnungsmonat_none].
Qed.

Lemma FindStringSubmatch_rueckrechnung_cases text :
  (exists whole M Y,
      first_in (month_year_here rueckrechnungLabel M Y)
        (any_month_year rueckrechnungLabel) text
      /\ FindStringSubmatch rueckrechnungRegex text = Some [whole; M; Y])
  \/ (nowhere (any_month_year rueckrechnungLabel) text
      /\ FindStringSubmatch rueckrechnungRegex text = None).
Proof.
  destruct (somewhere_or_nowhere _ any_rueckrechnung_dec text) as [H|H].
  - left. destruct (first_rueckrechnung text H) as (M & Y & HMY).
    destruct (FindStringSubmatch_rueckrechnung text M Y HMY) as [whole E].
    now exists whole, M, Y.
  - right. split; [assumption|now apply FindStringSubmatch_rueckrechnung_none].
Qed.

Lemma first_in_here (here anywhere : string -> Prop) text :
  first_in here anywhere text -> somewhere here text.
Proof. intros (pre & s & E & H & _). now exists pre, s. Qed.

Lemma month_year_here_parts label M Y s :
  month_year_here label M Y s -> word M /\ year Y.
Proof. intros (c & w1 & w2 & rest & _ & _ & _ & HM & _ & _ & HY). now split. Qed.

Lemma first_month_year_parts label M Y text :
  first_in (month_year_here label M Y) (any_month_year label) text -> word M /\ year Y.
Proof. intros (pre & s & _ & H & _). eapply month_year_here_parts, H. Qed.

Lemma MatchString_payslip_false text :
  nowhere (phrase_here payslipPhrase) text ->
  MatchString payslipRegex text = false.
Proof.
  intros H. destruct (MatchString payslipRegex text) eqn:E; [|reflexivity].
  apply payslipRegex_matches in E as (pre & s & -> & Hs).
  now destruct (H pre s eq_refl).
Qed.

Lemma phrase_somewhere_or_nowhere r phrase text :
  (MatchString r text = true <-> somewhere (phrase_here phrase) text) ->
  (somewhere (phrase_here phrase) text /\ MatchString r text = true)
  \/ (nowhere (phrase_here phrase) text /\ MatchString r text = false).
Proof.
  intros Hiff. destruct (MatchString r text) eqn:E.
  - left. split; [now apply Hiff|reflexivity].
  - right. split; [|reflexivity]. intros pre s -> Hs.
    assert (false = true) by (apply Hiff; now exists pre, s). discriminate.
Qed.

Lemma somewhere_not_nowhere (anywhere : string -> Prop) text :
  somewhere anywhere text -> nowhere anywhere text -> False.
Proof. intros (pre & s & E & H) Hn. exact (Hn pre s E H). Qed.

(** The category of a text by the three tests of the chain. *)
Lemma category_of_classify text :
  category_of (classify text)
  = match FindStringSubmatch taxCertRegex text with
    | Some (_ :: _ :: _) => CatTaxCertificate
    | _ =>
        if MatchString socialInsuranceRegex text then CatSocialInsurance
        else if MatchString payslipRegex text then CatPayslip
        else CatUnrecognized
    end.
Proof.
  unfold classify.
  destruct (FindStringSubmatch taxCertRegex text) as [[|a [|b l]]|];
    try reflexivity;
    destruct (MatchString socialInsuranceRegex text);
    destruct (MatchString payslipRegex text);
    destruct (FindStringSubmatch abrechnungsmonatRegex text) as [[|a1 [|b1 [|c1 l1]]]|];
    reflexivity.
Qed.

(** X1: the file name of a social-insurance certificate: a text without a
    tax-certificate phrase with a year and with the social-insurance
    phrase is named after its first billing month [M Y], whether or not it
    holds the payslip phrase or a correction marker; without a billing
    month no name is proposed. *)
Theorem classify_social_insurance text :
  nowhere any_tax_certificate text ->
  somewhere (phrase_here socialInsurancePhrase) text ->
  (forall M Y,
      first_in (month_year_here abrechnungsmonatLabel M Y)
        (any_month_year abrechnungsmonatLabel) text ->
      classify text
      = SocialInsuranceCertificate M Y
          ("Meldebescheinigung zur Sozialversicherung - " +:+ M +:+ " " +:+ Y +:+ ".pdf"))
  /\ (nowhere (any_month_year abrechnungsmonatLabel) text ->
      classify text = SocialInsuranceNoMonthYear).
Proof.
  intros Htax Hsocial. rewrite (classify_not_tax text Htax).
  apply socialInsuranceRegex_matches in Hsocial. rewrite Hsocial. split.
  - intros M Y HMY.
    now destruct (FindStringSubmatch_abrechnungsmonat text M Y HMY) as [whole ->].
  - intros Hnone. now rewrite (FindStringSubmatch_abrechnungsmonat_none text Hnone).
Qed.

(** X2: the branch the chain takes: the tax certificate's when the text holds
    its phrase with a year; else the social-insurance certificate's when
    the text holds its phrase; else the payslip's when the text holds its
    phrase; and the text is not recognized exactly when it holds none of
    the three. *)
Theorem classify_category text :
  (category_of (classify text) = CatTaxCertificate
   <-> somewhere any_tax_certificate text)
  /\ (category_of (classify text) = CatSocialInsurance
      <-> nowhere any_tax_certificate text
          /\ somewhere (phrase_here socialInsurancePhrase) text)
  /\ (category_of (classify text) = CatPayslip
      <-> nowhere any_tax_certificate text
          /\ nowhere (phrase_here socialInsurancePhrase) text
          /\ somewhere (phrase_here payslipPhrase) text)
  /\ (classify text = NotRecognized
      <-> nowhere any_tax_certificate text
          /\ nowhere (phrase_here socialInsurancePhrase) text
          /\ nowhere (phrase_here payslipPhrase) text).
Proof.
  assert (Hnr : classify text = NotRecognized
                <-> category_of (classify text) = CatUnrecognized).
  { destruct (classify text); cbn; split; congruence. }
  rewrite Hnr, category_of_classify.
  pose proof (somewhere_not_nowhere any_tax_certificate text) as Xt.
  pose proof (somewhere_not_nowhere (phrase_here socialInsurancePhrase) text) as Xs.
  pose proof (somewhere_not_nowhere (phrase_here payslipPhrase) text) as Xp.
  destruct (FindStringSubmatch_tax_cases text) as [(Y & HY & ->)|[Ht ->]].
  - apply first_in_here in HY.
    assert (Ht : somewhere any_tax_certificate text).
    { destruct HY as (pre & s & E & H). exists pre, s. split; [assumption|now exists Y]. }
    repeat split; intros; try discriminate; try tauto.
  - destruct (phrase_somewhere_or_nowhere _ _ text (socialInsuranceRegex_matches text))
      as [[Hs Es]|[Hs Es]];
    destruct (phrase_somewhere_or_nowhere _ _ text (payslipRegex_matches text))
      as [[Hp Ep]|[Hp Ep]];
      rewrite ?Es, ?Ep;
      repeat split; intros; try discriminate; try tauto.
Qed.

(** The names the pass proposes are plain file names: the fixed words, the
    letters of a month and the digits of a year, and [.pdf]. *)
Lemma proposedName_form text n :
  proposedName (classify text) = Some n ->
  exists stem, n = stem +:+ ".pdf" /\ no_separator stem = true.
Proof.
  unfold classify.
  destruct (FindStringSubmatch_tax_cases text) as [(Y & HY & ->)|[Ht ->]].
  - intros [= <-]. exists ("Lohnsteuerbescheinigung - " +:+ Y). split; [reflexivity|].
    destruct HY as (pre & s & _ & [HY _] & _).
    rewrite no_separator_append, (year_no_separator Y HY). reflexivity.
  - assert (Hname : forall prefix M Y tail,
               word M -> year Y -> no_separator prefix = true -> no_separator tail = true ->
               no_separator (prefix +:+ M +:+ " " +:+ Y +:+ tail) = true).
    { intros prefix M Y tail HM HY Hp Htl.
      rewrite !no_separator_append, Hp, (word_no_separator M HM),
        (year_no_separator Y HY), Htl. reflexivity. }
    destruct (MatchString socialInsuranceRegex text).
    + destruct (FindStringSubmatch_abrechnungsmonat_cases text)
        as [(whole & M & Y & HMY & ->)|[_ ->]]; [|discriminate].
      apply first_month_year_parts in HMY as [HM HY].
      intros [= <-].
      exists ("Meldebescheinigung zur Sozialversicherung - " +:+ M +:+ " " +:+ Y).
      split; [now rewrite !append_assoc|].
      rewrite <- (append_nil_r Y). now apply Hname.
    + destruct (MatchString payslipRegex text); [|discriminate].
      destruct (FindStringSubmatch_abrechnungsmonat_cases text)
        as [(whole & M & Y & HMY & ->)|[_ ->]]; [|discriminate].
      apply first_month_year_parts in HMY as [HM HY].
      destruct (FindStringSubmatch_rueckrechnung_cases text)
        as [(whole2 & M2 & Y2 & HMY2 & ->)|[_ ->]].
      * apply first_month_year_parts in HMY2 as [HM2 HY2].
        intros [= <-].
        exists ("Verdienstabrechnung - " +:+ M2 +:+ " " +:+ Y2 +:+ " - Rückrechnung").
        split; [now rewrite !append_assoc|]. now apply Hname.
      * intros [= <-].
        exists ("Verdienstabrechnung - " +:+ M +:+ " " +:+ Y).
        split; [now rewrite !append_assoc|].
        rewrite <- (append_nil_r Y). now apply Hname.
Qed.

(** X3: whatever the text, the name the pass proposes ends in [.pdf] and holds
    no path separator; so the path the allocator returns for it, the
    proposed one or the one with [_2] in front of [.pdf], is a PDF of the
    directory again, with the name as its last element. *)
Theorem proposedName_plain text n :
  proposedName (classify text) = Some n ->
  exists stem,
    n = stem +:+ ".pdf"
    /\ no_separator n = true
    /\ forall pdfPath (fs : gmap string file),
         let newPath := ensureUniqueFilename fs (filepath.Join pdfPath n) in
         (newPath = filepath.Join pdfPath n
          \/ newPath = filepath.Join pdfPath (stem +:+ "_2.pdf"))
         /\ filepath.Base (filepath.Join pdfPath n) = n
         /\ pdf_of pdfPath newPath = true.
Proof.
  intros H. apply proposedName_form in H as (stem & -> & Hs). exists stem.
  split; [reflexivity|].
  assert (Hn : no_separator (stem +:+ ".pdf") = true)
    by (rewrite no_separator_append, Hs; reflexivity).
  split; [assumption|]. intros pdfPath fs. cbv zeta.
  split; [|split].
  - rewrite ensureUniqueFilename_Join. destruct (notExist fs _); auto.
  - apply Base_Join; [assumption|apply pdf_name_nonempty].
  - now apply pdf_of_allocated.
Qed.

End Branches.

Section BranchesExamples.

Import utf8 regexp process.

(** A social-insurance certificate that names the payslip it belongs to. *)
Lemma classify_social_insurance_witness :
  classify social_with_payslip
  = SocialInsuranceCertificate "Januar" "2024"
      ("Meldebescheinigung zur Sozialversicherung - " +:+ "Januar" +:+ " " +:+ "2024"
         +:+ ".pdf").
Proof.
  apply (proj1 (classify_social_insurance social_with_payslip
                  (nowhere_tax_by_search social_with_payslip eq_refl)
                  (ex_intro _ ""
                     (ex_intro _ social_with_payslip
                        (conj eq_refl
                           (ex_intro _
                              " zur Verdienstabrechnung Abrechnungsmonat: Januar 2024 Rückrechnung: Dezember 2023"
                              eq_refl)))))
           "Januar" "2024").
  exists "Meldebescheinigung zur Sozialversicherung zur Verdienstabrechnung ",
    "Abrechnungsmonat: Januar 2024 Rückrechnung: Dezember 2023".
  split; [reflexivity|]. split.
  - exists ":", " ", " ", " Rückrechnung: Dezember 2023".
    split; [reflexivity|]. split; [now right|].
    split; [made_of_alphabet|]. split; [is_word|].
    split; [made_of_alphabet|]. split; [discriminate|]. is_year.
  - apply (leftmost_by_check abrechnungsmonatRegex);
      [apply abrechnungsmonat_matches|vm_compute; reflexivity].
Defined.

(** End-to-end scenario 3. *)
Lemma proposedName_plain_witness :
  exists stem,
    "Verdienstabrechnung - Dezember 2023 - Rückrechnung.pdf" = stem +:+ ".pdf"
    /\ no_separator "Verdienstabrechnung - Dezember 2023 - Rückrechnung.pdf" = true
    /\ forall pdfPath (fs : gmap string file),
         let n := "Verdienstabrechnung - Dezember 2023 - Rückrechnung.pdf" in
         let newPath := ensureUniqueFilename fs (filepath.Join pdfPath n) in
         (newPath = filepath.Join pdfPath n
          \/ newPath = filepath.Join pdfPath (stem +:+ "_2.pdf"))
         /\ filepath.Base (filepath.Join pdfPath n) = n
         /\ pdf_of pdfPath newPath = true.
Proof.
  apply (proposedName_plain scenario_3). vm_compute. reflexivity.
Defined.

End BranchesExamples.

(** ** What a pass does to the directory *)
Section PassFiles.

Import process.

Variable pdfPath : string.

Implicit Types (st : state) (fs : gmap string file) (l : list string).

(** The files [Glob] lists: the PDFs of the directory, each once. *)
Lemma Glob_In fs f :
  In f (Glob fs pdfPath) <-> is_Some (fs !! f) /\ pdf_of pdfPath f = true.
Proof.
  unfold Glob, pdf_of. rewrite <- list_elem_of_In, merge_sort_Permutation.
  rewrite list_elem_of_filter, list_elem_of_In, in_map_iff.
  rewrite Is_true_true. split.
  - intros [Hp ([f' x] & <- & Hx)]. split; [|assumption].
    apply list_elem_of_In, elem_of_map_to_list in Hx. now exists x.
  - intros [[x Hx] Hp]. split; [assumption|]. exists (f, x). split; [reflexivity|].
    now apply list_elem_of_In, elem_of_map_to_list.
Qed.

Lemma Glob_NoDup fs : List.NoDup (Glob fs pdfPath).
Proof.
  apply NoDup_ListNoDup. unfold Glob. rewrite merge_sort_Permutation.
  apply NoDup_filter, NoDup_fst_map_to_list.
Qed.

(** A turn of the loop leaves the directory as it is, or, in a live run,
    moves the file, whose text proposes a name, to the path allocated for
    that name. *)
Lemma process_file_step dryRun total i pdfFile st :
  files (process_file pdfPath dryRun total i pdfFile st) = files st
  \/ exists text n,
       dryRun = false
       /\ files st !! pdfFile = Some (PDF text)
       /\ proposedName (classify text) = Some n
       /\ files (process_file pdfPath dryRun total i pdfFile st)
          = <[ensureUniqueFilename (files st) (filepath.Join pdfPath n) := PDF text]>
              (delete pdfFile (files st)).
Proof.
  destruct dryRun; [left; apply process_file_dry_files|].
  rewrite process_file_live_files. unfold proposedPath, extractTextFromPDF, Rename.
  destruct (files st !! pdfFile) as [[text|]|] eqn:Hf; try (now left).
  destruct (proposedName (classify text)) as [n|] eqn:Hn; [|now left].
  cbn [option_map]. right. now exists text, n.
Qed.

(** A relation between directories that every turn keeps holds between
    the directory before and after the loop. *)
Lemma process_loop_files (R : gmap string file -> gmap string file -> Prop)
    dryRun total l :
  (forall fs, R fs fs) ->
  (forall fs1 fs2 fs3, R fs1 fs2 -> R fs2 fs3 -> R fs1 fs3) ->
  (forall i pdfFile st,
      In pdfFile l ->
      R (files st) (files (process_file pdfPath dryRun total i pdfFile st))) ->
  forall i st, R (files st) (files (process_loop pdfPath dryRun total i l st)).
Proof.
  intros Hrefl Htrans. induction l as [|pdfFile rest IH]; intros Hstep i st.
  - apply Hrefl.
  - cbn [process_loop]. eapply Htrans.
    + apply (Hstep i pdfFile st). now left.
    + apply IH. intros j f st' Hf. apply Hstep. now right.
Qed.

Lemma process_loop_app dryRun total l1 l2 :
  forall i st,
    process_loop pdfPath dryRun total i (l1 ++ l2) st
    = process_loop pdfPath dryRun total (i + List.length l1) l2
        (process_loop pdfPath dryRun total i l1 st).
Proof.
  induction l1 as [|f l1 IH]; intros i st.
  - cbn. now rewrite Nat.add_0_r.
  - cbn [app process_loop List.length]. rewrite IH. f_equal. lia.
Qed.

(** X6: a pass over a directory written plainly, live or dry, changes
    nothing at a path that is not a PDF of the directory: the files it
    lists and the paths it renames to are PDFs of the directory, whatever
    the texts are. *)
Theorem processPDFs_touches_only_pdfs dryRun fs path :
  plain_directory pdfPath = true ->
  pdf_of pdfPath path = false ->
  files (processPDFs pdfPath dryRun fs) !! path = fs !! path.
Proof.
  intros _ Hpath. unfold processPDFs.
  set (l := Glob fs pdfPath).
  change (fs !! path) with (files (mkState fs [FoundPDFFiles (List.length l)]) !! path).
  symmetry.
  apply (process_loop_files (fun fs1 fs2 => fs1 !! path = fs2 !! path)); try congruence.
  intros i pdfFile st Hin. apply Glob_In in Hin as [_ Hpdf].
  destruct (process_file_step dryRun (List.length l) i pdfFile st)
    as [->|(text & n & _ & _ & Hn & ->)]; [reflexivity|].
  apply proposedName_form in Hn as (stem & -> & Hstem).
  pose proof (pdf_of_allocated (files st) pdfPath stem Hstem) as Hnew.
  rewrite lookup_insert_ne, lookup_delete_ne; [reflexivity|congruence..].
Qed.

(** X7: a pass makes no file: every file of the directory after the pass was a
    file of the directory before, under some path, and there are no more
    files than before. *)
Theorem processPDFs_makes_no_file dryRun fs :
  (forall path f,
      files (processPDFs pdfPath dryRun fs) !! path = Some f ->
      exists path0, fs !! path0 = Some f)
  /\ size (files (processPDFs pdfPath dryRun fs)) <= size fs.
Proof.
  unfold processPDFs. set (l := Glob fs pdfPath).
  change fs with (files (mkState fs [FoundPDFFiles (List.length l)])) at 2 4.
  apply (process_loop_files
           (fun fs1 fs2 =>
              (forall path f, fs2 !! path = Some f -> exists path0, fs1 !! path0 = Some f)
              /\ size fs2 <= size fs1)).
  - intros fs1. split; [eauto|lia].
  - intros fs1 fs2 fs3 [H12 S12] [H23 S23]. split; [|lia].
    intros path f H. apply H23 in H as [path1 H]. now apply H12 in H.
  - intros i pdfFile st _.
    destruct (process_file_step dryRun (List.length l) i pdfFile st)
      as [->|(text & n & _ & Hf & _ & ->)]; [split; [eauto|lia]|].
    split.
    + intros path f. destruct (decide (path = ensureUniqueFilename (files st)
                                                (filepath.Join pdfPath n))) as [->|Hne].
      * rewrite lookup_insert_eq. intros [= <-]. eauto.
      * rewrite lookup_insert_ne by congruence.
        intros H. apply lookup_delete_Some in H as [_ H]. eauto.
    + assert (Hpos : size (files st) <> 0).
      { intros E. apply map_size_empty_inv in E. rewrite E in Hf. discriminate. }
      rewrite map_size_insert, map_size_delete, Hf.
      destruct (delete pdfFile (files st) !! _); cbn; lia.
Qed.

(** The live loop over files whose proposed paths are free and differ
    from one another: the files with a proposed path are at that path,
    everything else is where it was. *)
Lemma live_loop_as_proposed fs0 total l :
  forall i lines,
    List.NoDup l ->
    (forall f, In f l -> is_Some (fs0 !! f)) ->
    (forall f p, In f l -> proposedPath pdfPath fs0 f = Some p -> fs0 !! p = None) ->
    (forall f g p, In f l -> In g l ->
                   proposedPath pdfPath fs0 f = Some p ->
                   proposedPath pdfPath fs0 g = Some p -> f = g) ->
    let fs' := files (process_loop pdfPath false total i l (mkState fs0 lines)) in
    (forall f p, In f l -> proposedPath pdfPath fs0 f = Some p ->
                 fs' !! p = fs0 !! f /\ fs' !! f = None)
    /\ (forall q, (forall f p, In f l -> proposedPath pdfPath fs0 f = Some p ->
                               q <> f /\ q <> p) ->
                  fs' !! q = fs0 !! q).
Proof.
  induction l as [|g l IH] using rev_ind; intros i lines Hnd Hin Hfree Hdiff.
  - cbn. split; [intros f p []|reflexivity].
  - cbv zeta. rewrite process_loop_app. cbn [process_loop].
    apply NoDup_remove in Hnd as [Hnd Hg]. rewrite app_nil_r in Hnd, Hg.
    destruct (IH i lines Hnd) as [I1 I2]; clear IH.
    { intros f Hf. apply Hin, in_or_app. now left. }
    { intros f p Hf. apply Hfree, in_or_app. now left. }
    { intros f g' p Hf Hg'. apply Hdiff; apply in_or_app; now left. }
    set (st1 := process_loop pdfPath false total i l (mkState fs0 lines)) in *.
    assert (Hgl : In g (l ++ [g])) by (apply in_or_app; right; now left).
    assert (Hll : forall f, In f l -> In f (l ++ [g]))
      by (intros f Hf; apply in_or_app; now left).
    assert (Hsrc : forall f p, In f l -> proposedPath pdfPath fs0 f = Some p ->
                               g <> f /\ g <> p).
    { intros f p Hf Hp. split; [congruence|].
      intros ->. destruct (Hin _ Hgl) as [x Hx].
      rewrite (Hfree f p (Hll f Hf) Hp) in Hx. discriminate. }
    assert (Eg : files st1 !! g = fs0 !! g) by (apply I2, Hsrc).
    assert (Ep : proposedPath pdfPath (files st1) g = proposedPath pdfPath fs0 g)
      by (unfold proposedPath, extractTextFromPDF; now rewrite Eg).
    rewrite process_file_live_files, Ep.
    destruct (proposedPath pdfPath fs0 g) as [p|] eqn:Hp.
    + assert (Hp0 : fs0 !! p = None) by (eapply Hfree; eassumption).
      assert (Hp1 : files st1 !! p = None).
      { rewrite I2; [assumption|]. intros f p' Hf Hp'. split.
        - intros E. destruct (Hin _ (Hll f Hf)) as [x Hx]. congruence.
        - intros E. apply Hg. rewrite <- E in Hp'.
          now rewrite <- (Hdiff f g p (Hll f Hf) Hgl Hp' Hp). }
      assert (Eu : ensureUniqueFilename (files st1) p = p).
      { unfold ensureUniqueFilename. apply notExist_None in Hp1. now rewrite Hp1. }
      rewrite Eu. unfold Rename. rewrite Eg.
      destruct (Hin _ Hgl) as [x Hx]. rewrite Hx.
      assert (Hgp : g <> p) by congruence.
      split.
      * intros f p' Hf Hp'. apply in_app_or in Hf as [Hf|[<-|[]]].
        -- destruct (Hsrc f p' Hf Hp') as [Hgf Hgp'].
           destruct (I1 f p' Hf Hp') as [J1 J2].
           assert (p' <> p).
           { intros E. rewrite E in Hp'. apply Hgf. symmetry.
             exact (Hdiff f g p (Hll f Hf) Hgl Hp' Hp). }
           assert (f <> p).
           { intros E. destruct (Hin _ (Hll _ Hf)) as [y Hy]. congruence. }
           rewrite !lookup_insert_ne, !lookup_delete_ne by congruence. now split.
        -- assert (p' = p) by congruence. subst p'.
           rewrite lookup_insert_eq, lookup_insert_ne, lookup_delete_eq by congruence.
           now split.
      * intros q Hq. destruct (Hq g p Hgl Hp) as [Hqg Hqp].
        rewrite lookup_insert_ne, lookup_delete_ne by congruence.
        apply I2. intros f p' Hf Hp'. apply Hq; [now apply Hll|assumption].
    + split.
      * intros f p' Hf Hp'. apply in_app_or in Hf as [Hf|[<-|[]]]; [|congruence].
        now apply I1.
      * intros q Hq. apply I2. intros f p' Hf Hp'. apply Hq; [now apply Hll|assumption].
Qed.

(** X4: when the names proposed for the files of the directory, which is
    written plainly, are free and differ from one another, a live pass
    moves each file for which a name is proposed to exactly that name, and
    changes nothing else: no file gets the suffix and none is
    overwritten. *)
Theorem processPDFs_renames_as_proposed fs :
  plain_directory pdfPath = true ->
  (forall f p, In f (Glob fs pdfPath) -> proposedPath pdfPath fs f = Some p ->
               fs !! p = None) ->
  (forall f g p, In f (Glob fs pdfPath) -> In g (Glob fs pdfPath) ->
                 proposedPath pdfPath fs f = Some p ->
                 proposedPath pdfPath fs g = Some p -> f = g) ->
  let fs' := files (processPDFs pdfPath false fs) in
  (forall f p, In f (Glob fs pdfPath) -> proposedPath pdfPath fs f = Some p ->
               fs' !! p = fs !! f /\ fs' !! f = None)
  /\ (forall q, (forall f p, In f (Glob fs pdfPath) ->
                             proposedPath pdfPath fs f = Some p -> q <> f /\ q <> p) ->
                fs' !! q = fs !! q).
Proof.
  intros _ Hfree Hdiff. cbv zeta. unfold processPDFs.
  apply (live_loop_as_proposed fs _ _ 0 _ (Glob_NoDup fs)); try assumption.
  intros f Hf. now apply Glob_In in Hf as [Hf _].
Qed.

(** The list of a directory with one file, a PDF of the directory. *)
Lemma Glob_singleton path (x : file) :
  pdf_of pdfPath path = true ->
  Glob {[ path := x ]} pdfPath = [path].
Proof.
  intros Hp.
  pose proof (Glob_NoDup {[ path := x ]}) as Hnd.
  assert (Hin : forall f, In f (Glob {[ path := x ]} pdfPath) <-> f = path).
  { intros f. rewrite Glob_In. split.
    - intros [[y Hy] _]. now apply lookup_singleton_Some in Hy as [-> _].
    - intros ->. split; [|assumption]. exists x. apply lookup_singleton_eq. }
  destruct (Glob {[ path := x ]} pdfPath) as [|a [|b l]].
  - assert (H : In path []) by now apply Hin. destruct H.
  - f_equal. apply Hin. now left.
  - exfalso. inversion Hnd as [|? ? Ha _]. apply Ha.
    assert (a = path) by (apply Hin; now left).
    assert (b = path) by (apply Hin; right; now left).
    subst. now left.
Qed.

(** A live pass over one file. *)
Lemma processPDFs_singleton path text n :
  pdf_of pdfPath path = true ->
  proposedName (classify text) = Some n ->
  files (processPDFs pdfPath false {[ path := PDF text ]})
  = {[ ensureUniqueFilename {[ path := PDF text ]} (filepath.Join pdfPath n) := PDF text ]}.
Proof.
  intros Hp Hn. unfold processPDFs. rewrite (Glob_singleton _ _ Hp).
  cbn [process_loop List.length]. rewrite process_file_live_files. cbn [files].
  unfold proposedPath, extractTextFromPDF, Rename.
  rewrite lookup_singleton_eq, Hn. cbn [option_map].
  now rewrite delete_singleton_eq, insert_empty.
Qed.

(** X5: a pass is not a fixed point of itself: in a directory, written
    plainly, that holds one file, under the name the pass proposes for its
    text, a live pass renames the file to the name with [_2], and the next
    live pass renames it back. *)
Theorem processPDFs_renames_again text stem :
  plain_directory pdfPath = true ->
  proposedName (classify text) = Some (stem +:+ ".pdf") ->
  let named := filepath.Join pdfPath (stem +:+ ".pdf") in
  let suffixed := filepath.Join pdfPath (stem +:+ "_2.pdf") in
  files (processPDFs pdfPath false {[ named := PDF text ]}) = {[ suffixed := PDF text ]}
  /\ files (processPDFs pdfPath false {[ suffixed := PDF text ]}) = {[ named := PDF text ]}.
Proof.
  intros _ Hn. cbv zeta.
  assert (Hs : no_separator stem = true).
  { destruct (proposedName_form text _ Hn) as (stem0 & E & Hs0).
    apply append_inv_tail in E. now subst. }
  split.
  - rewrite (processPDFs_singleton _ text _ (pdf_of_Join pdfPath stem Hs) Hn).
    rewrite ensureUniqueFilename_Join.
    assert (E : notExist {[ filepath.Join pdfPath (stem +:+ ".pdf") := PDF text ]}
                  (filepath.Join pdfPath (stem +:+ ".pdf")) = false)
      by (apply notExist_Some; eexists; apply lookup_singleton_eq).
    now rewrite E.
  - assert (Hp2 : pdf_of pdfPath (filepath.Join pdfPath (stem +:+ "_2.pdf")) = true).
    { change "_2.pdf" with ("_2" +:+ ".pdf"). rewrite <- append_assoc.
      apply pdf_of_Join. rewrite no_separator_append, Hs. reflexivity. }
    rewrite (processPDFs_singleton _ text _ Hp2 Hn).
    rewrite ensureUniqueFilename_Join.
    assert (E : notExist {[ filepath.Join pdfPath (stem +:+ "_2.pdf") := PDF text ]}
                  (filepath.Join pdfPath (stem +:+ ".pdf")) = true).
    { apply notExist_None, lookup_singleton_ne.
      intros E. now apply (suffixed_differs pdfPath stem). }
    now rewrite E.
Qed.

(** The live loop over files that propose one name, which is taken: each
    file is renamed to the name with [_2], onto the file before it. *)
Lemma live_loop_same_name total stem (x : file) l :
  forall i st,
    List.NoDup l ->
    files st !! filepath.Join pdfPath (stem +:+ ".pdf") = Some x ->
    (forall g, In g l ->
               g <> filepath.Join pdfPath (stem +:+ ".pdf")
               /\ g <> filepath.Join pdfPath (stem +:+ "_2.pdf")
               /\ exists text, files st !! g = Some (PDF text)
                               /\ proposedName (classify text) = Some (stem +:+ ".pdf")) ->
    let fs' := files (process_loop pdfPath false total i l st) in
    fs' !! filepath.Join pdfPath (stem +:+ ".pdf") = Some x
    /\ (forall g, last l = Some g ->
                  fs' !! filepath.Join pdfPath (stem +:+ "_2.pdf") = files st !! g)
    /\ (forall g, In g l -> fs' !! g = None)
    /\ (forall q, q <> filepath.Join pdfPath (stem +:+ "_2.pdf") -> ~ In q l ->
                  fs' !! q = files st !! q).
Proof.
  set (N := filepath.Join pdfPath (stem +:+ ".pdf")).
  set (N2 := filepath.Join pdfPath (stem +:+ "_2.pdf")).
  induction l as [|g l IH]; intros i st Hnd HN Hl.
  - cbn. split; [assumption|]. split; [discriminate|]. split; [intros g []|reflexivity].
  - cbv zeta. cbn [process_loop].
    apply List.NoDup_cons_iff in Hnd as [Hg Hnd].
    destruct (Hl g ltac:(now left)) as (HgN & HgN2 & text & Hgt & Hname).
    set (st1 := process_file pdfPath false total i g st).
    assert (E1 : files st1
                 = <[N2 := PDF text]> (delete g (files st))).
    { unfold st1. rewrite process_file_live_files.
      unfold proposedPath, extractTextFromPDF, Rename. rewrite Hgt, Hname.
      cbn [option_map]. fold N. unfold N at 1. rewrite ensureUniqueFilename_Join.
      fold N N2.
      assert (Ex : notExist (files st) N = false)
        by (apply notExist_Some; now exists x).
      now rewrite Ex. }
    assert (HNN2 : N <> N2) by apply suffixed_differs.
    destruct (IH (S i) st1 Hnd) as (I1 & I2 & I3 & I4).
    { rewrite E1, lookup_insert_ne, lookup_delete_ne by congruence. exact HN. }
    { intros g' Hg'. destruct (Hl g' ltac:(now right)) as (H1 & H2 & text' & Ht' & Hn').
      split; [assumption|]. split; [assumption|]. exists text'. split; [|assumption].
      rewrite E1, lookup_insert_ne, lookup_delete_ne by congruence. exact Ht'. }
    split; [exact I1|]. split; [|split].
    + intros g' Hlast. destruct l as [|g1 l1].
      * injection Hlast as <-. cbn [process_loop]. fold st1.
        rewrite E1, lookup_insert_eq. now rewrite Hgt.
      * assert (Hin : In g' (g1 :: l1)).
        { change (last (g :: g1 :: l1)) with (last (g1 :: l1)) in Hlast.
          apply last_Some in Hlast as [l' ->]. apply in_or_app. right. now left. }
        rewrite (I2 g' Hlast).
        destruct (Hl g' ltac:(now right)) as (H1 & H2 & _).
        rewrite E1, lookup_insert_ne, lookup_delete_ne by congruence. reflexivity.
    + intros g' [<-|Hg'].
      * rewrite I4; [|congruence|assumption].
        rewrite E1, lookup_insert_ne, lookup_delete_eq by congruence. reflexivity.
      * now apply I3.
    + intros q Hq Hnin. rewrite I4; [|assumption|intros H; apply Hnin; now right].
      assert (q <> g) by (intros ->; apply Hnin; now left).
      rewrite E1, lookup_insert_ne, lookup_delete_ne by congruence. reflexivity.
Qed.

(** X19: of the files with one name only the first and the last stay: when
    all the PDFs of the directory, which is written plainly and holds two
    or more, propose the same name and neither that name nor the name with
    [_2] is taken, a live pass leaves the file listed first under the name
    and the file listed last under the name with [_2]; the files listed
    between them are renamed onto one another and are gone. *)
Theorem processPDFs_same_name_keeps_first_and_last fs stem first rest final :
  plain_directory pdfPath = true ->
  Glob fs pdfPath = first :: rest ->
  last rest = Some final ->
  (forall f, In f (first :: rest) ->
             exists text, fs !! f = Some (PDF text)
                          /\ proposedName (classify text) = Some (stem +:+ ".pdf")) ->
  fs !! filepath.Join pdfPath (stem +:+ ".pdf") = None ->
  fs !! filepath.Join pdfPath (stem +:+ "_2.pdf") = None ->
  let fs' := files (processPDFs pdfPath false fs) in
  fs' !! filepath.Join pdfPath (stem +:+ ".pdf") = fs !! first
  /\ fs' !! filepath.Join pdfPath (stem +:+ "_2.pdf") = fs !! final
  /\ (forall f, In f (first :: rest) -> fs' !! f = None)
  /\ (forall q, ~ In q (first :: rest) ->
                q <> filepath.Join pdfPath (stem +:+ ".pdf") ->
                q <> filepath.Join pdfPath (stem +:+ "_2.pdf") ->
                fs' !! q = fs !! q).
Proof.
  intros _ HG Hlast Hall HN HN2. cbv zeta. unfold processPDFs. rewrite HG.
  set (N := filepath.Join pdfPath (stem +:+ ".pdf")) in *.
  set (N2 := filepath.Join pdfPath (stem +:+ "_2.pdf")) in *.
  set (total := List.length (first :: rest)).
  pose proof (Glob_NoDup fs) as Hnd. rewrite HG in Hnd.
  apply List.NoDup_cons_iff in Hnd as [Hfirst Hnd].
  cbn [process_loop].
  destruct (Hall first ltac:(now left)) as (text & Hft & Hname).
  set (st0 := mkState fs [FoundPDFFiles total]).
  set (st1 := process_file pdfPath false total 0 first st0).
  assert (E1 : files st1 = <[N := PDF text]> (delete first fs)).
  { unfold st1. rewrite process_file_live_files. cbn [files st0].
    unfold proposedPath, extractTextFromPDF, Rename. rewrite Hft, Hname.
    cbn [option_map]. fold N.
    assert (Eu : ensureUniqueFilename fs N = N).
    { unfold ensureUniqueFilename. apply notExist_None in HN. now rewrite HN. }
    now rewrite Eu. }
  assert (Hne : forall g, In g (first :: rest) -> g <> N /\ g <> N2).
  { intros g Hg. destruct (Hall g Hg) as (t & Ht & _). split; congruence. }
  destruct (live_loop_same_name total stem (PDF text) rest 1 st1 Hnd)
    as (I1 & I2 & I3 & I4).
  { fold N. rewrite E1. apply lookup_insert_eq. }
  { intros g Hg. destruct (Hne g ltac:(now right)) as [H1 H2].
    fold N N2. split; [assumption|]. split; [assumption|].
    destruct (Hall g ltac:(now right)) as (t & Ht & Hn). exists t.
    split; [|assumption].
    assert (g <> first) by (intros ->; contradiction).
    rewrite E1, lookup_insert_ne, lookup_delete_ne by congruence. exact Ht. }
  fold N N2 in I1, I2, I4.
  assert (Hin_final : In final rest).
  { apply last_Some in Hlast as [l' ->]. apply in_or_app. right. now left. }
  split; [now rewrite I1, Hft|]. split; [|split].
  - rewrite (I2 final Hlast).
    destruct (Hne final ltac:(now right)) as [H1 H2].
    assert (final <> first) by (intros ->; contradiction).
    rewrite E1, lookup_insert_ne, lookup_delete_ne by congruence. reflexivity.
  - intros f [<-|Hf]; [|now apply I3].
    destruct (Hne first ltac:(now left)) as [H1 H2].
    rewrite I4; [|assumption..].
    rewrite E1, lookup_insert_ne, lookup_delete_eq by congruence. reflexivity.
  - intros q Hq HqN HqN2. fold N in HqN. fold N2 in HqN2.
    rewrite I4; [|assumption|intros H; apply Hq; now right].
    assert (q <> first) by (intros ->; apply Hq; now left).
    rewrite E1, lookup_insert_ne, lookup_delete_ne by congruence. reflexivity.
Qed.

End PassFiles.

Section PassFilesExamples.

Import process.

(** The PDF below the directory stays where it is. *)
Lemma processPDFs_touches_only_pdfs_witness :
  files (processPDFs "adp" false mixed_directory) !! "adp/2022/adp_1.pdf"
  = mixed_directory !! "adp/2022/adp_1.pdf".
Proof.
  apply (processPDFs_touches_only_pdfs "adp" false mixed_directory "adp/2022/adp_1.pdf").
  - reflexivity.
  - vm_compute. reflexivity.
Defined.

(** The tax certificate and the payslip: each is at its proposed path. *)
Lemma processPDFs_renames_as_proposed_witness :
  files (processPDFs "adp" false certificate_and_payslip)
    !! "adp/Verdienstabrechnung - Januar 2024.pdf"
  = certificate_and_payslip !! "adp/adp_2.pdf"
  /\ files (processPDFs "adp" false certificate_and_payslip) !! "adp/adp_2.pdf" = None.
Proof.
  assert (HG : Glob certificate_and_payslip "adp" = ["adp/adp_1.pdf"; "adp/adp_2.pdf"])
    by (vm_compute; reflexivity).
  assert (H1 : proposedPath "adp" certificate_and_payslip "adp/adp_1.pdf"
               = Some "adp/Lohnsteuerbescheinigung - 2022.pdf")
    by (vm_compute; reflexivity).
  assert (H2 : proposedPath "adp" certificate_and_payslip "adp/adp_2.pdf"
               = Some "adp/Verdienstabrechnung - Januar 2024.pdf")
    by (vm_compute; reflexivity).
  apply (proj1 (processPDFs_renames_as_proposed "adp" certificate_and_payslip
                  eq_refl
                  ltac:(intros f p Hf Hp; rewrite HG in Hf;
                        destruct Hf as [<-|[<-|[]]]; rewrite ?H1, ?H2 in Hp;
                        injection Hp as <-; vm_compute; reflexivity)
                  ltac:(intros f g p Hf Hg Hpf Hpg; rewrite HG in Hf, Hg;
                        destruct Hf as [<-|[<-|[]]]; destruct Hg as [<-|[<-|[]]];
                        rewrite ?H1, ?H2 in Hpf, Hpg; congruence))).
  - rewrite HG. right. now left.
  - exact H2.
Defined.

(** The tax certificate of end-to-end scenario 1, processed before. *)
Lemma processPDFs_renames_again_witness :
  files (processPDFs "adp" false
           {[ "adp/Lohnsteuerbescheinigung - 2022.pdf" := PDF scenario_1 ]})
  = {[ "adp/Lohnsteuerbescheinigung - 2022_2.pdf" := PDF scenario_1 ]}
  /\ files (processPDFs "adp" false
              {[ "adp/Lohnsteuerbescheinigung - 2022_2.pdf" := PDF scenario_1 ]})
     = {[ "adp/Lohnsteuerbescheinigung - 2022.pdf" := PDF scenario_1 ]}.
Proof.
  apply (processPDFs_renames_again "adp" scenario_1 "Lohnsteuerbescheinigung - 2022").
  - reflexivity.
  - vm_compute. reflexivity.
Defined.

(** Three downloads of one tax certificate: the second is gone. *)
Lemma processPDFs_same_name_keeps_first_and_last_witness :
  let fs' := files (processPDFs "adp" false three_certificates) in
  let listed := ["adp/adp_1.pdf"; "adp/adp_2.pdf"; "adp/adp_3.pdf"] in
  fs' !! filepath.Join "adp" ("Lohnsteuerbescheinigung - 2022" +:+ ".pdf")
  = three_certificates !! "adp/adp_1.pdf"
  /\ fs' !! filepath.Join "adp" ("Lohnsteuerbescheinigung - 2022" +:+ "_2.pdf")
     = three_certificates !! "adp/adp_3.pdf"
  /\ (forall f, In f listed -> fs' !! f = None)
  /\ (forall q, ~ In q listed ->
                q <> filepath.Join "adp" ("Lohnsteuerbescheinigung - 2022" +:+ ".pdf") ->
                q <> filepath.Join "adp" ("Lohnsteuerbescheinigung - 2022" +:+ "_2.pdf") ->
                fs' !! q = three_certificates !! q).
Proof.
  intros fs' listed.
  apply (processPDFs_same_name_keeps_first_and_last "adp" three_certificates
           "Lohnsteuerbescheinigung - 2022" "adp/adp_1.pdf"
           ["adp/adp_2.pdf"; "adp/adp_3.pdf"] "adp/adp_3.pdf").
  - reflexivity.
  - vm_compute. reflexivity.
  - reflexivity.
  - intros f [<-|[<-|[<-|[]]]]; eexists; (split; [vm_compute; reflexivity|]);
      vm_compute; reflexivity.
  - vm_compute. reflexivity.
  - vm_compute. reflexivity.
Defined.

End PassFilesExamples.

(** ** The wait for the dashboard *)
Section Dashboard.

Import utf8 regexp process download.

Implicit Types (k : cont) (s t text : string) (pos : nat) (caps : captures).

Lemma dashboardPattern_parsed :
  Compile dashboardPattern
  = POk (lit_chain (phrase_runes dashboardPhrase) dashboard_tail).
Proof. vm_compute. reflexivity. Qed.

Lemma strings_of_closing : strings_of (Lit 41%N) = [")"].
Proof. vm_compute. reflexivity. Qed.

Lemma dashboard_tail_sound k s pos caps res :
  run dashboard_tail k (runes s) pos caps = Some res ->
  exists count rest,
    s = count +:+ ")" +:+ rest /\ count <> "" /\ made_of digit_strings count.
Proof.
  unfold dashboard_tail. cbn [run]. intros H.
  apply step_sound in H as (l & t & -> & Hl & H); [|reflexivity].
  apply star_sound in H as (m & t' & -> & Hm & H); [|reflexivity].
  apply step_sound in H as (c & rest & -> & Hc & _); [|reflexivity].
  rewrite strings_of_closing in Hc. destruct Hc as [<-|[]].
  exists (l +:+ m), rest. rewrite append_assoc. split; [reflexivity|]. split.
  - apply append_nonempty_l. eapply strings_of_nonempty, Hl.
  - rewrite <- strings_of_digit. now constructor.
Qed.

Lemma dashboard_tail_complete k count rest pos caps res :
  count <> "" -> made_of digit_strings count ->
  k (runes rest) (pos + String.length count + 1) caps = Some res ->
  run dashboard_tail k (runes (count +:+ ")" +:+ rest)) pos caps = Some res.
Proof.
  intros Hne Hc Hk. rewrite <- strings_of_digit in Hc.
  destruct (made_of_nonempty _ _ Hc Hne) as (l & m & -> & Hl & Hm).
  unfold dashboard_tail. cbn [run].
  rewrite append_assoc, step_complete by (reflexivity || assumption).
  apply star_complete; [reflexivity|exact Hm| |].
  - apply (not_starting_apart perl_d (Lit 41%N)); try reflexivity.
    rewrite strings_of_closing. now left.
  - rewrite step_complete; [|reflexivity|rewrite strings_of_closing; now left].
    cbn [run]. rewrite <- Hk, length_append. cbn [String.length].
    f_equal. lia.
Qed.

Lemma dashboard_sound s pos res :
  match_at (lit_chain (phrase_runes dashboardPhrase) dashboard_tail) (runes s) pos
  = Some res ->
  document_count_here s.
Proof.
  unfold match_at. intros H.
  apply phrase_sound in H as (t & -> & H); [|vm_compute; reflexivity].
  apply dashboard_tail_sound in H as (count & rest & -> & Hne & Hc).
  now exists count, rest.
Qed.

Lemma dashboard_complete s pos :
  document_count_here s ->
  exists res,
    match_at (lit_chain (phrase_runes dashboardPhrase) dashboard_tail) (runes s) pos
    = Some res.
Proof.
  intros (count & rest & -> & Hne & Hc). unfold match_at.
  rewrite phrase_complete by (vm_compute; reflexivity).
  eexists. apply dashboard_tail_complete; [assumption..|reflexivity].
Qed.

(** X11: the pattern of the wait for the dashboard compiles, and a page text
    matches it exactly when it holds [Alle Dokumente (], one or more of
    the digits [0] to [9] and [)]. *)
Theorem dashboardPattern_matches text :
  exists regex,
    Compile dashboardPattern = POk regex
    /\ (MatchString regex text = true <-> somewhere document_count_here text).
Proof.
  eexists. split; [apply dashboardPattern_parsed|].
  unfold MatchString. split.
  - destruct (search _ (runes text) 0) as [res|] eqn:E; [intros _|discriminate].
    apply search_sound in E as (p1 & p2 & -> & E).
    exists p1, p2. split; [reflexivity|]. eapply dashboard_sound, E.
  - intros (pre & s & -> & Hs).
    destruct (dashboard_complete s (0 + String.length pre) Hs) as [res Hres].
    destruct (search_some (lit_chain (phrase_runes dashboardPhrase) dashboard_tail)
                pre s 0 res) as [res' ->]; [|assumption|reflexivity].
    destruct Hs as (count & rest & -> & _).
    apply ascii_start_append; [discriminate|vm_compute; reflexivity].
Qed.

End Dashboard.

(** ** From the document list to the files *)
Section Documents.

Import download.

Variables (site : portal) (env : environment) (siteURL downloadPath : string).

(** X17: the links are downloaded in the order in which they stand in the
    document list: when [downloadPDFs] ends without error, the list ended
    with a last page, every download link of its pages was requested once,
    in the order of the pages and of the anchors of a page, and the
    document of the link at place [k] is the file [adp_(k+1).pdf].  When
    the links cannot be read, nothing is requested and no file is made. *)
Theorem downloadPDFs_documents_in_order fuel w w' :
  (downloadPDFs_documents site fuel env siteURL downloadPath w = Some (w', None) ->
   exists pages,
     paged site 1 pages
     /\ requests w'
        = (requests w ++ map (absolute siteURL) (flat_map download_links pages))%list
     /\ forall k link,
          flat_map download_links pages !! k = Some link ->
          exists body,
            Get env (requests w
                     ++ map (absolute siteURL) (take k (flat_map download_links pages)))%list
              (absolute siteURL link)
            = Response StatusOK body true
            /\ disk w' !! filepath.Join downloadPath (ordinal_name k) = Some body)
  /\ (forall e,
         downloadPDFs_documents site fuel env siteURL downloadPath w
         = Some (w', Some (FindPDFLinksFailed e)) ->
         w' = w).
Proof.
  unfold downloadPDFs_documents, findPDFLinks. split.
  - destruct (findPDFLinks_loop site fuel 1 []) as [[pdfLinks|e]|] eqn:Hfind;
      [|discriminate..].
    apply findPDFLinks_loop_links in Hfind as (pages & Hp & _ & ->). cbn [app].
    destruct (download_loop env siteURL downloadPath 0 _ w) as [w1 [[link e]|]] eqn:Hloop;
      [discriminate|].
    intros [= <-]. exists pages. split; [assumption|]. split.
    + now apply download_loop_ok_requests in Hloop.
    + intros k link Hk.
      destruct (download_loop_files env siteURL downloadPath _ _ _ _ Hloop) as [Hfiles _].
      apply (Hfiles k link Hk).
  - intros e.
    destruct (findPDFLinks_loop site fuel 1 []) as [[pdfLinks|e']|]; [|congruence..].
    destruct (download_loop env siteURL downloadPath 0 pdfLinks w) as [w1 [[link e'']|]];
      discriminate.
Qed.

End Documents.

Section DocumentsExamples.

Import download.

(** The document list of two pages and a server that has every document. *)
Lemma downloadPDFs_documents_in_order_witness :
  let env := mkEnv (fun _ u => Response 200 ("%PDF " +:+ u) true) (fun _ => true) in
  let w' := mkWorld
              {[ "adp/adp_1.pdf" := "%PDF https://adpworld.adp.com/AdpwAdpaWeb/DocDownload?id=1";
                 "adp/adp_2.pdf" := "%PDF https://adpworld.adp.com/AdpwAdpaWeb/DocDownload?id=2";
                 "adp/adp_3.pdf" := "%PDF https://adpworld.adp.com/AdpwAdpaWeb/DocDownload?id=3" ]}
              ["https://adpworld.adp.com/AdpwAdpaWeb/DocDownload?id=1";
               "https://adpworld.adp.com/AdpwAdpaWeb/DocDownload?id=2";
               "https://adpworld.adp.com/AdpwAdpaWeb/DocDownload?id=3"] in
  exists pages,
    paged two_pages 1 pages
    /\ requests w'
       = ([] ++ map (absolute "https://adpworld.adp.com")
                  (flat_map download_links pages))%list
    /\ forall k link,
         flat_map download_links pages !! k = Some link ->
         exists body,
           Get env ([] ++ map (absolute "https://adpworld.adp.com")
                            (take k (flat_map download_links pages)))%list
             (absolute "https://adpworld.adp.com" link)
           = Response StatusOK body true
           /\ disk w' !! filepath.Join "adp" (ordinal_name k) = Some body.
Proof.
  intros env w'.
  apply (proj1 (downloadPDFs_documents_in_order two_pages env "https://adpworld.adp.com"
                  "adp" 2 (mkWorld ∅ []) w')).
  vm_compute. reflexivity.
Defined.

End DocumentsExamples.

(** ** Downloads and the pass over them *)
Section DownloadsAndPass.

Import process download.

Lemma string_of_uint_no_separator (d : Decimal.uint) :
  no_separator (NilEmpty.string_of_uint d) = true.
Proof. induction d; cbn; try reflexivity; exact IHd. Qed.

(** The name of a download is [adp_], a numeral and [.pdf]. *)
Lemma ordinal_name_form i :
  exists stem, ordinal_name i = stem +:+ ".pdf" /\ no_separator stem = true.
Proof.
  unfold ordinal_name.
  exists ("adp_" +:+ NilZero.string_of_uint (Nat.to_uint (i + 1))).
  split; [now rewrite append_assoc|].
  rewrite no_separator_append. cbn [andb].
  change (no_separator "adp_") with true. cbn [andb].
  unfold NilZero.string_of_uint.
  destruct (Nat.to_uint (i + 1)); try reflexivity; apply string_of_uint_no_separator.
Qed.

(** The name the pass proposes starts with the word of its branch. *)
Lemma proposedName_first text n :
  proposedName (classify text) = Some n ->
  exists c rest, n = String c rest /\ c <> "a"%char.
Proof.
  unfold classify.
  repeat match goal with
         | |- context [match ?x with _ => _ end] => destruct x
         end;
    cbn [proposedName]; intros H; try discriminate; injection H as <-;
    eexists _, _; (split; [reflexivity|discriminate]).
Qed.

(** The path allocated for a proposed name is not the path of a download. *)
Lemma allocated_not_ordinal (fs : gmap string file) pdfPath text n k :
  proposedName (classify text) = Some n ->
  ensureUniqueFilename fs (filepath.Join pdfPath n)
  <> filepath.Join pdfPath (ordinal_name k).
Proof.
  intros Hn. destruct (proposedName_first text n Hn) as (c & rest & E & Hc).
  destruct (proposedName_form text n Hn) as (stem & -> & _).
  rewrite ensureUniqueFilename_Join.
  assert (Hstem : exists rest', stem = String c rest').
  { destruct stem as [|c' rest'].
    - rewrite append_nil_l in E. injection E as <- _.
      exists "". exfalso. clear -Hn. revert Hn. unfold classify.
      repeat match goal with
             | |- context [match ?x with _ => _ end] => destruct x
             end;
        cbn [proposedName]; intros H; try discriminate; injection H as H;
        apply (f_equal String.length) in H; rewrite !length_append in H;
        cbn in H; lia.
    - rewrite append_cons in E. injection E as <- _. now exists rest'. }
  destruct Hstem as [rest' ->].
  assert (Hneq : forall tail, String c rest' +:+ tail <> ordinal_name k).
  { intros tail H. unfold ordinal_name in H. rewrite append_cons in H.
    change ("adp_" +:+ ?x) with (String "a" ("dp_" +:+ x)) in H. congruence. }
  destruct (notExist fs _); intros H; apply Join_inj in H; now apply Hneq in H.
Qed.

(** X20: every file a download batch writes is listed by a pass over the
    download directory, when that is written plainly: its name
    [adp_N.pdf] is that of a PDF of the directory. *)
Theorem downloads_are_listed (fs : gmap string file) downloadPath k :
  plain_directory downloadPath = true ->
  is_Some (fs !! filepath.Join downloadPath (ordinal_name k)) ->
  pdf_of downloadPath (filepath.Join downloadPath (ordinal_name k)) = true
  /\ In (filepath.Join downloadPath (ordinal_name k)) (Glob fs downloadPath).
Proof.
  destruct (ordinal_name_form k) as (stem & -> & Hs). intros _ Hf.
  assert (Hp : pdf_of downloadPath (filepath.Join downloadPath (stem +:+ ".pdf")) = true)
    by now apply pdf_of_Join.
  split; [assumption|]. apply Glob_In. split; assumption.
Qed.

(** X21: a download batch into the directory of a pass never replaces or
    empties a file that the pass has renamed: the paths the pass renames
    to are not the path of a download, whatever the text, and the batch,
    however it ends, leaves them as they are. *)
Theorem download_keeps_renamed (env : environment) siteURL pdfPath i links w w' r
    text n (fs : gmap string file) :
  proposedName (classify text) = Some n ->
  download_loop env siteURL pdfPath i links w = (w', r) ->
  let renamed := ensureUniqueFilename fs (filepath.Join pdfPath n) in
  (forall k, renamed <> filepath.Join pdfPath (ordinal_name k))
  /\ disk w' !! renamed = disk w !! renamed.
Proof.
  intros Hn Hloop. cbv zeta.
  assert (Hne : forall k, ensureUniqueFilename fs (filepath.Join pdfPath n)
                          <> filepath.Join pdfPath (ordinal_name k))
    by (intros k; eapply allocated_not_ordinal, Hn).
  split; [assumption|].
  eapply download_loop_frame; [exact Hloop|]. intros k _. apply Hne.
Qed.

End DownloadsAndPass.

Section DownloadsAndPassExamples.

Import process download.

Lemma downloads_are_listed_witness :
  pdf_of "adp" (filepath.Join "adp" (ordinal_name 1)) = true
  /\ In (filepath.Join "adp" (ordinal_name 1)) (Glob two_certificates "adp").
Proof.
  apply (downloads_are_listed two_certificates "adp" 1).
  - reflexivity.
  - eexists. vm_compute. reflexivity.
Defined.

(** A second batch beside the renamed tax certificate of scenario 1. *)
Lemma download_keeps_renamed_witness :
  let w := mkWorld {[ "adp/Lohnsteuerbescheinigung - 2022.pdf" := "%PDF 2022" ]} [] in
  let w' := fst (download_loop second_missing "https://adpworld.adp.com" "adp" 0
                   ["/a"; "/b"] w) in
  let renamed := ensureUniqueFilename ∅
                   (filepath.Join "adp" "Lohnsteuerbescheinigung - 2022.pdf") in
  (forall k, renamed <> filepath.Join "adp" (ordinal_name k))
  /\ disk w' !! renamed = disk w !! renamed.
Proof.
  intros w w' renamed.
  apply (download_keeps_renamed second_missing "https://adpworld.adp.com" "adp" 0
           ["/a"; "/b"] w w'
           (snd (download_loop second_missing "https://adpworld.adp.com" "adp" 0
                   ["/a"; "/b"] w))
           scenario_1 "Lohnsteuerbescheinigung - 2022.pdf" ∅).
  - vm_compute. reflexivity.
  - reflexivity.
Defined.

End DownloadsAndPassExamples.
